(** * USAJOBS ETL service: a shallow embedding of [etl/etl.py]

    The file embeds the resilient extraction-and-load pipeline of the
    service: the [retry] decorator, [CircuitBreaker.call],
    [JobPosting.validate], [USAJobsAPIClient.search_jobs] and
    [extract_job_data], [DatabaseManager.upsert_jobs] and the pagination
    loop of [ETLService.run]; around them, [create_tables],
    [get_statistics] and the whole of [run]; and, on decoded JSON,
    [USAJobsAPIClient._parse_location].

    Conventions.
    - Python [float] times and delays ([time.time()], [time.sleep],
      [delay], [backoff], [recovery_timeout]) are exact rationals [Q]:
      rounding is not modelled.  [time.sleep] raises on a negative delay,
      as in Python.
    - The database is reached through the connection [psycopg2.connect]
      returns; connecting, sending a statement and committing are
      operations of the outside world and may each raise.  The rows of
      [job_postings] live in the world: a transaction writes them, and
      leaving [get_connection] on an exception (rollback, or close without
      commit) puts back the rows found when connecting.
    - Python [str] is [string] (a list of 8-bit characters); [strip] and
      [lower] act on the ASCII range.
    - Everything the program mutates lives in one [World]; a method of the
      source is a function [World -> Res A * World].
    - [log] is a ghost field: the source has no such list.  It records, in
      order, each invocation of an outside operation, each [time.sleep]
      and the start of each pass of the pagination loop.
    - A [while] loop is a function recursive on a fuel argument; the fuel
      its caller passes is shown to suffice. *)

From Stdlib Require Import ZArith QArith String Ascii List Lia Lqa.
From stdpp Require Import gmap strings list pretty.

Local Open Scope string_scope.
Local Open Scope list_scope.
Local Open Scope Z_scope.

(** ** Exceptions and results *)

(** A Python exception, reduced to what the code observes: [str(e)]. *)
Inductive exn : Type := Exception (msg : string).

Definition str (e : exn) : string := match e with Exception m => m end.

(** The result of running a piece of code: it returns, it raises, or the
    fuel given to one of its [while] loops ran out. *)
Inductive Res (A : Type) : Type :=
| Return (a : A)
| Raise (e : exn)
| OutOfFuel.
Arguments Return {A} a.
Arguments Raise {A} e.
Arguments OutOfFuel {A}.

(** Ghost events. [EvCall None] is an invocation of an outside operation
    that returned, [EvCall (Some e)] one that raised [e]; [EvSleep d] is a
    [time.sleep(d)]; [EvPage p] marks the start of one pass of the
    pagination loop, for page [p]. *)
Inductive Event : Type :=
| EvCall (failed : option exn)
| EvSleep (d : Q)
| EvPage (p : Z).

(** ** The circuit breaker's fields *)

Inductive CircuitState : Type := CLOSED | OPEN | HALF_OPEN.

Record CircuitBreaker : Type := mkCircuitBreaker {
  failure_threshold : Z;
  recovery_timeout : Q;
  failure_count : Z;
  last_failure_time : option Q;
  state : CircuitState
}.

(** [CircuitBreaker.__init__] *)
Definition CircuitBreaker_init (failure_threshold : Z) (recovery_timeout : Q)
  : CircuitBreaker :=
  {| failure_threshold := failure_threshold;
     recovery_timeout := recovery_timeout;
     failure_count := 0;
     last_failure_time := None;
     state := CLOSED |}.

(** ** Records of the data model *)

(** [JobPosting]. Dates are kept as the ISO text they were parsed from. *)
Record JobPosting : Type := mkJobPosting {
  position_title : string;
  position_uri : string;
  position_location : string;
  position_remuneration : string;
  position_start_date : option string;
  position_end_date : option string;
  organization_name : string;
  department_name : string;
  job_category : string;
  job_grade : string;
  extracted_at : Q
}.

(** A row of table [job_postings] (the embedded schema of
    [_get_embedded_schema]): the columns written by the upsert, and the
    three the store fills in. *)
Record Row : Type := mkRow {
  row_id : Z;
  row_job : JobPosting;
  created_at : Q;
  updated_at : Q
}.

(** [ETLService.metrics] *)
Record Metrics : Type := mkMetrics {
  start_time : option Q;
  end_time : option Q;
  total_api_calls : Z;
  total_jobs_extracted : Z;
  total_jobs_loaded : Z;
  errors : list string
}.

Definition Metrics_init : Metrics :=
  {| start_time := None; end_time := None; total_api_calls := 0;
     total_jobs_extracted := 0; total_jobs_loaded := 0; errors := [] |}.

(** [DatabaseManager.upsert_jobs]'s result dictionary *)
Record Stats : Type := mkStats {
  inserted : Z;
  updated : Z;
  total : Z
}.

(** The dictionary [ETLService.run] returns *)
Record Summary : Type := mkSummary {
  duration_seconds : Q;
  api_calls_made : Z;
  jobs_extracted : Z;
  jobs_inserted : Z;
  jobs_updated : Z;
  total_jobs_in_db : Z;
  summary_errors : list string
}.

(** ** Python string operations *)

(** [c.isspace()] for a code point below 256. *)
Definition isspace (c : ascii) : bool :=
  let n := N_of_ascii c in
  ((9 <=? n) && (n <=? 13) || (28 <=? n) && (n <=? 32)
   || (n =? 133) || (n =? 160))%N.

Fixpoint lstrip (s : string) : string :=
  match s with
  | EmptyString => EmptyString
  | String c s' => if isspace c then lstrip s' else s
  end.

Definition rstrip (s : string) : string := String.rev (lstrip (String.rev s)).

(** [s.strip()] *)
Definition strip (s : string) : string := rstrip (lstrip s).

(** Truth value of a [str]: non-empty. *)
Definition truthy (s : string) : bool :=
  match s with EmptyString => false | String _ _ => true end.

(** [s.startswith(p)] *)
Definition startswith (s p : string) : bool := String.prefix p s.

(** [needle in haystack] *)
Fixpoint contains (needle haystack : string) : bool :=
  String.prefix needle haystack
  || match haystack with
     | EmptyString => false
     | String _ rest => contains needle rest
     end.

(** [c.lower()] for a code point below 256: A-Z and the Latin-1 capitals. *)
Definition lower_char (c : ascii) : ascii :=
  let n := N_of_ascii c in
  if ((65 <=? n) && (n <=? 90)
      || (192 <=? n) && (n <=? 222) && negb (n =? 215))%N
  then ascii_of_N (n + 32) else c.

Fixpoint lower (s : string) : string :=
  match s with
  | EmptyString => EmptyString
  | String c s' => String (lower_char c) (lower s')
  end.

(** ** [JobPosting.validate] *)
Definition validate (job : JobPosting) : bool :=
  if negb (truthy (position_title job)) || negb (truthy (strip (position_title job)))
  then false
  else if negb (truthy (position_uri job)) || negb (truthy (strip (position_uri job)))
  then false
  else if negb (startswith (position_uri job) "http")
  then false
  else true.

(** ** The deduplication loop of [upsert_jobs]

    [for job in jobs: if job.position_uri not in seen_uris: ...], with the
    two accumulators of the source. *)
Fixpoint dedup_loop (jobs : list JobPosting) (seen_uris : gset string)
    (unique_jobs : list JobPosting) : list JobPosting :=
  match jobs with
  | [] => unique_jobs
  | job :: rest =>
    if decide (position_uri job ∉ seen_uris)
    then dedup_loop rest ({[position_uri job]} ∪ seen_uris) (unique_jobs ++ [job])
    else dedup_loop rest seen_uris unique_jobs
  end.

Definition deduplicate (jobs : list JobPosting) : list JobPosting :=
  dedup_loop jobs ∅ [].

(** ** The upsert statement

    [INSERT INTO job_postings (...) VALUES %s ON CONFLICT (position_uri)
     DO UPDATE SET ... , updated_at = CURRENT_TIMESTAMP
     RETURNING (xmax = 0) AS inserted], run as one statement over all rows
    ([page_size=len(job_data)]).  [now] is [CURRENT_TIMESTAMP]; [touched]
    holds the keys this statement has already written: the store refuses to
    touch a row twice in one statement. *)
Definition do_update (now : Q) (job : JobPosting) (old : Row) : Row :=
  {| row_id := row_id old; row_job := job;
     created_at := created_at old; updated_at := now |}.

Definition do_insert (now : Q) (id : Z) (job : JobPosting) : Row :=
  {| row_id := id; row_job := job; created_at := now; updated_at := now |}.

Fixpoint upsert_statement (now : Q) (job_data : list JobPosting)
    (table : gmap string Row) (serial : Z) (touched : gset string)
  : exn + (list bool * gmap string Row * Z) :=
  match job_data with
  | [] => inr ([], table, serial)
  | job :: rest =>
    let uri := position_uri job in
    if decide (uri ∈ touched)
    then inl (Exception
           "ON CONFLICT DO UPDATE command cannot affect row a second time")
    else
      let '(is_insert, table') :=
        match table !! uri with
        | Some old => (false, <[uri := do_update now job old]> table)
        | None => (true, <[uri := do_insert now serial job]> table)
        end in
      match upsert_statement now rest table' (serial + 1) ({[uri]} ∪ touched) with
      | inl e => inl e
      | inr (results, table'', serial') => inr (is_insert :: results, table'', serial')
      end
  end.

(** [sum(1 for r in results if r[0])] *)
Definition count_inserted (results : list bool) : Z :=
  Z.of_nat (length (filter (fun r => r = true) results)).

(** The statements the manager sends: the schema of [create_tables], the
    upsert of [upsert_jobs] with its rows, the aggregate query of
    [get_statistics]. *)
Inductive Statement : Type :=
| SchemaSQL
| UpsertSQL (job_data : list JobPosting)
| StatisticsSQL.

(** ** What the API sends back *)

Section Payload.
(** A raw JSON value whose shape the embedding does not look into. *)
Context {Raw : Type}.

Record MatchedObjectDescriptor : Type := mkDescriptor {
  PositionTitle : option string;
  PositionURI : option string;
  PositionLocation : option Raw;
  PositionRemuneration : option Raw;
  OrganizationName : option string;
  DepartmentName : option string;
  PositionStartDate : option Raw;
  PositionEndDate : option Raw;
  JobCategory : option Raw;
  JobGrade : option Raw
}.

(** [{}]: the default of [item.get("MatchedObjectDescriptor", {})] *)
Definition empty_descriptor : MatchedObjectDescriptor :=
  mkDescriptor None None None None None None None None None None.

Record SearchResultT : Type := mkSearchResult {
  SearchResultItems : option (list (option MatchedObjectDescriptor));
  SearchResultCount : option Z;
  SearchResultCountAll : option Z
}.

(** [{}]: the default of [api_response.get("SearchResult", {})] *)
Definition empty_search_result : SearchResultT :=
  mkSearchResult None None None.

(** The decoded body: a dictionary, or a value of another type (named by
    its type: [list], [NoneType], ...). *)
Inductive ApiResponse : Type :=
| Dict (SearchResult : option SearchResultT)
| NotDict (type_name : string).

(** What [session.get] hands back: [raise_for_status()] raises or not,
    [json()] raises or decodes. *)
Record HttpResponse : Type := mkHttpResponse {
  raise_for_status : option exn;
  json : exn + ApiResponse
}.
End Payload.
Arguments MatchedObjectDescriptor : clear implicits.
Arguments SearchResultT : clear implicits.
Arguments ApiResponse : clear implicits.
Arguments HttpResponse : clear implicits.

(** The query parameters of one request. *)
Record Params : Type := mkParams {
  Keyword : string;
  ResultsPerPage : Z;
  Page : Z;
  WhoMayApply : string;
  LocationName : option string
}.

(** [a > b] on times *)
Definition Qgt_bool (a b : Q) : bool := negb (Qle_bool a b).

Section Service.

(** The state of everything outside the process (the API server, the
    network, the database server's health). *)
Context {Remote : Type}.

Record Outside : Type := mkOutside {
  clock : Q;
  remote : Remote
}.

Record World : Type := mkWorld {
  outside : Outside;
  log : list Event;
  circuit_breaker : CircuitBreaker;
  request_count : Z;
  metrics : Metrics;
  job_postings : gmap string Row;
  next_id : Z
}.

Definition set_outside (o : Outside) (w : World) : World :=
  mkWorld o (log w) (circuit_breaker w) (request_count w) (metrics w)
          (job_postings w) (next_id w).
Definition set_log (l : list Event) (w : World) : World :=
  mkWorld (outside w) l (circuit_breaker w) (request_count w) (metrics w)
          (job_postings w) (next_id w).
Definition set_circuit_breaker (cb : CircuitBreaker) (w : World) : World :=
  mkWorld (outside w) (log w) cb (request_count w) (metrics w)
          (job_postings w) (next_id w).
Definition set_request_count (n : Z) (w : World) : World :=
  mkWorld (outside w) (log w) (circuit_breaker w) n (metrics w)
          (job_postings w) (next_id w).
Definition set_metrics (m : Metrics) (w : World) : World :=
  mkWorld (outside w) (log w) (circuit_breaker w) (request_count w) m
          (job_postings w) (next_id w).
Definition set_table (t : gmap string Row) (n : Z) (w : World) : World :=
  mkWorld (outside w) (log w) (circuit_breaker w) (request_count w)
          (metrics w) t n.

(** ** The execution monad *)

Definition Exec (A : Type) : Type := World -> Res A * World.

Definition ret {A} (a : A) : Exec A := fun w => (Return a, w).
Definition raise {A} (e : exn) : Exec A := fun w => (Raise e, w).
Definition out_of_fuel {A} : Exec A := fun w => (OutOfFuel, w).

Definition bind {A B} (m : Exec A) (k : A -> Exec B) : Exec B :=
  fun w =>
    match m w with
    | (Return a, w') => k a w'
    | (Raise e, w') => (Raise e, w')
    | (OutOfFuel, w') => (OutOfFuel, w')
    end.

(** [try: body  except Exception as e: handler e] *)
Definition try_except {A} (body : Exec A) (handler : exn -> Exec A) : Exec A :=
  fun w =>
    match body w with
    | (Raise e, w') => handler e w'
    | r => r
    end.

Definition get {A} (f : World -> A) : Exec A := fun w => (Return (f w), w).
Definition modify (f : World -> World) : Exec unit := fun w => (Return tt, f w).

Notation "x <- c1 ;; c2" := (bind c1 (fun x => c2))
  (at level 100, c1 at next level, right associativity).
Notation "c1 ;; c2" := (bind c1 (fun _ => c2))
  (at level 100, right associativity).

(** ** Primitives: the clock and outside calls *)

(** [time.time()] *)
Definition time_time : Exec Q := get (fun w => clock (outside w)).

(** [time.sleep(d)]: the clock moves on by [d] and the call is logged;
    a negative [d] raises [ValueError] and nothing else happens. *)
Definition time_sleep (d : Q) : Exec unit :=
  if Qle_bool 0 d then
    modify (fun w =>
      set_log (log w ++ [EvSleep d])
        (set_outside (mkOutside (clock (outside w) + d)%Q (remote (outside w))) w))
  else raise (Exception "sleep length must be non-negative").

(** An operation of the outside world: it sees and changes only [Outside]. *)
Definition Op (A : Type) : Type := Outside -> (exn + A) * Outside.

(** Invoking an outside operation; the invocation and its outcome are logged. *)
Definition invoke {A} (op : Op A) : Exec A :=
  fun w =>
    match op (outside w) with
    | (inr a, o) => (Return a, set_log (log w ++ [EvCall None]) (set_outside o w))
    | (inl e, o) => (Raise e, set_log (log w ++ [EvCall (Some e)]) (set_outside o w))
    end.

(** ** [retry] *)

(** One pass through [while attempts < max_attempts] per unit of fuel.
    The wrapper returns [None] when the loop ends without a [return]. *)
Fixpoint retry_loop {A} (fuel : nat) (max_attempts : Z) (backoff : Q)
    (func : Exec A) (attempts : Z) (current_delay : Q) : Exec (option A) :=
  match fuel with
  | O => out_of_fuel
  | S fuel' =>
    if attempts <? max_attempts then
      try_except
        (r <- func ;; ret (Some r))
        (fun e =>
           let attempts := attempts + 1 in
           if attempts >=? max_attempts then raise e
           else
             time_sleep current_delay ;;
             retry_loop fuel' max_attempts backoff func attempts
                        (current_delay * backoff)%Q)
    else ret None
  end.

Definition retry {A} (max_attempts : Z) (delay backoff : Q) (func : Exec A)
  : Exec (option A) :=
  retry_loop (S (Z.to_nat max_attempts)) max_attempts backoff func 0 delay.

(** ** [CircuitBreaker.call]

    The breaker is the one the client owns, [circuit_breaker] of the
    world. *)
Definition set_state (st : CircuitState) (cb : CircuitBreaker) : CircuitBreaker :=
  mkCircuitBreaker (failure_threshold cb) (recovery_timeout cb)
                   (failure_count cb) (last_failure_time cb) st.
Definition set_failure_count (n : Z) (cb : CircuitBreaker) : CircuitBreaker :=
  mkCircuitBreaker (failure_threshold cb) (recovery_timeout cb)
                   n (last_failure_time cb) (state cb).
Definition set_last_failure_time (t : option Q) (cb : CircuitBreaker)
  : CircuitBreaker :=
  mkCircuitBreaker (failure_threshold cb) (recovery_timeout cb)
                   (failure_count cb) t (state cb).

Definition update_breaker (f : CircuitBreaker -> CircuitBreaker) : Exec unit :=
  modify (fun w => set_circuit_breaker (f (circuit_breaker w)) w).

Definition CircuitBreaker_call {A} (func : Exec A) : Exec A :=
  (self <- get circuit_breaker ;;
   match state self with
   | OPEN =>
     now <- time_time ;;
     match last_failure_time self with
     | None =>
       raise (Exception
         "unsupported operand type(s) for -: 'float' and 'NoneType'")
     | Some last =>
       if Qgt_bool (now - last)%Q (recovery_timeout self)
       then update_breaker (set_state HALF_OPEN)
       else raise (Exception "Circuit breaker is OPEN")
     end
   | _ => ret tt
   end) ;;
  try_except
    (result <- func ;;
     self <- get circuit_breaker ;;
     match state self with
     | HALF_OPEN =>
       update_breaker (set_state CLOSED) ;;
       update_breaker (set_failure_count 0)
     | _ => ret tt
     end ;;
     ret result)
    (fun e =>
       update_breaker (fun self => set_failure_count (failure_count self + 1) self) ;;
       now <- time_time ;;
       update_breaker (set_last_failure_time (Some now)) ;;
       self <- get circuit_breaker ;;
       (if failure_count self >=? failure_threshold self
        then update_breaker (set_state OPEN)
        else ret tt) ;;
       raise e).

(** ** [USAJobsAPIClient] *)

Context {Raw : Type}.

(** [self.api_delay] *)
Context (api_delay : Q).

(** [self.session.get(self.base_url, params=params, timeout=30)] *)
Context (session_get : Params -> Op (HttpResponse Raw)).

(** [search_jobs] without its decorator. *)
Definition search_jobs_undecorated (keyword : string) (location : option string)
    (results_per_page page : Z) : Exec (ApiResponse Raw) :=
  let params :=
    {| Keyword := keyword;
       ResultsPerPage := Z.min results_per_page 500;
       Page := page;
       WhoMayApply := "All";
       LocationName :=
         match location with
         | Some l => if truthy l then Some l else None
         | None => None
         end |} in
  let make_request : Exec (ApiResponse Raw) :=
    modify (fun w => set_request_count (request_count w + 1) w) ;;
    response <- invoke (session_get params) ;;
    match raise_for_status response with
    | Some e => raise e
    | None => ret tt
    end ;;
    time_sleep api_delay ;;
    match json response with
    | inl e => raise e
    | inr body => ret body
    end in
  try_except (CircuitBreaker_call make_request) (fun e => raise e).

(** [@retry(max_attempts=3, delay=2.0)], [backoff] at its default [2.0]. *)
Definition search_jobs (keyword : string) (location : option string)
    (results_per_page page : Z) : Exec (option (ApiResponse Raw)) :=
  retry 3 2 2 (search_jobs_undecorated keyword location results_per_page page).

(** The field parsers of the client, which the embedding takes as given:
    each is applied to the raw field, [None] when the key is absent.  The
    two classification look-ups ([JobCategory[0]["Name"]],
    [JobGrade[0]["Code"]]) may raise. *)
Context (_parse_location : option Raw -> string).
Context (_parse_remuneration : option Raw -> string).
Context (_parse_date : option Raw -> option string).
Context (first_entry : string -> option Raw -> exn + string).

Definition get_str (field : option string) : string :=
  match field with Some s => s | None => "" end.

(** The body of [for item in search_result_items], up to the
    [JobPosting(...)] call; [now] is the [datetime.now()] of
    [__post_init__]. [None] for an item that raised and was skipped. *)
Definition make_job (now : Q) (item : option (MatchedObjectDescriptor Raw))
  : option JobPosting :=
  let match_job := match item with Some d => d | None => empty_descriptor end in
  let position_title := strip (get_str (PositionTitle match_job)) in
  let position_uri := strip (get_str (PositionURI match_job)) in
  let position_location := _parse_location (PositionLocation match_job) in
  let position_remuneration := _parse_remuneration (PositionRemuneration match_job) in
  let organization_name := strip (get_str (OrganizationName match_job)) in
  let department_name := strip (get_str (DepartmentName match_job)) in
  let position_start_date := _parse_date (PositionStartDate match_job) in
  let position_end_date := _parse_date (PositionEndDate match_job) in
  match first_entry "Name" (JobCategory match_job) with
  | inl _ => None
  | inr job_category =>
    match first_entry "Code" (JobGrade match_job) with
    | inl _ => None
    | inr job_grade =>
      Some (mkJobPosting position_title position_uri position_location
              position_remuneration position_start_date position_end_date
              organization_name department_name job_category job_grade now)
    end
  end.

Fixpoint extract_items (items : list (option (MatchedObjectDescriptor Raw)))
    (jobs : list JobPosting) : Exec (list JobPosting) :=
  match items with
  | [] => ret jobs
  | item :: rest =>
    now <- time_time ;;
    match make_job now item with
    | Some job =>
      if validate job then extract_items rest (jobs ++ [job])
      else extract_items rest jobs
    | None => extract_items rest jobs
    end
  end.

(** [api_response.get("SearchResult", {})] *)
Definition get_SearchResult (api_response : ApiResponse Raw)
  : Exec (SearchResultT Raw) :=
  match api_response with
  | Dict (Some sr) => ret sr
  | Dict None => ret empty_search_result
  | NotDict ty =>
    raise (Exception ("'" ++ ty ++ "' object has no attribute 'get'")%string)
  end.

Definition get_items (search_result : SearchResultT Raw)
  : list (option (MatchedObjectDescriptor Raw)) :=
  match SearchResultItems search_result with Some l => l | None => [] end.

Definition get_count (field : option Z) : Z :=
  match field with Some n => n | None => 0 end.

(** [extract_job_data] *)
Definition extract_job_data (api_response : ApiResponse Raw)
  : Exec (list JobPosting) :=
  try_except
    (search_result <- get_SearchResult api_response ;;
     extract_items (get_items search_result) [])
    (fun e => raise e).

(** ** [DatabaseManager] *)

(** What [psycopg2.connect] returns: a connection.  Sending a statement
    over it ([conn.cursor()], [cur.execute] or [execute_values], and the
    fetch of its result) and [conn.commit()] are operations of the outside
    world: the driver or the server may raise in each. *)
Record Connection : Type := mkConnection {
  cur_execute : Statement -> Op unit;
  conn_commit : Op unit
}.

(** [psycopg2.connect] with the manager's connection parameters *)
Context (psycopg2_connect : Op Connection).

(** [with self.get_connection() as conn: body].  The table of the world
    takes the writes of the open transaction.  When the body raises, the
    generator leaves through [conn.rollback()] (a [psycopg2.Error]) or,
    for any other exception, through [conn.close()] alone: either way the
    rows are again those found when connecting, and the exception goes
    on.  The sequence of ids is not part of the transaction: values drawn
    are not given back.  [rollback] and [close] themselves are taken not
    to raise, and a [commit] that raises to have committed nothing. *)
Definition get_connection {A} (body : Connection -> Exec A) : Exec A :=
  conn <- invoke psycopg2_connect ;;
  table <- get job_postings ;;
  try_except (body conn)
    (fun e =>
       modify (fun w => set_table table (next_id w) w) ;;
       raise e).

(** [create_tables]: the schema, read from [/app/init.sql] or embedded,
    is taken to be the embedded one, [CREATE ... IF NOT EXISTS]
    throughout, which changes no row. *)
Definition create_tables : Exec (option unit) :=
  retry 3 2 2
    (try_except
       (get_connection (fun conn =>
          invoke (cur_execute conn SchemaSQL) ;;
          invoke (conn_commit conn)))
       (fun e => raise e)).

(** [execute_values(cur, upsert_sql, job_data, page_size=len(job_data))]
    followed by [cur.fetchall()]. *)
Definition execute_values (conn : Connection) (job_data : list JobPosting)
  : Exec (list bool) :=
  invoke (cur_execute conn (UpsertSQL job_data)) ;;
  now <- time_time ;;
  table <- get job_postings ;;
  serial <- get next_id ;;
  match upsert_statement now job_data table serial ∅ with
  | inl e => raise e
  | inr (results, table', serial') =>
    modify (set_table table' serial') ;;
    ret results
  end.

Definition upsert_jobs_undecorated (jobs : list JobPosting) : Exec Stats :=
  match jobs with
  | [] => ret (mkStats 0 0 0)
  | _ =>
    let jobs := deduplicate jobs in
    try_except
      (get_connection (fun conn =>
         results <- execute_values conn jobs ;;
         let inserted := count_inserted results in
         let updated := Z.of_nat (length results) - inserted in
         invoke (conn_commit conn) ;;
         ret (mkStats inserted updated (Z.of_nat (length results)))))
      (fun e => raise e)
  end.

(** [@retry(max_attempts=3, delay=1.0)] *)
Definition upsert_jobs (jobs : list JobPosting) : Exec (option Stats) :=
  retry 3 1 2 (upsert_jobs_undecorated jobs).

(** [get_statistics], reduced to the one aggregate the service reads,
    [total_jobs]; [None] is the [{}] returned on any failure. *)
Definition get_statistics : Exec (option Z) :=
  try_except
    (get_connection (fun conn =>
       invoke (cur_execute conn StatisticsSQL) ;;
       table <- get job_postings ;;
       ret (Some (Z.of_nat (size table)))))
    (fun _ => ret None).

(** ** [ETLService.run] *)

Definition update_metrics (f : Metrics -> Metrics) : Exec unit :=
  modify (fun w => set_metrics (f (metrics w)) w).

Definition add_api_call (m : Metrics) : Metrics :=
  mkMetrics (start_time m) (end_time m) (total_api_calls m + 1)
            (total_jobs_extracted m) (total_jobs_loaded m) (errors m).
Definition add_extracted (n : Z) (m : Metrics) : Metrics :=
  mkMetrics (start_time m) (end_time m) (total_api_calls m)
            (total_jobs_extracted m + n) (total_jobs_loaded m) (errors m).
Definition set_loaded (n : Z) (m : Metrics) : Metrics :=
  mkMetrics (start_time m) (end_time m) (total_api_calls m)
            (total_jobs_extracted m) n (errors m).
Definition append_error (msg : string) (m : Metrics) : Metrics :=
  mkMetrics (start_time m) (end_time m) (total_api_calls m)
            (total_jobs_extracted m) (total_jobs_loaded m) (errors m ++ [msg]).
Definition set_start_time (t : Q) (m : Metrics) : Metrics :=
  mkMetrics (Some t) (end_time m) (total_api_calls m)
            (total_jobs_extracted m) (total_jobs_loaded m) (errors m).
Definition set_end_time (t : Q) (m : Metrics) : Metrics :=
  mkMetrics (start_time m) (Some t) (total_api_calls m)
            (total_jobs_extracted m) (total_jobs_loaded m) (errors m).

(** How one pass of the [while] loop ends: by [break], or by reaching the
    end of the body or a [continue]. *)
Inductive Ctl : Type := Break | Continue.

(** A value a decorated function returned: [None] has no [get] and no
    subscript. *)
Definition of_search (r : option (ApiResponse Raw)) : ApiResponse Raw :=
  match r with Some body => body | None => NotDict "NoneType" end.

(** [f"Error processing page {page}: {e}"] *)
Definition page_error_msg (page : Z) (e : exn) : string :=
  ("Error processing page " ++ pretty page ++ ": " ++ str e)%string.

(** ["rate limit" in str(e).lower()] *)
Definition is_rate_limit (e : exn) : bool := contains "rate limit" (lower (str e)).

(** The [try] block of the body of [while page <= max_pages].  It returns
    how the pass ended and the loop's variables [page] and [all_jobs]. *)
Definition page_try (keyword : string) (location : option string)
    (page : Z) (all_jobs : list JobPosting)
  : Exec (Ctl * Z * list JobPosting) :=
  r <- search_jobs keyword location 500 page ;;
  let api_response := of_search r in
  update_metrics add_api_call ;;
  search_result <- get_SearchResult api_response ;;
  let search_result_items := get_items search_result in
  match search_result_items with
  | [] => ret (Break, page, all_jobs)
  | _ =>
    jobs <- extract_job_data api_response ;;
    let all_jobs := all_jobs ++ jobs in
    update_metrics (add_extracted (Z.of_nat (length jobs))) ;;
    let search_result_count := get_count (SearchResultCount search_result) in
    let search_result_count_all :=
      get_count (SearchResultCountAll search_result) in
    if (Z.of_nat (length search_result_items) <? 500)
       || (search_result_count >=? search_result_count_all)
    then ret (Break, page, all_jobs)
    else ret (Continue, page + 1, all_jobs)
  end.

(** Its [except Exception as e] block.  No statement after
    [all_jobs.extend(jobs)] can raise, so the handler sees [all_jobs] as it
    was when the pass began. *)
Definition page_except (page : Z) (all_jobs : list JobPosting) (e : exn)
  : Exec (Ctl * Z * list JobPosting) :=
  let error_msg := page_error_msg page e in
  update_metrics (append_error error_msg) ;;
  if negb (is_rate_limit e)
  then ret (Continue, page + 1, all_jobs)
  else ret (Break, page, all_jobs).

(** One pass of the loop; its start is logged. *)
Definition page_pass (keyword : string) (location : option string)
    (page : Z) (all_jobs : list JobPosting)
  : Exec (Ctl * Z * list JobPosting) :=
  modify (fun w => set_log (log w ++ [EvPage page]) w) ;;
  try_except (page_try keyword location page all_jobs)
             (page_except page all_jobs).

(** [while page <= max_pages: ...], one pass per unit of fuel. *)
Fixpoint pagination_loop (fuel : nat) (keyword : string)
    (location : option string) (max_pages page : Z)
    (all_jobs : list JobPosting) : Exec (list JobPosting) :=
  match fuel with
  | O => out_of_fuel
  | S fuel' =>
    if page <=? max_pages then
      r <- page_pass keyword location page all_jobs ;;
      match r with
      | (Break, _, all_jobs') => ret all_jobs'
      | (Continue, page', all_jobs') =>
        pagination_loop fuel' keyword location max_pages page' all_jobs'
      end
    else ret all_jobs
  end.

(** [run]; [keyword], [location] and [max_pages] are the values in force
    after the environment defaults have been applied. *)
Definition run (keyword : string) (location : option string) (max_pages : Z)
  : Exec Summary :=
  start <- time_time ;;
  update_metrics (set_start_time start) ;;
  try_except
    (create_tables ;;
     initial_stats <- get_statistics ;;
     all_jobs <- pagination_loop (S (Z.to_nat max_pages)) keyword location
                   max_pages 1 [] ;;
     db_stats <-
       match all_jobs with
       | [] => ret (mkStats 0 0 0)
       | _ =>
         r <- upsert_jobs all_jobs ;;
         match r with
         | Some db_stats =>
           update_metrics (set_loaded (total db_stats)) ;;
           ret db_stats
         | None => raise (Exception "'NoneType' object is not subscriptable")
         end
       end ;;
     final_stats <- get_statistics ;;
     finish <- time_time ;;
     update_metrics (set_end_time finish) ;;
     m <- get metrics ;;
     ret {| duration_seconds := (finish - start)%Q;
            api_calls_made := total_api_calls m;
            jobs_extracted := total_jobs_extracted m;
            jobs_inserted := inserted db_stats;
            jobs_updated := updated db_stats;
            total_jobs_in_db := get_count final_stats;
            summary_errors := errors m |})
    (fun e =>
       finish <- time_time ;;
       update_metrics (set_end_time finish) ;;
       update_metrics (append_error ("ETL process failed: " ++ str e)%string) ;;
       raise e).

End Service.

(** ** [_parse_location] on decoded JSON

    The extraction above takes the field parsers as given, on the fields
    for which they return.  This module embeds one of them,
    [USAJobsAPIClient._parse_location], on the values [response.json()]
    can hand it, with the one exception it lets out. *)
Module Json.

(** A decoded JSON value.  An object is the list of its entries, its keys
    distinct; a float is taken as a rational, of which only the test
    against zero is used. *)
#[warnings="-register-all"] Inductive value : Type :=
| Null
| Bool (b : bool)
| Int (n : Z)
| Float (q : Q)
| Str (s : string)
| Array (items : list value)
| Object (entries : list (string * value)).

(** [bool(v)] *)
Definition truth (v : value) : bool :=
  match v with
  | Null => false
  | Bool b => b
  | Int n => negb (n =? 0)
  | Float q => negb (Qeq_bool q 0)
  | Str s => truthy s
  | Array items => match items with [] => false | _ => true end
  | Object entries => match entries with [] => false | _ => true end
  end.

(** [type(v).__name__] *)
Definition type_name (v : value) : string :=
  match v with
  | Null => "NoneType"
  | Bool _ => "bool"
  | Int _ => "int"
  | Float _ => "float"
  | Str _ => "str"
  | Array _ => "list"
  | Object _ => "dict"
  end.

(** [d.get(key, default)] *)
Definition dict_get (d : list (string * value)) (key : string) (default : value)
  : value :=
  match List.find (fun kv => String.eqb (fst kv) key) d with
  | Some kv => snd kv
  | None => default
  end.

(** The items of the sequence given to [sep.join], from item [i] on: the
    first that is no [str] raises [TypeError]. *)
Fixpoint strings_of (i : nat) (parts : list value) : exn + list string :=
  match parts with
  | [] => inr []
  | Str s :: rest =>
    match strings_of (S i) rest with
    | inl e => inl e
    | inr l => inr (s :: l)
    end
  | v :: _ =>
    inl (Exception ("sequence item " ++ pretty i ++ ": expected str instance, "
                    ++ type_name v ++ " found")%string)
  end.

(** [sep.join(parts)] *)
Definition str_join (sep : string) (parts : list value) : exn + string :=
  match strings_of 0 parts with
  | inl e => inl e
  | inr l => inr (String.concat sep l)
  end.

(** [_parse_location(location_data)].  The [AttributeError] of
    [location.get] on a value that is no dictionary is caught, and
    [location_data[0]] cannot fail on a non-empty list; the [TypeError] of
    [join] is not among the exceptions caught. *)
Definition _parse_location (location_data : value) : exn + string :=
  match location_data with
  | Array (location :: _) =>
    match location with
    | Object d =>
      let city := dict_get d "CityName" (Str "") in
      let state := dict_get d "StateCode" (Str "") in
      let country := dict_get d "CountryCode" (Str "US") in
      let parts := List.filter truth [city; state; country] in
      match parts with
      | [] => inr "Location not specified"
      | _ => str_join ", " parts
      end
    | _ => inr "Location not specified"
    end
  | _ => inr "Location not specified"
  end.

End Json.

(** ** Vocabulary of the statements *)

(** The outside world after a [time.sleep(d)]. *)
Definition slept {Remote : Type} (d : Q) (o : @Outside Remote) : @Outside Remote :=
  mkOutside (clock o + d)%Q (remote o).


(** A string is blank when all its characters are whitespace. *)
Fixpoint blank (s : string) : bool :=
  match s with
  | EmptyString => true
  | String c s' => isspace c && blank s'
  end.

(** The first, and the last, record of a batch that carries key [k]. *)
Definition first_with_key (k : string) (jobs : list JobPosting) : option JobPosting :=
  List.find (fun job => String.eqb (position_uri job) k) jobs.

Definition last_with_key (k : string) (jobs : list JobPosting) : option JobPosting :=
  first_with_key k (rev jobs).

(** The keys of a batch, in order, and as a set. *)
Definition keys (jobs : list JobPosting) : list string := position_uri <$> jobs.

Definition key_set (jobs : list JobPosting) : gset string := list_to_set (keys jobs).

(** The pages for which a pass of the pagination loop began, in order. *)
Definition pages_of (l : list Event) : list Z :=
  omap (fun ev => match ev with EvPage p => Some p | _ => None end) l.

(** A piece of code is quiet when it ends and leaves alone the metrics and
    the record of the pages visited. *)
Definition quiet {Remote A : Type} (m : @Exec Remote A) : Prop :=
  forall w,
    fst (m w) <> OutOfFuel
    /\ metrics (snd (m w)) = metrics w
    /\ pages_of (log (snd (m w))) = pages_of (log w).

(** The states of a [while] loop with variables [page] and [all_jobs] that
    a run of the loop goes through: [passes_on pass max_pages s s'] when
    the loop, being in state [s] (fuel left, page, batch, world) at the
    head of a pass, is later in state [s'] at the head of a pass. *)
Inductive passes_on {Remote : Type}
    (pass : Z -> list JobPosting -> @Exec Remote (Ctl * Z * list JobPosting))
    (max_pages : Z)
  : nat * Z * list JobPosting * @World Remote ->
    nat * Z * list JobPosting * @World Remote -> Prop :=
| passes_here s : passes_on pass max_pages s s
| passes_step fuel page all_jobs w page' all_jobs' w' s :
    page <= max_pages ->
    pass page all_jobs w = (Return (Continue, page', all_jobs'), w') ->
    passes_on pass max_pages (fuel, page', all_jobs', w') s ->
    passes_on pass max_pages (S fuel, page, all_jobs, w) s.

(** A piece of code respects a relation between worlds when the world it
    ends in, however it ends, is related to the one it started in. *)
Definition respects {Remote A : Type} (R : relation (@World Remote))
    (m : @Exec Remote A) : Prop :=
  forall w, R w (snd (m w)).

(** The relation of leaving a part of the world as it was. *)
Definition same {Remote T : Type} (part : @World Remote -> T)
  : relation (@World Remote) :=
  fun w w' => part w' = part w.

(** The invocations of outside operations in a log, by their outcomes, and
    their number. *)
Definition calls_in (l : list Event) : list (option exn) :=
  omap (fun ev => match ev with EvCall r => Some r | _ => None end) l.

Definition calls_of (l : list Event) : Z := Z.of_nat (length (calls_in l)).

(** A part of the world on which the outside state and the log have no
    bearing. *)
Definition inner_part {Remote T : Type} (part : @World Remote -> T) : Prop :=
  forall w o l, part (set_log l (set_outside o w)) = part w.

(** The breaker between two calls: the threshold is positive; Closed, it
    has counted fewer failures than the threshold; Open, it has counted at
    least that many and holds the time of the last one; it is not left
    Half-Open. *)
Definition breaker_ok (cb : CircuitBreaker) : Prop :=
  1 <= failure_threshold cb
  /\ match state cb with
     | CLOSED => 0 <= failure_count cb < failure_threshold cb
     | OPEN => failure_threshold cb <= failure_count cb
               /\ last_failure_time cb <> None
     | HALF_OPEN => False
     end.

(** The query parameters [search_jobs] builds. *)
Definition request_params (keyword : string) (location : option string)
    (results_per_page page : Z) : Params :=
  {| Keyword := keyword;
     ResultsPerPage := Z.min results_per_page 500;
     Page := page;
     WhoMayApply := "All";
     LocationName :=
       match location with
       | Some l => if truthy l then Some l else None
       | None => None
       end |}.

(** A request that fails before a body is decoded: the transport raises,
    or the response carries an error status. *)
Definition request_fails {Remote Raw : Type}
    (session_get : Params -> @Op Remote (HttpResponse Raw))
    (params : Params) (o : @Outside Remote) (e : exn) (o1 : @Outside Remote)
  : Prop :=
  session_get params o = (inl e, o1)
  \/ exists response,
       session_get params o = (inr response, o1)
       /\ raise_for_status response = Some e.

(** The world after a [time.sleep(d)]. *)
Definition after_sleep {Remote : Type} (d : Q) (w : @World Remote) : @World Remote :=
  set_log (log w ++ [EvSleep d]) (set_outside (slept d (outside w)) w).

(** The breaker after one more failure, recorded at time [now]. *)
Definition failed_once (now : Q) (cb : CircuitBreaker) : CircuitBreaker :=
  mkCircuitBreaker (failure_threshold cb) (recovery_timeout cb)
    (failure_count cb + 1) (Some now)
    (if failure_count cb + 1 >=? failure_threshold cb then OPEN else state cb).

(** The inner function [make_request] of [search_jobs], for the parameters
    built. *)
Definition make_request {Remote Raw : Type} (api_delay : Q)
    (session_get : Params -> @Op Remote (HttpResponse Raw)) (params : Params)
  : @Exec Remote (ApiResponse Raw) :=
  bind (modify (fun w => set_request_count (request_count w + 1) w)) (fun _ =>
  bind (invoke (session_get params)) (fun response =>
  bind (match raise_for_status response with
        | Some e => raise e
        | None => ret tt
        end) (fun _ =>
  bind (time_sleep api_delay) (fun _ =>
  match json response with
  | inl e => raise e
  | inr body => ret body
  end)))).

(** What the [try] block of a pass does once [search_jobs] has returned
    [r]. *)
Definition after_fetch {Remote Raw : Type}
    (_parse_location _parse_remuneration : option Raw -> string)
    (_parse_date : option Raw -> option string)
    (first_entry : string -> option Raw -> exn + string)
    (page : Z) (all_jobs : list JobPosting) (r : option (ApiResponse Raw))
  : @Exec Remote (Ctl * Z * list JobPosting) :=
  let api_response := of_search r in
  bind (update_metrics add_api_call) (fun _ =>
  bind (get_SearchResult api_response) (fun search_result =>
  let search_result_items := get_items search_result in
  match search_result_items with
  | [] => ret (Break, page, all_jobs)
  | _ =>
    bind (extract_job_data _parse_location _parse_remuneration _parse_date
                           first_entry api_response) (fun jobs =>
    let all_jobs := all_jobs ++ jobs in
    bind (update_metrics (add_extracted (Z.of_nat (length jobs)))) (fun _ =>
    let search_result_count := get_count (SearchResultCount search_result) in
    let search_result_count_all :=
      get_count (SearchResultCountAll search_result) in
    if (Z.of_nat (length search_result_items) <? 500)
       || (search_result_count >=? search_result_count_all)
    then ret (Break, page, all_jobs)
    else ret (Continue, page + 1, all_jobs)))
  end)).

(** The requests sent and the requests counted, as one part of the world;
    and the table with its sequence, as another. *)
Definition traffic {Remote : Type} (w : @World Remote) : Z * Z :=
  (calls_of (log w), request_count w).

Definition store {Remote : Type} (w : @World Remote) : gmap string Row * Z :=
  (job_postings w, next_id w).

(** The client's own state. *)
Definition client {Remote : Type} (w : @World Remote) : CircuitBreaker * Z :=
  (circuit_breaker w, request_count w).

(** [s.rstrip()] by recursion on [s], for comparison with the definition
    through reversal. *)
Fixpoint rstrip_rec (s : string) : string :=
  match s with
  | EmptyString => EmptyString
  | String c s' =>
    match rstrip_rec s' with
    | EmptyString => if isspace c then EmptyString else String c EmptyString
    | r => String c r
    end
  end.

(** A string that does not start with whitespace. *)
Definition starts_clean (s : string) : Prop :=
  match s with
  | EmptyString => True
  | String c _ => isspace c = false
  end.

(** A piece of code ends when it does not exhaust the fuel of its loops. *)
Definition ends {Remote A : Type} (m : @Exec Remote A) : Prop :=
  forall w, fst (m w) <> OutOfFuel.

(** The world once the handler of the [try] of [run] has recorded the
    failure [e]. *)
Definition run_failed {Remote : Type} (e : exn) (w : @World Remote)
  : @World Remote :=
  set_metrics
    (append_error ("ETL process failed: " ++ str e)%string
                  (set_end_time (clock (outside w)) (metrics w))) w.

(** A connection that accepts every statement and every commit, and a
    database server that always hands out such a connection. *)
Definition accepts_all {Remote : Type} (conn : @Connection Remote) : Prop :=
  (forall st o, exists o', cur_execute conn st o = (inr tt, o'))
  /\ (forall o, exists o', conn_commit conn o = (inr tt, o')).

Definition always_accepts {Remote : Type}
    (connect : @Op Remote (@Connection Remote)) : Prop :=
  forall o, exists conn o', connect o = (inr conn, o') /\ accepts_all conn.

(** The fields of the metrics that only [run] itself sets: the two time
    stamps and the number of rows loaded. *)
Definition run_stamps (m : Metrics) : option Q * option Q * Z :=
  (start_time m, end_time m, total_jobs_loaded m).

(** [isinstance(v, str)] *)
Definition is_str (v : Json.value) : bool :=
  match v with Json.Str _ => true | _ => false end.

(** The three fields [_parse_location] reads from a location entry, with
    the defaults it gives them. *)
Definition location_fields (d : list (string * Json.value)) : list Json.value :=
  [Json.dict_get d "CityName" (Json.Str "");
   Json.dict_get d "StateCode" (Json.Str "");
   Json.dict_get d "CountryCode" (Json.Str "US")].

(** The world after an outside operation that ended in state [o], having
    returned ([None]) or raised. *)
Definition called {Remote : Type} (failed : option exn) (o : @Outside Remote)
    (w : @World Remote) : @World Remote :=
  set_log (log w ++ [EvCall failed]) (set_outside o w).

(** An exception of the database: one that [psycopg2.connect] raised, or
    that a statement or a commit raised over a connection it returned. *)
Definition database_raises {Remote : Type}
    (connect : @Op Remote (@Connection Remote)) (e : exn) : Prop :=
  (exists o o', connect o = (inl e, o'))
  \/ (exists o conn o',
        connect o = (inr conn, o')
        /\ ((exists st o1 o2, cur_execute conn st o1 = (inl e, o2))
            \/ (exists o1 o2, conn_commit conn o1 = (inl e, o2)))).

(** The statistics [upsert_jobs] reports for a batch, given the table it
    finds: a row counts as inserted when its key is not in the table. *)
Definition stats_of (table : gmap string Row) (jobs : list JobPosting) : Stats :=
  let results :=
    map (fun job => bool_decide (table !! position_uri job = None))
        (deduplicate jobs) in
  mkStats (count_inserted results)
          (Z.of_nat (length results) - count_inserted results)
          (Z.of_nat (length results)).


(** The number of records of a batch that carry key [k]. *)
Definition occurrences (k : string) (jobs : list JobPosting) : nat :=
  length (List.filter (fun job => String.eqb (position_uri job) k) jobs).

(** A failure whose message indicates rate limiting: [str(e)] holds,
    somewhere, a piece of text that reads ["rate limit"] once put in
    lower case. *)
Definition rate_limited (e : exn) : Prop :=
  exists pre mid post,
    str e = (pre ++ mid ++ post)%string /\ lower mid = "rate limit".

(** ** Fixtures: the operations and worlds of the unit tests *)

(** A world for a component tested on its own: nothing logged, an empty
    table, the given breaker. *)
Definition fresh_world {Remote : Type} (cb : CircuitBreaker) (t : Q) (r : Remote)
  : World :=
  mkWorld (mkOutside t r) [] cb 0 Metrics_init ∅ 1.

(** [flaky_func] of [test_retry_success_after_failures]: the outside state
    is [call_count]. *)
Definition flaky_func : @Op nat string :=
  fun o =>
    let call_count := S (remote o) in
    if (call_count <? 3)%nat
    then (inl (Exception "Temporary failure"), mkOutside (clock o) call_count)
    else (inr "success", mkOutside (clock o) call_count).

(** [failing_func] of the breaker and retry tests; it counts its calls. *)
Definition failing_func : @Op nat string :=
  fun o => (inl (Exception "API Error"), mkOutside (clock o) (S (remote o))).

(** [success_func] of the breaker tests; it counts its calls. *)
Definition success_func : @Op nat string :=
  fun o => (inr "success", mkOutside (clock o) (S (remote o))).

(** An operation that fails on its odd-numbered calls and succeeds on the
    even-numbered ones. *)
Definition intermittent_func : @Op nat string :=
  fun o =>
    let call_count := S (remote o) in
    if Nat.even call_count
    then (inr "success", mkOutside (clock o) call_count)
    else (inl (Exception "API Error"), mkOutside (clock o) call_count).

(** A listing whose key starts with [http] and is no URL. *)
Definition garbage_item : MatchedObjectDescriptor unit :=
  mkDescriptor (Some "Data Engineer") (Some "httpgarbage")
               None None None None None None None None.

(** Field parsers for the fixtures: the fall-back texts of the client. *)
Definition fixture_location (_ : option unit) : string := "Location not specified".
Definition fixture_remuneration (_ : option unit) : string := "Not specified".
Definition fixture_date (_ : option unit) : option string := None.
Definition fixture_entry (_ : string) (_ : option unit) : exn + string := inr "".

(** A connection over which every statement and every commit goes
    through, and a database server that hands it out to every caller. *)
Definition healthy_connection : @Connection nat :=
  mkConnection (fun _ o => (inr tt, o)) (fun o => (inr tt, o)).

Definition connect_ok : @Op nat (@Connection nat) :=
  fun o => (inr healthy_connection, o).

(** Two records with one key: [test_unit]'s posting, and a later copy with
    another title. *)
Definition first_copy : JobPosting :=
  mkJobPosting "Data Engineer" "https://example.com/job/123" "Washington, DC"
               "$80,000" None None "DOD" "DISA" "IT" "GS-12" 0.

Definition second_copy : JobPosting :=
  mkJobPosting "Senior Data Engineer" "https://example.com/job/123"
               "Washington, DC" "$80,000" None None "DOD" "DISA" "IT" "GS-12" 0.

(** A search API holding [total] listings, served 500 to the page; the
    outside state counts the requests received. *)
Definition listing (n : nat) : MatchedObjectDescriptor unit :=
  mkDescriptor (Some ("Job " ++ pretty n)%string)
               (Some ("https://example.com/job/" ++ pretty n)%string)
               None None None None None None None None.

Definition page_items (total : nat) (page : Z)
  : list (option (MatchedObjectDescriptor unit)) :=
  let start := (500 * Z.to_nat (page - 1))%nat in
  (fun i => Some (listing i)) <$> seq start (Nat.min 500 (total - start)).

Definition api_server (total : nat) : Params -> @Op nat (HttpResponse unit) :=
  fun params o =>
    let items := page_items total (Page params) in
    (inr (mkHttpResponse None
            (inr (Dict (Some (mkSearchResult (Some items)
                                (Some (Z.of_nat (length items)))
                                (Some (Z.of_nat total))))))),
     mkOutside (clock o) (S (remote o))).

(** A search API that turns every request away. *)
Definition throttling_server : Params -> @Op nat (HttpResponse unit) :=
  fun _ o =>
    (inl (Exception "429 Client Error: Rate Limit exceeded"),
     mkOutside (clock o) (S (remote o))).

(** A search API whose body decodes to a list. *)
Definition list_server : Params -> @Op nat (HttpResponse unit) :=
  fun _ o =>
    (inr (mkHttpResponse None (inr (NotDict "list"))),
     mkOutside (clock o) (S (remote o))).

(** A listing whose category look-up raises, and the look-up that does
    so: the client's, on a raw field that is present. *)
Definition broken_item : MatchedObjectDescriptor unit :=
  mkDescriptor (Some "Analyst") (Some "https://example.com/job/9")
               None None None None None None (Some tt) None.

Definition strict_entry (_ : string) (raw : option unit) : exn + string :=
  match raw with
  | Some _ => inl (Exception "'NoneType' object has no attribute 'get'")
  | None => inr ""
  end.

(** A database server that refuses every connection. *)
Definition connect_refused : @Op nat (@Connection nat) :=
  fun o => (inl (Exception "could not connect to server"), o).

(** A database server whose connections take every statement and then
    fail at the commit. *)
Definition uncommitted_connection : @Connection nat :=
  mkConnection (fun _ o => (inr tt, o))
    (fun o => (inl (Exception "server closed the connection unexpectedly"), o)).

Definition connect_uncommitted : @Op nat (@Connection nat) :=
  fun o => (inr uncommitted_connection, o).



(** A database server that hands out connections over which the schema
    and the queries go through and every upsert is refused by the driver,
    as one is whose rows hold a NUL character. *)
Definition strict_connection : @Connection nat :=
  mkConnection
    (fun st o =>
       match st with
       | UpsertSQL _ =>
         (inl (Exception
                 "A string literal cannot contain NUL (0x00) characters."), o)
       | _ => (inr tt, o)
       end)
    (fun o => (inr tt, o)).

Definition connect_strict : @Op nat (@Connection nat) :=
  fun o => (inr strict_connection, o).

(** * Properties *)

(** ** Sleeping *)

Section Sleep.
Context {Remote : Type}.
Implicit Types (w : @World Remote) (d : Q).

Lemma time_sleep_nonneg d w :
  (0 <= d)%Q -> time_sleep d w = (Return tt, after_sleep d w).
Proof.
  intros Hd. unfold time_sleep. apply Qle_bool_iff in Hd. rewrite Hd.
  reflexivity.
Qed.

Lemma time_sleep_negative d w :
  (d < 0)%Q ->
  time_sleep d w = (Raise (Exception "sleep length must be non-negative"), w).
Proof.
  intros Hd. unfold time_sleep. destruct (Qle_bool 0 d) eqn:E; [|reflexivity].
  apply Qle_bool_iff in E. exfalso. exact (Qlt_not_le _ _ Hd E).
Qed.

(** Sleeping either moves the world on, or raises and leaves it. *)
Lemma time_sleep_cases d w :
  time_sleep d w = (Return tt, after_sleep d w)
  \/ time_sleep d w = (Raise (Exception "sleep length must be non-negative"), w).
Proof.
  unfold time_sleep. destruct (Qle_bool 0 d); [left|right]; reflexivity.
Qed.

End Sleep.

(** ** The retry wrapper *)

Section RetryProperties.
Context {Remote : Type} {A : Type}.
Implicit Types (w : @World Remote) (op : @Op Remote A) (d b : Q).




(** A negative delay: the first failure that is not the last ends the
    wrapper, with the [ValueError] of [time.sleep]. *)
Lemma retry_loop_negative_delay fuel N b op attempts d w e o' :
  attempts + 1 < N ->
  (d < 0)%Q ->
  op (outside w) = (inl e, o') ->
  retry_loop (S fuel) N b (invoke op) attempts d w
  = (Raise (Exception "sleep length must be non-negative"),
     set_log (log w ++ [EvCall (Some e)]) (set_outside o' w)).
Proof.
  intros Hlt Hd Hop. simpl.
  destruct (Z.ltb_spec attempts N); [|lia].
  unfold try_except at 1. unfold bind at 1. unfold invoke at 1. rewrite Hop.
  destruct (Z.geb_spec (attempts + 1) N); [lia|].
  unfold bind at 1. rewrite (time_sleep_negative _ _ Hd). reflexivity.
Qed.


End RetryProperties.



(** ** The circuit breaker *)

Section BreakerProperties.
Context {Remote : Type}.
Implicit Types (w : @World Remote) (cb : CircuitBreaker).

Lemma Qgt_bool_true (a b : Q) : (b < a)%Q -> Qgt_bool a b = true.
Proof.
  intros H. unfold Qgt_bool. destruct (Qle_bool a b) eqn:E; [|reflexivity].
  apply Qle_bool_iff in E. exfalso. exact (Qlt_not_le _ _ H E).
Qed.

Lemma Qgt_bool_false (a b : Q) : (a <= b)%Q -> Qgt_bool a b = false.
Proof.
  intros H. unfold Qgt_bool. apply Qle_bool_iff in H. rewrite H. reflexivity.
Qed.

(** A failing call, whatever the state it is let through in: the counter
    is incremented, the time of the failure recorded, and the breaker
    opens once the counter has reached the threshold. *)
Lemma call_failure {A} (op : @Op Remote A) w e o' :
  state (circuit_breaker w) <> OPEN ->
  op (outside w) = (inl e, o') ->
  CircuitBreaker_call (invoke op) w
  = (Raise e,
     set_circuit_breaker
       (let cb := circuit_breaker w in
        mkCircuitBreaker (failure_threshold cb) (recovery_timeout cb)
          (failure_count cb + 1) (Some (clock o'))
          (if failure_count cb + 1 >=? failure_threshold cb then OPEN
           else state cb))
       (set_log (log w ++ [EvCall (Some e)]) (set_outside o' w))).
Proof.
  intros Hst Hop. destruct w as [o l [th rt fc lf st] rc m t n]. simpl in *.
  unfold CircuitBreaker_call, bind, get, try_except, invoke. simpl.
  destruct st; try congruence; simpl; rewrite Hop; simpl;
    unfold set_circuit_breaker, set_log, set_outside; simpl;
    destruct (fc + 1 >=? th); reflexivity.
Qed.

(** A successful call in the Closed state changes nothing of the breaker. *)
Lemma call_closed_success {A} (op : @Op Remote A) w v o' :
  state (circuit_breaker w) = CLOSED ->
  op (outside w) = (inr v, o') ->
  CircuitBreaker_call (invoke op) w
  = (Return v, set_log (log w ++ [EvCall None]) (set_outside o' w)).
Proof.
  intros Hst Hop. destruct w as [o l [th rt fc lf st] rc m t n]. simpl in *.
  subst st. unfold CircuitBreaker_call, bind, get, try_except, invoke. simpl.
  rewrite Hop. reflexivity.
Qed.

(** A successful call in the Half-Open state closes the breaker and zeroes
    the counter. *)
Lemma call_half_open_success {A} (op : @Op Remote A) w v o' :
  state (circuit_breaker w) = HALF_OPEN ->
  op (outside w) = (inr v, o') ->
  CircuitBreaker_call (invoke op) w
  = (Return v,
     set_circuit_breaker
       (set_failure_count 0 (set_state CLOSED (circuit_breaker w)))
       (set_log (log w ++ [EvCall None]) (set_outside o' w))).
Proof.
  intros Hst Hop. destruct w as [o l [th rt fc lf st] rc m t n]. simpl in *.
  subst st. unfold CircuitBreaker_call, bind, get, try_except, invoke. simpl.
  rewrite Hop. reflexivity.
Qed.

(** While Open and within the recovery timeout, the call is rejected and
    the world is left as it was: the operation is not invoked. *)
Lemma call_open_rejected {A} (func : Exec A) w last :
  state (circuit_breaker w) = OPEN ->
  last_failure_time (circuit_breaker w) = Some last ->
  (clock (outside w) - last <= recovery_timeout (circuit_breaker w))%Q ->
  CircuitBreaker_call func w = (Raise (Exception "Circuit breaker is OPEN"), w).
Proof.
  intros Hst Hlast Hle.
  unfold CircuitBreaker_call, bind, get, time_time, raise. simpl.
  rewrite Hst, Hlast. simpl. rewrite (Qgt_bool_false _ _ Hle). reflexivity.
Qed.

(** While Open and past the recovery timeout, the call proceeds exactly as
    a call made in the Half-Open state. *)
Lemma call_open_expired {A} (func : Exec A) w last :
  state (circuit_breaker w) = OPEN ->
  last_failure_time (circuit_breaker w) = Some last ->
  (recovery_timeout (circuit_breaker w) < clock (outside w) - last)%Q ->
  CircuitBreaker_call func w
  = CircuitBreaker_call func
      (set_circuit_breaker (set_state HALF_OPEN (circuit_breaker w)) w).
Proof.
  intros Hst Hlast Hlt.
  unfold CircuitBreaker_call, bind, get, time_time, update_breaker, modify.
  simpl. rewrite Hst, Hlast. simpl. rewrite (Qgt_bool_true _ _ Hlt).
  reflexivity.
Qed.

End BreakerProperties.

(** C1.  A breaker with [failure_threshold = 2], Closed and with a zero
    counter: the first failing call leaves it Closed, the second opens it.
    From then on, whatever time the outside world shows: a call made while
    the time since the recorded failure does not exceed [recovery_timeout]
    raises the circuit-open exception and leaves the world untouched (the
    operation is not invoked: nothing is logged); a call made once that
    time exceeds [recovery_timeout] runs as a call in the Half-Open state
    and, if the operation succeeds, leaves the breaker Closed with a zero
    counter. *)
Theorem breaker_threshold_two {Remote A : Type} (op : @Op Remote A)
    (w0 : @World Remote) e1 e2 o1 o2 :
  failure_threshold (circuit_breaker w0) = 2 ->
  state (circuit_breaker w0) = CLOSED ->
  failure_count (circuit_breaker w0) = 0 ->
  op (outside w0) = (inl e1, o1) ->
  op o1 = (inl e2, o2) ->
  exists w1 w2,
    CircuitBreaker_call (invoke op) w0 = (Raise e1, w1)
    /\ state (circuit_breaker w1) = CLOSED
    /\ CircuitBreaker_call (invoke op) w1 = (Raise e2, w2)
    /\ state (circuit_breaker w2) = OPEN
    /\ last_failure_time (circuit_breaker w2) = Some (clock o2)
    /\ (forall o B (func : Exec B),
          (clock o - clock o2 <= recovery_timeout (circuit_breaker w0))%Q ->
          CircuitBreaker_call func (set_outside o w2)
          = (Raise (Exception "Circuit breaker is OPEN"), set_outside o w2))
    /\ (forall o,
          (recovery_timeout (circuit_breaker w0) < clock o - clock o2)%Q ->
          (forall B (func : Exec B),
             CircuitBreaker_call func (set_outside o w2)
             = CircuitBreaker_call func
                 (set_circuit_breaker
                    (set_state HALF_OPEN (circuit_breaker w2))
                    (set_outside o w2)))
          /\ (forall v o',
                op o = (inr v, o') ->
                exists w3,
                  CircuitBreaker_call (invoke op) (set_outside o w2)
                  = (Return v, w3)
                  /\ state (circuit_breaker w3) = CLOSED
                  /\ failure_count (circuit_breaker w3) = 0
                  /\ log w3 = log w2 ++ [EvCall None])).
Proof.
  intros Hth Hst Hfc Hop1 Hop2.
  destruct w0 as [o0 l0 [th rt fc lf st] rc m t n]. simpl in *. subst th st fc.
  exists (mkWorld o1 (l0 ++ [EvCall (Some e1)])
            (mkCircuitBreaker 2 rt 1 (Some (clock o1)) CLOSED) rc m t n).
  exists (mkWorld o2 ((l0 ++ [EvCall (Some e1)]) ++ [EvCall (Some e2)])
            (mkCircuitBreaker 2 rt 2 (Some (clock o2)) OPEN) rc m t n).
  split. { rewrite (call_failure op _ e1 o1); [reflexivity|simpl; congruence|exact Hop1]. }
  split; [reflexivity|].
  split. { rewrite (call_failure op _ e2 o2); [reflexivity|simpl; congruence|exact Hop2]. }
  split; [reflexivity|]. split; [reflexivity|]. split.
  - intros o B func Hle.
    apply (call_open_rejected func _ (clock o2)); [reflexivity|reflexivity|exact Hle].
  - intros o Hlt. split.
    + intros B func.
      rewrite (call_open_expired func _ (clock o2));
        [reflexivity|reflexivity|reflexivity|exact Hlt].
    + intros v o' Hop3.
      rewrite (call_open_expired _ _ (clock o2));
        [|reflexivity|reflexivity|exact Hlt].
      rewrite (call_half_open_success op _ v o'); [|reflexivity|exact Hop3].
      eexists. split; [reflexivity|]. split; [reflexivity|].
      split; reflexivity.
Qed.

Lemma breaker_threshold_two_witness :
  exists w1 w2,
    CircuitBreaker_call (invoke flaky_func)
      (fresh_world (CircuitBreaker_init 2 60) 0 0%nat)
    = (Raise (Exception "Temporary failure"), w1)
    /\ state (circuit_breaker w1) = CLOSED
    /\ CircuitBreaker_call (invoke flaky_func) w1
       = (Raise (Exception "Temporary failure"), w2)
    /\ state (circuit_breaker w2) = OPEN.
Proof.
  destruct (breaker_threshold_two flaky_func
              (fresh_world (CircuitBreaker_init 2 60) 0 0%nat)
              (Exception "Temporary failure") (Exception "Temporary failure")
              (mkOutside 0 1%nat) (mkOutside 0 2%nat)
              eq_refl eq_refl eq_refl eq_refl eq_refl)
    as (w1 & w2 & H1 & H2 & H3 & H4 & _).
  exists w1, w2. repeat split; assumption.
Defined.

(** C9.  In the Closed state a successful call leaves every field of the
    breaker as it was.  So a success between two failures does not reset
    the counter: with threshold 2, a failure, a success and another
    failure open the breaker. *)
Theorem closed_success_keeps_breaker {Remote A : Type} (op : @Op Remote A) :
  (forall (w : @World Remote) v o',
      state (circuit_breaker w) = CLOSED ->
      op (outside w) = (inr v, o') ->
      exists w',
        CircuitBreaker_call (invoke op) w = (Return v, w')
        /\ circuit_breaker w' = circuit_breaker w)
  /\ (forall (w0 : @World Remote) e1 v e2 o1 o2 o3,
        failure_threshold (circuit_breaker w0) = 2 ->
        state (circuit_breaker w0) = CLOSED ->
        failure_count (circuit_breaker w0) = 0 ->
        op (outside w0) = (inl e1, o1) ->
        op o1 = (inr v, o2) ->
        op o2 = (inl e2, o3) ->
        exists w1 w2 w3,
          CircuitBreaker_call (invoke op) w0 = (Raise e1, w1)
          /\ CircuitBreaker_call (invoke op) w1 = (Return v, w2)
          /\ state (circuit_breaker w2) = CLOSED
          /\ failure_count (circuit_breaker w2) = 1
          /\ CircuitBreaker_call (invoke op) w2 = (Raise e2, w3)
          /\ state (circuit_breaker w3) = OPEN
          /\ failure_count (circuit_breaker w3) = 2).
Proof.
  split.
  - intros w v o' Hst Hop. eexists. split.
    + apply call_closed_success; [exact Hst|exact Hop].
    + reflexivity.
  - intros w0 e1 v e2 o1 o2 o3 Hth Hst Hfc Hop1 Hop2 Hop3.
    destruct w0 as [o0 l0 [th rt fc lf st] rc m t n]. simpl in *.
    subst th st fc.
    exists (mkWorld o1 (l0 ++ [EvCall (Some e1)])
              (mkCircuitBreaker 2 rt 1 (Some (clock o1)) CLOSED) rc m t n).
    exists (mkWorld o2 ((l0 ++ [EvCall (Some e1)]) ++ [EvCall None])
              (mkCircuitBreaker 2 rt 1 (Some (clock o1)) CLOSED) rc m t n).
    exists (mkWorld o3 (((l0 ++ [EvCall (Some e1)]) ++ [EvCall None])
                          ++ [EvCall (Some e2)])
              (mkCircuitBreaker 2 rt 2 (Some (clock o3)) OPEN) rc m t n).
    split. { rewrite (call_failure op _ e1 o1); [reflexivity|simpl; congruence|exact Hop1]. }
    split. { rewrite (call_closed_success op _ v o2); [reflexivity|reflexivity|exact Hop2]. }
    split; [reflexivity|]. split; [reflexivity|].
    split. { rewrite (call_failure op _ e2 o3); [reflexivity|simpl; congruence|exact Hop3]. }
    split; reflexivity.
Qed.

Lemma closed_success_keeps_breaker_witness :
  exists w1 w2 w3,
    CircuitBreaker_call (invoke intermittent_func)
      (fresh_world (CircuitBreaker_init 2 60) 0 0%nat)
    = (Raise (Exception "API Error"), w1)
    /\ CircuitBreaker_call (invoke intermittent_func) w1 = (Return "success", w2)
    /\ circuit_breaker w2 = circuit_breaker w1
    /\ CircuitBreaker_call (invoke intermittent_func) w2
       = (Raise (Exception "API Error"), w3)
    /\ state (circuit_breaker w3) = OPEN.
Proof.
  destruct (proj2 (closed_success_keeps_breaker intermittent_func)
              (fresh_world (CircuitBreaker_init 2 60) 0 0%nat)
              (Exception "API Error") "success" (Exception "API Error")
              (mkOutside 0 1%nat) (mkOutside 0 2%nat) (mkOutside 0 3%nat)
              eq_refl eq_refl eq_refl eq_refl eq_refl eq_refl)
    as (w1 & w2 & w3 & H1 & H2 & H3 & H4 & H5 & H6 & _).
  destruct (proj1 (closed_success_keeps_breaker intermittent_func)
              w1 "success" (mkOutside 0 2%nat)) as (w2' & H2' & Hframe).
  - pose proof H1 as H1'. vm_compute in H1'. injection H1' as <-. reflexivity.
  - pose proof H1 as H1'. vm_compute in H1'. injection H1' as <-. reflexivity.
  - exists w1, w2, w3. rewrite H2 in H2'. injection H2' as <-.
    repeat split; assumption.
Defined.

(** ** Record validation *)

Lemma lstrip_empty_iff s : lstrip s = "" <-> blank s = true.
Proof.
  induction s as [|c s IH]; simpl; [tauto|].
  destruct (isspace c); simpl; [exact IH|]. split; discriminate.
Qed.

Lemma blank_lstrip s : blank (lstrip s) = blank s.
Proof.
  induction s as [|c s IH]; simpl; [reflexivity|].
  destruct (isspace c) eqn:E; simpl; [exact IH|]. rewrite E. reflexivity.
Qed.

Lemma blank_rev_app s t : blank (String.rev_app s t) = blank s && blank t.
Proof.
  revert t. induction s as [|c s IH]; intros t; simpl; [reflexivity|].
  rewrite IH. simpl. destruct (isspace c), (blank s); reflexivity.
Qed.

Lemma rev_app_empty s t : String.rev_app s t = "" -> s = "" /\ t = "".
Proof.
  revert t. induction s as [|c s IH]; intros t; simpl; [tauto|].
  intros H. apply IH in H. destruct H. discriminate.
Qed.

Lemma rev_empty_iff s : String.rev s = "" <-> s = "".
Proof.
  split; [intros H; apply rev_app_empty in H; tauto|intros ->; reflexivity].
Qed.

(** [s.strip()] is empty exactly when [s] is blank. *)
Lemma strip_empty_iff s : strip s = "" <-> blank s = true.
Proof.
  unfold strip, rstrip. rewrite rev_empty_iff, lstrip_empty_iff.
  unfold String.rev. rewrite blank_rev_app, blank_lstrip.
  simpl. rewrite andb_true_r. tauto.
Qed.

Lemma truthy_iff s : truthy s = true <-> s <> "".
Proof. destruct s; simpl; split; congruence. Qed.

Lemma truthy_strip s : truthy (strip s) = negb (blank s).
Proof.
  destruct (blank s) eqn:E; simpl.
  - apply strip_empty_iff in E. rewrite E. reflexivity.
  - apply truthy_iff. rewrite strip_empty_iff. congruence.
Qed.

Lemma truthy_of_strip s : truthy (strip s) = true -> truthy s = true.
Proof. destruct s; [discriminate|reflexivity]. Qed.

Lemma startswith_http_not_blank s : startswith s "http" = true -> blank s = false.
Proof.
  unfold startswith. destruct s as [|c s]; [discriminate|].
  cbn [String.prefix]. destruct (ascii_dec "h"%char c) as [<-|]; [|discriminate].
  intros _. reflexivity.
Qed.

Lemma validate_spec job :
  validate job = true
  <-> blank (position_title job) = false
      /\ blank (position_uri job) = false
      /\ startswith (position_uri job) "http" = true.
Proof.
  unfold validate. rewrite !truthy_strip.
  destruct (truthy (position_title job)) eqn:Et;
    destruct (blank (position_title job)) eqn:Bt; simpl;
    try (split; [discriminate|intros (? & _); discriminate]).
  - destruct (truthy (position_uri job)) eqn:Eu;
      destruct (blank (position_uri job)) eqn:Bu; simpl;
      try (split; [discriminate|intros (_ & ? & _); discriminate]).
    + destruct (startswith (position_uri job) "http"); simpl;
        [tauto|split; [discriminate|intros (_ & _ & ?); discriminate]].
    + destruct (position_uri job); discriminate.
  - destruct (position_title job); discriminate.
Qed.

Section ExtractProperties.
Context {Remote Raw : Type}.
Context (_parse_location _parse_remuneration : option Raw -> string).
Context (_parse_date : option Raw -> option string).
Context (first_entry : string -> option Raw -> exn + string).

Local Abbreviation make :=
  (make_job _parse_location _parse_remuneration _parse_date first_entry).
Local Abbreviation items_loop :=
  (@extract_items Remote Raw _parse_location _parse_remuneration _parse_date
                  first_entry).
Local Abbreviation extract :=
  (@extract_job_data Remote Raw _parse_location _parse_remuneration _parse_date
                     first_entry).

(** The item loop keeps, in order, the postings that validate. *)
Lemma extract_items_spec items acc (w : @World Remote) :
  items_loop items acc w
  = (Return (acc ++ filter (fun job => validate job = true)
                      (omap (make (clock (outside w))) items)), w).
Proof.
  revert acc. induction items as [|item items IH]; intros acc.
  - simpl. rewrite app_nil_r. reflexivity.
  - cbn [extract_items]. unfold bind at 1, time_time, get.
    cbn [omap list_omap].
    destruct (make (clock (outside w)) item) as [job|] eqn:Ejob.
    + destruct (validate job) eqn:Ev.
      * rewrite IH. rewrite filter_cons_True by exact Ev.
        rewrite <- app_assoc. reflexivity.
      * rewrite IH. rewrite filter_cons_False by congruence. reflexivity.
    + apply IH.
Qed.

Lemma extract_job_data_spec sr (w : @World Remote) :
  extract (Dict (Some sr)) w
  = (Return (filter (fun job => validate job = true)
               (omap (make (clock (outside w))) (get_items sr))), w).
Proof.
  unfold extract_job_data, try_except, bind, get_SearchResult, ret.
  rewrite extract_items_spec. reflexivity.
Qed.

End ExtractProperties.

(** C10.  Validation passes exactly when the title is non-blank, the key
    is non-blank and the key starts with [http]; so a posting with a
    non-blank title whose key merely starts with [http] validates, and
    [extract_job_data] keeps it. *)
Theorem validate_accepts_http_prefix :
  (forall job,
      validate job = true
      <-> strip (position_title job) <> ""
          /\ strip (position_uri job) <> ""
          /\ startswith (position_uri job) "http" = true)
  /\ (forall job,
        strip (position_title job) <> "" ->
        startswith (position_uri job) "http" = true ->
        validate job = true)
  /\ (forall (Remote Raw : Type) _parse_location _parse_remuneration _parse_date
             first_entry (w : @World Remote) (sr : SearchResultT Raw) item job,
        item ∈ get_items sr ->
        make_job _parse_location _parse_remuneration _parse_date first_entry
                 (clock (outside w)) item = Some job ->
        strip (position_title job) <> "" ->
        startswith (position_uri job) "http" = true ->
        exists jobs,
          extract_job_data _parse_location _parse_remuneration _parse_date
                           first_entry (Dict (Some sr)) w
          = (Return jobs, w)
          /\ job ∈ jobs).
Proof.
  assert (Hiff : forall job,
      validate job = true
      <-> strip (position_title job) <> ""
          /\ strip (position_uri job) <> ""
          /\ startswith (position_uri job) "http" = true).
  { intros job. rewrite validate_spec, !strip_empty_iff.
    destruct (blank (position_title job)), (blank (position_uri job));
      split; intros (? & ? & ?); repeat split; congruence. }
  assert (Hhttp : forall job,
        strip (position_title job) <> "" ->
        startswith (position_uri job) "http" = true ->
        validate job = true).
  { intros job Ht Hp. apply Hiff. repeat split; try assumption.
    rewrite strip_empty_iff, (startswith_http_not_blank _ Hp). discriminate. }
  split; [exact Hiff|]. split; [exact Hhttp|].
  intros Remote Raw pl pr pd fe w sr item job Hin Hjob Ht Hp.
  eexists. split; [apply extract_job_data_spec|].
  apply list_elem_of_filter. split; [apply Hhttp; assumption|].
  apply list_elem_of_omap. exists item. split; assumption.
Qed.

Lemma validate_accepts_http_prefix_witness :
  exists job jobs,
    position_uri job = "httpgarbage"
    /\ validate job = true
    /\ extract_job_data fixture_location fixture_remuneration fixture_date
         fixture_entry
         (Dict (Some (mkSearchResult (Some [Some garbage_item]) (Some 1) (Some 1))))
         (fresh_world (CircuitBreaker_init 5 60) 0 0%nat)
       = (Return jobs, fresh_world (CircuitBreaker_init 5 60) 0 0%nat)
    /\ job ∈ jobs.
Proof.
  pose (job := mkJobPosting "Data Engineer" "httpgarbage"
                 "Location not specified" "Not specified" None None "" "" "" ""
                 0%Q).
  destruct (proj2 (proj2 validate_accepts_http_prefix) nat unit
              fixture_location fixture_remuneration fixture_date fixture_entry
              (fresh_world (CircuitBreaker_init 5 60) 0 0%nat)
              (mkSearchResult (Some [Some garbage_item]) (Some 1) (Some 1))
              (Some garbage_item) job)
    as (jobs & Hrun & Hin).
  - apply list_elem_of_here.
  - reflexivity.
  - discriminate.
  - reflexivity.
  - exists job, jobs. split; [reflexivity|]. split.
    + apply (proj1 (proj2 validate_accepts_http_prefix)); [discriminate|reflexivity].
    + split; assumption.
Defined.

(** ** Deduplication *)

Section DedupProperties.
Implicit Types (jobs : list JobPosting) (seen : gset string) (job : JobPosting).

Lemma dedup_loop_acc jobs : forall seen acc,
  dedup_loop jobs seen acc = acc ++ dedup_loop jobs seen [].
Proof.
  induction jobs as [|job jobs IH]; intros seen acc; simpl.
  - rewrite app_nil_r. reflexivity.
  - destruct (decide (position_uri job ∉ seen)); [|apply IH].
    rewrite (IH _ (acc ++ [job])), (IH _ [job]), <- app_assoc. reflexivity.
Qed.

Lemma dedup_loop_cons job jobs seen :
  dedup_loop (job :: jobs) seen []
  = if decide (position_uri job ∈ seen) then dedup_loop jobs seen []
    else job :: dedup_loop jobs ({[position_uri job]} ∪ seen) [].
Proof.
  simpl. destruct (decide (position_uri job ∉ seen)) as [Hn|Hn];
    destruct (decide (position_uri job ∈ seen)) as [Hy|Hy]; try tauto.
  rewrite dedup_loop_acc. reflexivity.
Qed.

Lemma dedup_loop_app l1 : forall l2 seen acc,
  dedup_loop (l1 ++ l2) seen acc
  = dedup_loop l2 (seen ∪ key_set l1) (dedup_loop l1 seen acc).
Proof.
  unfold key_set, keys.
  induction l1 as [|job l1 IH]; intros l2 seen acc; simpl.
  - f_equal. set_solver.
  - destruct (decide (position_uri job ∉ seen)) as [Hn|Hn]; rewrite IH; f_equal.
    + set_solver.
    + apply dec_stable in Hn. set_solver.
Qed.

Lemma dedup_loop_elem jobs : forall seen job,
  job ∈ dedup_loop jobs seen [] -> (position_uri job ∉ seen) /\ (job ∈ jobs).
Proof.
  induction jobs as [|j jobs IH]; intros seen job; rewrite ?dedup_loop_cons.
  - simpl. intros H. apply elem_of_nil in H. contradiction.
  - destruct (decide (position_uri j ∈ seen)) as [Hy|Hn].
    + intros H. apply IH in H. set_solver.
    + intros H. apply elem_of_cons in H. destruct H as [->|H].
      * set_solver.
      * apply IH in H. set_solver.
Qed.

Lemma dedup_loop_NoDup jobs : forall seen, NoDup (keys (dedup_loop jobs seen [])).
Proof.
  unfold keys.
  induction jobs as [|j jobs IH]; intros seen; rewrite ?dedup_loop_cons.
  - constructor.
  - destruct (decide (position_uri j ∈ seen)); [apply IH|].
    rewrite fmap_cons. apply NoDup_cons. split; [|apply IH].
    intros Hin. apply list_elem_of_fmap in Hin. destruct Hin as (x & Hk & Hx).
    apply dedup_loop_elem in Hx. set_solver.
Qed.

Lemma dedup_loop_keys jobs : forall seen k,
  k ∈ keys jobs -> k ∉ seen -> k ∈ keys (dedup_loop jobs seen []).
Proof.
  unfold keys.
  induction jobs as [|j jobs IH]; intros seen k; rewrite ?dedup_loop_cons.
  - simpl. intros H. apply elem_of_nil in H. contradiction.
  - rewrite fmap_cons. intros Hk Hseen. apply elem_of_cons in Hk.
    destruct (decide (position_uri j ∈ seen)) as [Hy|Hn].
    + destruct Hk as [->|Hk]; [contradiction|]. apply IH; assumption.
    + rewrite fmap_cons. destruct (decide (k = position_uri j)) as [->|Hne].
      * set_solver.
      * destruct Hk as [Hk|Hk]; [contradiction|].
        apply elem_of_cons. right. apply IH; [assumption|set_solver].
Qed.

Lemma dedup_loop_sublist jobs : forall seen, sublist (dedup_loop jobs seen []) jobs.
Proof.
  induction jobs as [|j jobs IH]; intros seen; rewrite ?dedup_loop_cons.
  - constructor.
  - destruct (decide (position_uri j ∈ seen)).
    + apply sublist_cons. apply IH.
    + apply sublist_skip. apply IH.
Qed.

Lemma first_with_key_cons_ne k j jobs :
  position_uri j <> k -> first_with_key k (j :: jobs) = first_with_key k jobs.
Proof.
  intros Hne. unfold first_with_key. simpl.
  destruct (String.eqb_spec (position_uri j) k); [contradiction|reflexivity].
Qed.

Lemma first_with_key_cons_eq j jobs :
  first_with_key (position_uri j) (j :: jobs) = Some j.
Proof. unfold first_with_key. simpl. rewrite String.eqb_refl. reflexivity. Qed.

Lemma dedup_loop_first jobs : forall seen job,
  job ∈ dedup_loop jobs seen [] ->
  first_with_key (position_uri job) jobs = Some job.
Proof.
  induction jobs as [|j jobs IH]; intros seen job; rewrite ?dedup_loop_cons.
  - simpl. intros H. apply elem_of_nil in H. contradiction.
  - destruct (decide (position_uri j ∈ seen)) as [Hy|Hn].
    + intros H. pose proof (dedup_loop_elem _ _ _ H) as [Hk _].
      rewrite first_with_key_cons_ne; [eapply IH; exact H|].
      intros Heq. rewrite Heq in Hy. contradiction.
    + intros H. apply elem_of_cons in H. destruct H as [->|H].
      * apply first_with_key_cons_eq.
      * pose proof (dedup_loop_elem _ _ _ H) as [Hk _].
        rewrite first_with_key_cons_ne; [eapply IH; exact H|].
        intros Heq. apply Hk. set_solver.
Qed.

Lemma deduplicate_NoDup jobs : NoDup (keys (deduplicate jobs)).
Proof. apply dedup_loop_NoDup. Qed.

Lemma dedup_keys_iff jobs k : k ∈ keys (deduplicate jobs) <-> k ∈ keys jobs.
Proof.
  unfold deduplicate. split.
  - unfold keys. intros H. apply list_elem_of_fmap in H.
    destruct H as (x & -> & Hx). apply dedup_loop_elem in Hx.
    apply list_elem_of_fmap. exists x. tauto.
  - intros H. apply dedup_loop_keys; [exact H|set_solver].
Qed.

(** The batch has as many unique keys as deduplication keeps records. *)
Lemma dedup_length jobs : length (deduplicate jobs) = size (key_set jobs).
Proof.
  assert (Hset : key_set jobs = key_set (deduplicate jobs)).
  { unfold key_set. apply set_eq. intros k.
    rewrite !elem_of_list_to_set. symmetry. apply dedup_keys_iff. }
  rewrite Hset. unfold key_set.
  rewrite size_list_to_set by apply deduplicate_NoDup.
  unfold keys. rewrite length_fmap. reflexivity.
Qed.

End DedupProperties.

(** C3.  For every batch, deduplication keeps one record for each key of
    the batch and for no other key; the record kept is the first of the
    batch with that key; the kept records stand in their input order; and,
    scanning the batch, a record whose key has been seen is dropped while a
    record with a new key is appended. *)
Theorem dedup_first_seen_wins (jobs : list JobPosting) :
  NoDup (keys (deduplicate jobs))
  /\ (forall k, k ∈ keys (deduplicate jobs) <-> k ∈ keys jobs)
  /\ (forall job, job ∈ deduplicate jobs ->
                  first_with_key (position_uri job) jobs = Some job)
  /\ sublist (deduplicate jobs) jobs
  /\ (forall job,
        deduplicate (jobs ++ [job])
        = if decide (position_uri job ∈ keys jobs) then deduplicate jobs
          else deduplicate jobs ++ [job]).
Proof.
  split; [apply deduplicate_NoDup|]. split; [|unfold deduplicate; split; [|split]].
  - intros k. apply dedup_keys_iff.
  - intros job. apply dedup_loop_first.
  - apply dedup_loop_sublist.
  - intros job. rewrite dedup_loop_app. simpl.
    destruct (decide (position_uri job ∉ ∅ ∪ key_set jobs)) as [Hn|Hn];
      destruct (decide (position_uri job ∈ keys jobs)) as [Hy|Hy];
      try reflexivity.
    + exfalso. apply Hn. unfold key_set. set_solver.
    + exfalso. apply Hn. unfold key_set. set_solver.
Qed.

Lemma dedup_first_seen_wins_witness :
  first_with_key (position_uri first_copy) [first_copy; second_copy]
  = Some first_copy.
Proof.
  apply (proj1 (proj2 (proj2 (dedup_first_seen_wins [first_copy; second_copy])))).
  vm_compute. constructor.
Defined.

(** ** The upsert *)

Section UpsertStatement.
Implicit Types (table : gmap string Row) (touched : gset string).

(** The statement over rows with pairwise distinct keys, none of them
    written before by this statement: it succeeds; a row is reported as
    inserted exactly when its key was absent; the rows of other keys are
    left alone; the row of each key is the insert of, or the update by, its
    record. *)
Lemma upsert_statement_spec now job_data : forall table serial touched,
  NoDup (keys job_data) ->
  (forall k, k ∈ keys job_data -> k ∉ touched) ->
  exists table',
    upsert_statement now job_data table serial touched
    = inr (map (fun job => bool_decide (table !! position_uri job = None)) job_data,
           table', serial + Z.of_nat (length job_data))
    /\ (forall k, k ∉ keys job_data -> table' !! k = table !! k)
    /\ (forall i job, job_data !! i = Some job ->
          table' !! position_uri job
          = Some match table !! position_uri job with
                 | Some old => do_update now job old
                 | None => do_insert now (serial + Z.of_nat i) job
                 end).
Proof.
  unfold keys.
  induction job_data as [|j rest IH]; intros table serial touched Hnd Hfresh.
  - exists table. simpl. rewrite Z.add_0_r. split; [reflexivity|].
    split; [reflexivity|]. intros i job H. discriminate.
  - rewrite fmap_cons in Hnd. apply NoDup_cons in Hnd. destruct Hnd as [Hj Hnd].
    cbn [upsert_statement].
    destruct (decide (position_uri j ∈ touched)) as [Hin|_].
    { exfalso. apply (Hfresh (position_uri j)); [set_solver|exact Hin]. }
    set (row := match table !! position_uri j with
                | Some old => do_update now j old
                | None => do_insert now serial j
                end).
    assert (Hpair :
      match table !! position_uri j with
      | Some old => (false, <[position_uri j := do_update now j old]> table)
      | None => (true, <[position_uri j := do_insert now serial j]> table)
      end
      = (bool_decide (table !! position_uri j = None),
         <[position_uri j := row]> table)).
    { subst row. destruct (table !! position_uri j); reflexivity. }
    rewrite Hpair. clear Hpair.
    destruct (IH (<[position_uri j := row]> table) (serial + 1)
                 ({[position_uri j]} ∪ touched) Hnd)
      as (table' & Hrun & Hother & Hrows).
    { intros k Hk. specialize (Hfresh k). set_solver. }
    rewrite Hrun. exists table'. split; [|split].
    + f_equal. f_equal; [|cbn [length]; lia]. f_equal. cbn [map]. f_equal.
      apply map_ext_in. intros job Hjob.
      rewrite lookup_insert_ne; [reflexivity|].
      intros Heq. apply Hj. rewrite Heq. apply list_elem_of_fmap.
      exists job. split; [reflexivity|]. apply list_elem_of_In. exact Hjob.
    + intros k Hk. rewrite fmap_cons in Hk.
      rewrite Hother by set_solver. apply lookup_insert_ne. set_solver.
    + intros i job Hi. destruct i as [|i]; simpl in Hi.
      * injection Hi as <-. rewrite Hother by exact Hj.
        rewrite lookup_insert_eq. subst row. rewrite Z.add_0_r. reflexivity.
      * rewrite (Hrows i job Hi).
        assert (Hne : position_uri j <> position_uri job).
        { intros Heq. apply Hj. rewrite Heq. apply list_elem_of_fmap.
          exists job. split; [reflexivity|]. eapply list_elem_of_lookup_2. exact Hi. }
        rewrite lookup_insert_ne by exact Hne.
        destruct (table !! position_uri job); [reflexivity|].
        do 2 f_equal. lia.
Qed.

Lemma count_inserted_all (f : JobPosting -> bool) (b : bool) l :
  (forall job, job ∈ l -> f job = b) ->
  count_inserted (map f l) = if b then Z.of_nat (length l) else 0.
Proof.
  unfold count_inserted. induction l as [|x l IH]; intros H.
  - destruct b; reflexivity.
  - cbn [map]. pose proof (H x ltac:(set_solver)) as Hx.
    assert (IH' := IH ltac:(intros; apply H; set_solver)).
    destruct b.
    + rewrite filter_cons_True by exact Hx. cbn [length]. lia.
    + rewrite filter_cons_False by congruence. exact IH'.
Qed.

End UpsertStatement.

Section MonadSteps.
Context {Remote : Type}.
Implicit Types (w : @World Remote).

Lemma bind_of_return {A B} (m : @Exec Remote A) (k : A -> @Exec Remote B)
    w a w1 :
  m w = (Return a, w1) -> bind m k w = k a w1.
Proof. intros H. unfold bind. rewrite H. reflexivity. Qed.

Lemma bind_of_raise {A B} (m : @Exec Remote A) (k : A -> @Exec Remote B)
    w e w1 :
  m w = (Raise e, w1) -> bind m k w = (Raise e, w1).
Proof. intros H. unfold bind. rewrite H. reflexivity. Qed.

Lemma try_except_of_return {A} (body : @Exec Remote A) handler w a w1 :
  body w = (Return a, w1) -> try_except body handler w = (Return a, w1).
Proof. intros H. unfold try_except. rewrite H. reflexivity. Qed.

Lemma try_except_of_raise {A} (body : @Exec Remote A) handler w e w1 :
  body w = (Raise e, w1) -> try_except body handler w = handler e w1.
Proof. intros H. unfold try_except. rewrite H. reflexivity. Qed.

Lemma invoke_returns {A} (op : @Op Remote A) w a o :
  op (outside w) = (inr a, o) -> invoke op w = (Return a, called None o w).
Proof. intros H. unfold invoke. rewrite H. reflexivity. Qed.

Lemma invoke_raises {A} (op : @Op Remote A) w e o :
  op (outside w) = (inl e, o) -> invoke op w = (Raise e, called (Some e) o w).
Proof. intros H. unfold invoke. rewrite H. reflexivity. Qed.

Lemma calls_of_snoc l r : calls_of (l ++ [EvCall r]) = calls_of l + 1.
Proof. unfold calls_of, calls_in. rewrite omap_app, length_app. cbn. lia. Qed.

Lemma calls_of_called r o w :
  calls_of (log (called r o w)) = calls_of (log w) + 1.
Proof. apply calls_of_snoc. Qed.

End MonadSteps.

Section UpsertProperties.
Context {Remote : Type} (psycopg2_connect : @Op Remote (@Connection Remote)).
Implicit Types (w : @World Remote) (jobs : list JobPosting).

Local Abbreviation undecorated := (upsert_jobs_undecorated psycopg2_connect).

(** A decorated function whose first attempt returns. *)
Lemma retry_first_success {A} N d b (func : Exec A) w v w' :
  1 <= N -> func w = (Return v, w') ->
  retry N d b func w = (Return (Some v), w').
Proof.
  intros HN Hrun. unfold retry. cbn [retry_loop].
  destruct (Z.ltb_spec 0 N); [|lia].
  unfold try_except, bind. rewrite Hrun. reflexivity.
Qed.

(** The steps of a transaction. *)
Lemma get_connection_refused {A} (body : Connection -> Exec A) w e o1 :
  psycopg2_connect (outside w) = (inl e, o1) ->
  get_connection psycopg2_connect body w = (Raise e, called (Some e) o1 w).
Proof.
  intros Hconn. unfold get_connection.
  apply bind_of_raise, invoke_raises, Hconn.
Qed.

Lemma get_connection_connected {A} (body : Connection -> Exec A) w conn o1 :
  psycopg2_connect (outside w) = (inr conn, o1) ->
  get_connection psycopg2_connect body w
  = try_except (body conn)
      (fun e =>
         bind (modify (fun w' => set_table (job_postings w) (next_id w') w'))
              (fun _ => raise e))
      (called None o1 w).
Proof.
  intros Hconn. unfold get_connection.
  rewrite (bind_of_return _ _ _ _ _ (invoke_returns _ _ _ _ Hconn)).
  reflexivity.
Qed.

Lemma execute_values_raises conn job_data w e o2 :
  cur_execute conn (UpsertSQL job_data) (outside w) = (inl e, o2) ->
  execute_values conn job_data w = (Raise e, called (Some e) o2 w).
Proof.
  intros Hexec. unfold execute_values.
  apply bind_of_raise, invoke_raises, Hexec.
Qed.

Lemma execute_values_returns conn job_data w o2 results table' serial' :
  cur_execute conn (UpsertSQL job_data) (outside w) = (inr tt, o2) ->
  upsert_statement (clock o2) job_data (job_postings w) (next_id w) ∅
  = inr (results, table', serial') ->
  execute_values conn job_data w
  = (Return results, set_table table' serial' (called None o2 w)).
Proof.
  intros Hexec Hrun. unfold execute_values.
  rewrite (bind_of_return _ _ _ _ _ (invoke_returns _ _ _ _ Hexec)).
  unfold bind, time_time, get, modify, ret. simpl. rewrite Hrun. reflexivity.
Qed.

Lemma undecorated_unfold jobs :
  jobs <> [] ->
  undecorated jobs
  = try_except
      (get_connection psycopg2_connect (fun conn =>
         bind (execute_values conn (deduplicate jobs)) (fun results =>
         bind (invoke (conn_commit conn)) (fun _ =>
         ret (mkStats (count_inserted results)
                      (Z.of_nat (length results) - count_inserted results)
                      (Z.of_nat (length results)))))))
      (fun e => raise e).
Proof. intros Hne. destruct jobs; [contradiction|reflexivity]. Qed.

(** One attempt of the upsert over a non-empty batch.  Either the
    connection, the statement and the commit all go through: it returns
    the statistics, the rows of the batch's keys are the inserts of, or
    the updates by, the retained records, stamped with the time of the
    statement, and no other row is touched.  Or one of the three raises:
    the attempt raises that exception and the rows are as they were. *)
Lemma undecorated_outcome jobs w :
  jobs <> [] ->
  (exists conn o1 o2 o3 w1,
      psycopg2_connect (outside w) = (inr conn, o1)
      /\ cur_execute conn (UpsertSQL (deduplicate jobs)) o1 = (inr tt, o2)
      /\ conn_commit conn o2 = (inr tt, o3)
      /\ undecorated jobs w = (Return (stats_of (job_postings w) jobs), w1)
      /\ outside w1 = o3
      /\ (forall k, k ∉ keys (deduplicate jobs) ->
            job_postings w1 !! k = job_postings w !! k)
      /\ (forall i job, deduplicate jobs !! i = Some job ->
            job_postings w1 !! position_uri job
            = Some match job_postings w !! position_uri job with
                   | Some old => do_update (clock o2) job old
                   | None => do_insert (clock o2) (next_id w + Z.of_nat i) job
                   end))
  \/ (exists e w1,
        undecorated jobs w = (Raise e, w1)
        /\ job_postings w1 = job_postings w
        /\ calls_of (log w) + 1 <= calls_of (log w1) <= calls_of (log w) + 3
        /\ database_raises psycopg2_connect e).
Proof.
  intros Hne. rewrite (undecorated_unfold _ Hne).
  destruct (psycopg2_connect (outside w)) as [[e|conn] o1] eqn:Hconn.
  { right. exists e, (called (Some e) o1 w). split.
    - rewrite (try_except_of_raise _ _ _ _ _ (get_connection_refused _ _ _ _ Hconn)).
      reflexivity.
    - split; [reflexivity|]. split; [rewrite calls_of_called; lia|].
      left. eauto. }
  set (wc := called None o1 w).
  assert (Hwc : calls_of (log wc) = calls_of (log w) + 1)
    by apply calls_of_called.
  destruct (cur_execute conn (UpsertSQL (deduplicate jobs)) o1)
    as [[e|[]] o2] eqn:Hexec.
  { right. exists e. eexists. split.
    - erewrite try_except_of_raise; [reflexivity|].
      rewrite (get_connection_connected _ _ _ _ Hconn).
      erewrite try_except_of_raise; [reflexivity|].
      apply bind_of_raise, execute_values_raises. exact Hexec.
    - split; [reflexivity|]. split.
      + cbn [log set_table]. rewrite calls_of_called. fold wc. lia.
      + right. exists (outside w), conn, o1. split; [exact Hconn|]. left. eauto. }
  destruct (upsert_statement_spec (clock o2) (deduplicate jobs)
              (job_postings w) (next_id w) ∅)
    as (table' & Hrun & Hother & Hrows).
  { apply deduplicate_NoDup. }
  { intros k _. set_solver. }
  pose proof (execute_values_returns conn (deduplicate jobs) wc o2 _ _ _
                Hexec Hrun) as Hvalues.
  set (we := set_table table' _ (called None o2 wc)) in Hvalues.
  assert (Hwe : calls_of (log we) = calls_of (log w) + 2).
  { subst we. cbn [log set_table]. rewrite calls_of_called. lia. }
  destruct (conn_commit conn o2) as [[e|[]] o3] eqn:Hcommit.
  { right. exists e. eexists. split.
    - erewrite try_except_of_raise; [reflexivity|].
      rewrite (get_connection_connected _ _ _ _ Hconn).
      erewrite try_except_of_raise; [reflexivity|].
      rewrite (bind_of_return _ _ _ _ _ Hvalues).
      apply bind_of_raise, invoke_raises. exact Hcommit.
    - split; [reflexivity|]. split.
      + cbn [log set_table]. rewrite calls_of_called. lia.
      + right. exists (outside w), conn, o1. split; [exact Hconn|]. right. eauto. }
  left. exists conn, o1, o2, o3, (called None o3 we).
  split; [reflexivity|]. split; [exact Hexec|]. split; [exact Hcommit|]. split.
  - apply try_except_of_return.
    rewrite (get_connection_connected _ _ _ _ Hconn).
    apply try_except_of_return.
    rewrite (bind_of_return _ _ _ _ _ Hvalues). cbv beta.
    erewrite bind_of_return; [|apply invoke_returns; exact Hcommit].
    reflexivity.
  - split; [reflexivity|]. split; [exact Hother|exact Hrows].
Qed.

(** The same, the three operations being known to go through. *)
Lemma upsert_undecorated_run jobs w conn o1 o2 o3 :
  jobs <> [] ->
  psycopg2_connect (outside w) = (inr conn, o1) ->
  cur_execute conn (UpsertSQL (deduplicate jobs)) o1 = (inr tt, o2) ->
  conn_commit conn o2 = (inr tt, o3) ->
  exists w1,
    undecorated jobs w = (Return (stats_of (job_postings w) jobs), w1)
    /\ outside w1 = o3
    /\ (forall k, k ∉ keys (deduplicate jobs) ->
          job_postings w1 !! k = job_postings w !! k)
    /\ (forall i job, deduplicate jobs !! i = Some job ->
          job_postings w1 !! position_uri job
          = Some match job_postings w !! position_uri job with
                 | Some old => do_update (clock o2) job old
                 | None => do_insert (clock o2) (next_id w + Z.of_nat i) job
                 end).
Proof.
  intros Hne Hconn Hexec Hcommit.
  destruct (undecorated_outcome jobs w Hne)
    as [(conn' & o1' & o2' & o3' & w1 & Hc & He & Hm & Hrun & Hout & Hother & Hrows)
       |(e & w1 & Hrun & _ & _ & Hdb)].
  - rewrite Hconn in Hc. injection Hc as <- <-.
    rewrite Hexec in He. injection He as <-.
    rewrite Hcommit in Hm. injection Hm as <-.
    exists w1. repeat split; assumption.
  - exfalso. revert Hrun. rewrite (undecorated_unfold _ Hne).
    destruct (upsert_statement_spec (clock o2) (deduplicate jobs)
                (job_postings w) (next_id w) ∅)
      as (table' & Hspec & _);
      [apply deduplicate_NoDup|intros k _; set_solver|].
    erewrite try_except_of_return; [discriminate|].
    rewrite (get_connection_connected _ _ _ _ Hconn).
    apply try_except_of_return.
    rewrite (bind_of_return _ _ _ _ _
               (execute_values_returns conn (deduplicate jobs)
                  (called None o1 w) o2 _ _ _ Hexec Hspec)). cbv beta.
    erewrite bind_of_return; [|apply invoke_returns; exact Hcommit].
    reflexivity.
Qed.

End UpsertProperties.

(** ** Code that leaves the metrics and the page record alone *)

Section QuietCode.
Context {Remote : Type}.
Implicit Types (w : @World Remote).

Lemma pages_of_app l1 l2 : pages_of (l1 ++ l2) = pages_of l1 ++ pages_of l2.
Proof. unfold pages_of. apply omap_app. Qed.

Lemma quiet_ret {A} (a : A) : quiet (@ret Remote A a).
Proof. intros w. simpl. repeat split. discriminate. Qed.

Lemma quiet_raise {A} e : quiet (@raise Remote A e).
Proof. intros w. simpl. repeat split. discriminate. Qed.

Lemma quiet_get {A} (f : @World Remote -> A) : quiet (get f).
Proof. intros w. simpl. repeat split. discriminate. Qed.

Lemma quiet_modify (f : @World Remote -> @World Remote) :
  (forall w, metrics (f w) = metrics w) ->
  (forall w, pages_of (log (f w)) = pages_of (log w)) ->
  quiet (modify f).
Proof. intros Hm Hp w. simpl. split; [discriminate|]. split; [apply Hm|apply Hp]. Qed.

Lemma quiet_bind {A B} (m : @Exec Remote A) (k : A -> @Exec Remote B) :
  quiet m -> (forall a, quiet (k a)) -> quiet (bind m k).
Proof.
  intros Hm Hk w. unfold bind. specialize (Hm w).
  destruct (m w) as [[a|e|] w1]; simpl in *.
  - destruct (Hk a w1) as (H1 & H2 & H3). destruct Hm as (_ & M2 & M3).
    split; [exact H1|]. split; congruence.
  - split; [discriminate|apply Hm].
  - destruct Hm as (Hm & _). congruence.
Qed.

Lemma quiet_try_except {A} (body : @Exec Remote A) handler :
  quiet body -> (forall e, quiet (handler e)) -> quiet (try_except body handler).
Proof.
  intros Hb Hh w. unfold try_except. specialize (Hb w).
  destruct (body w) as [[a|e|] w1]; simpl in *; [exact Hb| |exact Hb].
  destruct (Hh e w1) as (H1 & H2 & H3). destruct Hb as (_ & M2 & M3).
  split; [exact H1|]. split; congruence.
Qed.

Lemma quiet_time_time : quiet (@time_time Remote).
Proof. apply quiet_get. Qed.

Lemma quiet_time_sleep d : quiet (@time_sleep Remote d).
Proof.
  unfold time_sleep. destruct (Qle_bool 0 d); [|apply quiet_raise].
  apply quiet_modify; intros w; [reflexivity|].
  cbn [log set_log]. rewrite pages_of_app. apply app_nil_r.
Qed.

Lemma quiet_invoke {A} (op : @Op Remote A) : quiet (invoke op).
Proof.
  intros w. unfold invoke. destruct (op (outside w)) as [[e|a] o]; simpl;
    (split; [discriminate|]); (split; [reflexivity|]);
    rewrite pages_of_app; apply app_nil_r.
Qed.

Lemma quiet_update_breaker f : quiet (@update_breaker Remote f).
Proof. apply quiet_modify; intros w; reflexivity. Qed.

Lemma quiet_retry_loop {A} N b (func : @Exec Remote A) :
  quiet func ->
  forall fuel attempts d,
    (Z.to_nat (N - attempts) < fuel)%nat ->
    quiet (retry_loop fuel N b func attempts d).
Proof.
  intros Hf. induction fuel as [|fuel IH]; intros attempts d Hfuel; [lia|].
  cbn [retry_loop]. destruct (Z.ltb_spec attempts N); [|apply quiet_ret].
  apply quiet_try_except.
  - apply quiet_bind; [exact Hf|intros a; apply quiet_ret].
  - intros e. destruct (Z.geb_spec (attempts + 1) N); [apply quiet_raise|].
    apply quiet_bind; [apply quiet_time_sleep|]. intros _. apply IH. lia.
Qed.

Lemma quiet_retry {A} N d b (func : @Exec Remote A) :
  quiet func -> quiet (retry N d b func).
Proof. intros Hf. apply quiet_retry_loop; [exact Hf|lia]. Qed.

Lemma quiet_CircuitBreaker_call {A} (func : @Exec Remote A) :
  quiet func -> quiet (CircuitBreaker_call func).
Proof.
  intros Hf. unfold CircuitBreaker_call.
  apply quiet_bind.
  - apply quiet_bind; [apply quiet_get|]. intros self.
    destruct (state self); try apply quiet_ret.
    apply quiet_bind; [apply quiet_time_time|]. intros now.
    destruct (last_failure_time self); [|apply quiet_raise].
    destruct (Qgt_bool _ _); [apply quiet_update_breaker|apply quiet_raise].
  - intros _. apply quiet_try_except.
    + apply quiet_bind; [exact Hf|]. intros result.
      apply quiet_bind; [apply quiet_get|]. intros self.
      apply quiet_bind; [|intros _; apply quiet_ret].
      destruct (state self); try apply quiet_ret.
    + intros e.
      apply quiet_bind; [apply quiet_update_breaker|]. intros _.
      apply quiet_bind; [apply quiet_time_time|]. intros now.
      apply quiet_bind; [apply quiet_update_breaker|]. intros _.
      apply quiet_bind; [apply quiet_get|]. intros self.
      apply quiet_bind; [|intros _; apply quiet_raise].
      destruct (_ >=? _); [apply quiet_update_breaker|apply quiet_ret].
Qed.

Context {Raw : Type} (api_delay : Q).
Context (session_get : Params -> @Op Remote (HttpResponse Raw)).
Context (_parse_location _parse_remuneration : option Raw -> string).
Context (_parse_date : option Raw -> option string).
Context (first_entry : string -> option Raw -> exn + string).
Context (psycopg2_connect : @Op Remote (@Connection Remote)).

Lemma quiet_search_jobs keyword location results_per_page page :
  quiet (search_jobs api_delay session_get keyword location results_per_page page).
Proof.
  unfold search_jobs, search_jobs_undecorated. apply quiet_retry.
  apply quiet_try_except; [|intros e; apply quiet_raise].
  apply quiet_CircuitBreaker_call.
  apply quiet_bind; [apply quiet_modify; intros w; reflexivity|]. intros _.
  apply quiet_bind; [apply quiet_invoke|]. intros response.
  apply quiet_bind.
  { destruct (raise_for_status response); [apply quiet_raise|apply quiet_ret]. }
  intros _. apply quiet_bind; [apply quiet_time_sleep|]. intros _.
  destruct (json response); [apply quiet_raise|apply quiet_ret].
Qed.

Lemma quiet_get_SearchResult (api_response : ApiResponse Raw) :
  quiet (@get_SearchResult Remote Raw api_response).
Proof.
  destruct api_response as [[sr|]|ty]; simpl;
    [apply quiet_ret|apply quiet_ret|apply quiet_raise].
Qed.

Lemma quiet_extract_items items : forall jobs,
  quiet (@extract_items Remote Raw _parse_location _parse_remuneration
           _parse_date first_entry items jobs).
Proof.
  induction items as [|item items IH]; intros jobs; cbn [extract_items].
  - apply quiet_ret.
  - apply quiet_bind; [apply quiet_time_time|]. intros now.
    destruct (make_job _ _ _ _ now item) as [job|]; [|apply IH].
    destruct (validate job); apply IH.
Qed.

Lemma quiet_extract_job_data api_response :
  quiet (@extract_job_data Remote Raw _parse_location _parse_remuneration
           _parse_date first_entry api_response).
Proof.
  unfold extract_job_data.
  apply quiet_try_except; [|intros e; apply quiet_raise].
  apply quiet_bind; [apply quiet_get_SearchResult|].
  intros sr. apply quiet_extract_items.
Qed.

Lemma quiet_get_connection {A} (body : @Connection Remote -> @Exec Remote A) :
  (forall conn, quiet (body conn)) ->
  quiet (get_connection psycopg2_connect body).
Proof.
  intros Hb. unfold get_connection.
  apply quiet_bind; [apply quiet_invoke|]. intros conn.
  apply quiet_bind; [apply quiet_get|]. intros table.
  apply quiet_try_except; [apply Hb|]. intros e.
  apply quiet_bind; [|intros _; apply quiet_raise].
  apply quiet_modify; intros w; reflexivity.
Qed.

Lemma quiet_create_tables : quiet (create_tables psycopg2_connect).
Proof.
  unfold create_tables. apply quiet_retry.
  apply quiet_try_except; [|intros e; apply quiet_raise].
  apply quiet_get_connection. intros conn.
  apply quiet_bind; [apply quiet_invoke|]. intros _. apply quiet_invoke.
Qed.

Lemma quiet_get_statistics : quiet (get_statistics psycopg2_connect).
Proof.
  unfold get_statistics.
  apply quiet_try_except; [|intros e; apply quiet_ret].
  apply quiet_get_connection. intros conn.
  apply quiet_bind; [apply quiet_invoke|]. intros _.
  apply quiet_bind; [apply quiet_get|]. intros table. apply quiet_ret.
Qed.

Lemma quiet_upsert_jobs jobs : quiet (upsert_jobs psycopg2_connect jobs).
Proof.
  unfold upsert_jobs, upsert_jobs_undecorated. apply quiet_retry.
  destruct jobs as [|j jobs]; [apply quiet_ret|].
  apply quiet_try_except; [|intros e; apply quiet_raise].
  apply quiet_get_connection. intros conn.
  apply quiet_bind.
  2:{ intros results. apply quiet_bind; [apply quiet_invoke|].
      intros _. apply quiet_ret. }
  unfold execute_values.
  apply quiet_bind; [apply quiet_invoke|]. intros _.
  apply quiet_bind; [apply quiet_time_time|]. intros now.
  apply quiet_bind; [apply quiet_get|]. intros table.
  apply quiet_bind; [apply quiet_get|]. intros serial.
  destruct (upsert_statement _ _ _ _ _) as [e|[[results table'] serial']];
    [apply quiet_raise|].
  apply quiet_bind; [|intros _; apply quiet_ret].
  apply quiet_modify; intros w; reflexivity.
Qed.

End QuietCode.

(** ** Strings: stripping, lower case, containment *)

Section StringFacts.
Local Open Scope string_scope.
#[local] Arguments String.append !s1 s2 / : simpl nomatch.

Lemma str_app_nil_r (s : string) : (s ++ "")%string = s.
Proof. induction s as [|c s IH]; simpl; [reflexivity|]. f_equal. exact IH. Qed.

Lemma str_app_assoc (s t u : string) :
  ((s ++ t) ++ u)%string = (s ++ (t ++ u))%string.
Proof. induction s as [|c s IH]; simpl; [reflexivity|]. f_equal. exact IH. Qed.

Lemma rev_app_spec s t : String.rev_app s t = (String.rev s ++ t)%string.
Proof.
  unfold String.rev. revert t. induction s as [|c s IH]; intros t; cbn;
    [reflexivity|].
  rewrite (IH (String c t)), (IH (String c "")), str_app_assoc. reflexivity.
Qed.

Lemma rev_app_twice s : forall t u,
  String.rev_app (String.rev_app s t) u = String.rev_app t (s ++ u)%string.
Proof.
  induction s as [|c s IH]; intros t u; cbn; [reflexivity|].
  rewrite IH. reflexivity.
Qed.

Lemma str_rev_involutive s : String.rev (String.rev s) = s.
Proof. unfold String.rev. rewrite rev_app_twice. cbn. apply str_app_nil_r. Qed.

Lemma str_rev_cons c s : String.rev (String c s) = (String.rev s ++ String c "")%string.
Proof. unfold String.rev at 1. cbn. apply rev_app_spec. Qed.

Lemma str_rev_snoc s c : String.rev (s ++ String c "")%string = String c (String.rev s).
Proof.
  rewrite <- (str_rev_involutive s) at 1. rewrite <- str_rev_cons.
  apply str_rev_involutive.
Qed.

Lemma blank_rev s : blank (String.rev s) = blank s.
Proof. unfold String.rev. rewrite blank_rev_app. cbn. apply andb_true_r. Qed.

Lemma lstrip_app s t :
  lstrip (s ++ t)%string = if blank s then lstrip t else (lstrip s ++ t)%string.
Proof.
  induction s as [|c s IH]; cbn; [reflexivity|].
  destruct (isspace c); cbn; [exact IH|reflexivity].
Qed.

Lemma lstrip_idempotent s : lstrip (lstrip s) = lstrip s.
Proof.
  induction s as [|c s IH]; cbn; [reflexivity|].
  destruct (isspace c) eqn:E; [exact IH|]. cbn. rewrite E. reflexivity.
Qed.

Lemma lstrip_starts_clean s : starts_clean (lstrip s).
Proof.
  induction s as [|c s IH]; cbn; [exact I|].
  destruct (isspace c) eqn:E; [exact IH|exact E].
Qed.

Lemma lstrip_clean s : starts_clean s -> lstrip s = s.
Proof. destruct s as [|c s]; cbn; [reflexivity|]. intros ->. reflexivity. Qed.

Lemma rstrip_rec_empty_iff s : rstrip_rec s = "" <-> blank s = true.
Proof.
  induction s as [|c s IH]; cbn; [tauto|].
  destruct (rstrip_rec s) as [|c' r] eqn:Er.
  - destruct (isspace c); cbn.
    + split; [intros _; apply IH; reflexivity|reflexivity].
    + split; discriminate.
  - split; [discriminate|]. intros H. apply andb_true_iff in H.
    destruct H as [_ H]. apply IH in H. discriminate.
Qed.

(** The two definitions of [rstrip] agree. *)
Lemma rstrip_is_rec s : rstrip s = rstrip_rec s.
Proof.
  unfold rstrip. induction s as [|c s IH]; [reflexivity|].
  rewrite str_rev_cons, lstrip_app, blank_rev. cbn [rstrip_rec].
  destruct (blank s) eqn:Eb.
  - apply rstrip_rec_empty_iff in Eb. rewrite Eb. cbn.
    destruct (isspace c); reflexivity.
  - rewrite str_rev_snoc, IH.
    destruct (rstrip_rec s) as [|c' r] eqn:Er; [|reflexivity].
    apply rstrip_rec_empty_iff in Er. congruence.
Qed.

Lemma rstrip_rec_idempotent s : rstrip_rec (rstrip_rec s) = rstrip_rec s.
Proof.
  induction s as [|c s IH]; [reflexivity|]. cbn [rstrip_rec].
  destruct (rstrip_rec s) as [|c' r] eqn:Er.
  - destruct (isspace c) eqn:E; cbn; [reflexivity|]. rewrite E. reflexivity.
  - change (rstrip_rec (String c (String c' r)))
      with (match rstrip_rec (String c' r) with
            | "" => if isspace c then "" else String c ""
            | String c0 r0 => String c (String c0 r0)
            end).
    rewrite IH. reflexivity.
Qed.

Lemma rstrip_rec_starts_clean s : starts_clean s -> starts_clean (rstrip_rec s).
Proof.
  destruct s as [|c s]; cbn; [tauto|]. intros E.
  destruct (rstrip_rec s); [rewrite E|]; exact E.
Qed.

Lemma strip_idempotent s : strip (strip s) = strip s.
Proof.
  unfold strip. rewrite !rstrip_is_rec.
  rewrite (lstrip_clean (rstrip_rec (lstrip s))).
  - apply rstrip_rec_idempotent.
  - apply rstrip_rec_starts_clean, lstrip_starts_clean.
Qed.

Lemma lower_app s t : lower (s ++ t)%string = (lower s ++ lower t)%string.
Proof. induction s as [|c s IH]; simpl; [reflexivity|]. f_equal. exact IH. Qed.

Lemma lower_split s : forall a b,
  lower s = (a ++ b)%string ->
  exists s1 s2, s = (s1 ++ s2)%string /\ lower s1 = a /\ lower s2 = b.
Proof.
  induction s as [|c s IH]; intros a b H.
  - destruct a; [|discriminate]. destruct b; [|discriminate].
    exists "", "". repeat split.
  - destruct a as [|c' a].
    + exists "", (String c s). repeat split. exact H.
    + cbn in H. injection H as Hc Hs.
      destruct (IH _ _ Hs) as (s1 & s2 & -> & <- & <-).
      exists (String c s1), s2. cbn. rewrite Hc. repeat split.
Qed.

Lemma prefix_spec p s :
  String.prefix p s = true <-> exists post, s = (p ++ post)%string.
Proof.
  revert s. induction p as [|c p IH]; intros s.
  - split; [intros _; exists s; reflexivity|]. intros _. destruct s; reflexivity.
  - destruct s as [|c' s]; cbn;
      [split; [discriminate|intros (post & H); discriminate]|].
    destruct (ascii_dec c c') as [<-|Hne].
    + rewrite IH. split; intros (post & H); exists post; congruence.
    + split; [discriminate|]. intros (post & H). congruence.
Qed.

(** [needle in haystack] holds exactly when the haystack is some text, the
    needle, and some text. *)
Lemma contains_spec needle haystack :
  contains needle haystack = true
  <-> exists pre post, haystack = (pre ++ needle ++ post)%string.
Proof.
  induction haystack as [|c h IH]; cbn [contains]; rewrite orb_true_iff, prefix_spec.
  - split.
    + intros [(post & H)|H]; [|discriminate]. exists "", post. exact H.
    + intros (pre & post & H). left. destruct pre; [|discriminate].
      exists post. exact H.
  - rewrite IH. split.
    + intros [(post & H)|(pre & post & H)].
      * exists "", post. exact H.
      * exists (String c pre), post. cbn. rewrite H. reflexivity.
    + intros (pre & post & H). destruct pre as [|c' pre].
      * left. exists post. exact H.
      * right. cbn in H. injection H as _ H. exists pre, post. exact H.
Qed.

End StringFacts.

(** The test ["needle" in s.lower()], for any needle: [s] holds a piece
    that lower-cases to the needle. *)
Lemma contains_lower_spec needle s :
  contains needle (lower s) = true
  <-> exists pre mid post,
        s = (pre ++ mid ++ post)%string /\ lower mid = needle.
Proof.
  rewrite contains_spec. split.
  - intros (a & b & H).
    apply lower_split in H. destruct H as (pre & rest & Hs & <- & Hrest).
    apply lower_split in Hrest. destruct Hrest as (mid & post & -> & Hmid & <-).
    exists pre, mid, post. split; assumption.
  - intros (pre & mid & post & -> & Hmid).
    exists (lower pre), (lower post). rewrite !lower_app, Hmid. reflexivity.
Qed.

(** ** The pagination loop *)

Section PaginationProperties.
Context {Remote Raw : Type} (api_delay : Q).
Context (session_get : Params -> @Op Remote (HttpResponse Raw)).
Context (_parse_location _parse_remuneration : option Raw -> string).
Context (_parse_date : option Raw -> option string).
Context (first_entry : string -> option Raw -> exn + string).
Context (psycopg2_connect : @Op Remote (@Connection Remote)).
Implicit Types (w : @World Remote) (all_jobs : list JobPosting).

Local Abbreviation search := (search_jobs api_delay session_get).
Local Abbreviation try_block :=
  (page_try api_delay session_get _parse_location _parse_remuneration
            _parse_date first_entry).
Local Abbreviation pass :=
  (page_pass api_delay session_get _parse_location _parse_remuneration
             _parse_date first_entry).
Local Abbreviation loop :=
  (pagination_loop api_delay session_get _parse_location _parse_remuneration
                   _parse_date first_entry).

(** The world once the start of the pass for [page] is logged. *)
Local Abbreviation started page w := (set_log (log w ++ [EvPage page]) w).

(** What the [try] block does with a fetched dictionary. *)
Lemma page_try_fetched keyword location page all_jobs w w1 osr :
  search keyword location 500 page w = (Return (Some (Dict osr)), w1) ->
  let sr := match osr with Some sr => sr | None => empty_search_result end in
  let jobs := filter (fun job => validate job = true)
                (omap (make_job _parse_location _parse_remuneration _parse_date
                                first_entry (clock (outside w1)))
                      (get_items sr)) in
  try_block keyword location page all_jobs w
  = match get_items sr with
    | [] => (Return (Break, page, all_jobs),
             set_metrics (add_api_call (metrics w1)) w1)
    | _ =>
      (Return (if (Z.of_nat (length (get_items sr)) <? 500)
                  || (get_count (SearchResultCount sr)
                      >=? get_count (SearchResultCountAll sr))
               then (Break, page, all_jobs ++ jobs)
               else (Continue, page + 1, all_jobs ++ jobs)),
       set_metrics (add_extracted (Z.of_nat (length jobs))
                                  (add_api_call (metrics w1))) w1)
    end.
Proof.
  intros Hfetch sr jobs. unfold page_try. unfold bind at 1. rewrite Hfetch.
  cbn [of_search]. unfold bind at 1, update_metrics, modify.
  destruct osr as [sr'|]; cbn [get_SearchResult]; unfold bind at 1, ret.
  - subst sr. destruct (get_items sr') as [|item items] eqn:Hitems; [reflexivity|].
    unfold bind at 1. rewrite extract_job_data_spec.
    cbn [outside set_metrics]. rewrite Hitems. fold jobs.
    unfold bind at 1, modify.
    destruct ((Z.of_nat (length (item :: items)) <? 500)
              || (get_count (SearchResultCount sr')
                  >=? get_count (SearchResultCountAll sr'))); reflexivity.
  - reflexivity.
Qed.

(** Whatever happens in the [try] block: it ends; it logs no page and
    records no error itself; it counts at most one API call; and when it
    returns, the page number is the one of this pass after a [break] and
    the next one otherwise. *)
Lemma page_try_shape keyword location page all_jobs w :
  exists res w1,
    try_block keyword location page all_jobs w = (res, w1)
    /\ pages_of (log w1) = pages_of (log w)
    /\ errors (metrics w1) = errors (metrics w)
    /\ total_api_calls (metrics w) <= total_api_calls (metrics w1)
       <= total_api_calls (metrics w) + 1
    /\ match res with
       | Return (ctl, page', _) =>
         page' = match ctl with Break => page | Continue => page + 1 end
       | Raise _ => True
       | OutOfFuel => False
       end.
Proof.
  destruct (quiet_search_jobs api_delay session_get keyword location 500 page w)
    as (Hfuel & Hmet & Hpages).
  destruct (search keyword location 500 page w) as [[r|e|] w1] eqn:Hsearch;
    cbn [fst snd] in *; [| |congruence].
  - destruct r as [[osr|ty]|].
    + rewrite (page_try_fetched _ _ _ _ _ _ _ Hsearch).
      destruct (get_items _) as [|item items].
      * eexists. eexists. split; [reflexivity|]. cbn. rewrite Hmet.
        repeat split; try assumption; lia.
      * eexists. eexists. split; [reflexivity|]. cbn. rewrite Hmet.
        repeat split; try assumption; try lia.
        destruct (_ || _); reflexivity.
    + unfold page_try, bind at 1. rewrite Hsearch. eexists. eexists.
      split; [reflexivity|]. cbn. rewrite Hmet.
      repeat split; try assumption; lia.
    + unfold page_try, bind at 1. rewrite Hsearch. eexists. eexists.
      split; [reflexivity|]. cbn. rewrite Hmet.
      repeat split; try assumption; lia.
  - unfold page_try, bind at 1. rewrite Hsearch. eexists. eexists.
    split; [reflexivity|]. rewrite Hmet. repeat split; try assumption; lia.
Qed.

Lemma page_pass_returned keyword location page all_jobs w x w1 :
  try_block keyword location page all_jobs (started page w) = (Return x, w1) ->
  pass keyword location page all_jobs w = (Return x, w1).
Proof.
  intros Htry. unfold page_pass, bind, modify, try_except. rewrite Htry.
  reflexivity.
Qed.

Lemma page_pass_raised keyword location page all_jobs w e w1 :
  try_block keyword location page all_jobs (started page w) = (Raise e, w1) ->
  pass keyword location page all_jobs w
  = (Return (if is_rate_limit e then (Break, page, all_jobs)
             else (Continue, page + 1, all_jobs)),
     set_metrics (append_error (page_error_msg page e) (metrics w1)) w1).
Proof.
  intros Htry. unfold page_pass, bind at 1, modify, try_except. rewrite Htry.
  unfold page_except, bind, update_metrics, modify.
  destruct (is_rate_limit e); reflexivity.
Qed.

(** Every pass returns; it logs its page; it can only add to the errors;
    it counts at most one API call; it ends in a [break] or moves on to
    the next page. *)
Lemma page_pass_shape keyword location page all_jobs w :
  exists ctl jobs' w',
    pass keyword location page all_jobs w
    = (Return (ctl, match ctl with Break => page | Continue => page + 1 end,
               jobs'), w')
    /\ pages_of (log w') = pages_of (log w) ++ [page]
    /\ errors (metrics w) `prefix_of` errors (metrics w')
    /\ total_api_calls (metrics w) <= total_api_calls (metrics w')
       <= total_api_calls (metrics w) + 1.
Proof.
  destruct (page_try_shape keyword location page all_jobs (started page w))
    as (res & w1 & Htry & Hpages & Herr & Hcalls & Hres).
  cbn [log set_log metrics] in Hpages, Herr, Hcalls.
  rewrite pages_of_app in Hpages. cbn in Hpages.
  destruct res as [[[ctl page'] jobs']|e|]; [| |contradiction].
  - subst page'. exists ctl, jobs', w1.
    split; [apply page_pass_returned; exact Htry|].
    split; [exact Hpages|]. split; [rewrite Herr; reflexivity|exact Hcalls].
  - rewrite (page_pass_raised _ _ _ _ _ _ _ Htry).
    exists (if is_rate_limit e then Break else Continue), all_jobs.
    eexists. split; [destruct (is_rate_limit e); reflexivity|].
    cbn. split; [exact Hpages|]. split; [|exact Hcalls].
    rewrite Herr. apply prefix_app_r. reflexivity.
Qed.

Lemma loop_unfold fuel keyword location max_pages page all_jobs w :
  page <= max_pages ->
  loop (S fuel) keyword location max_pages page all_jobs w
  = match pass keyword location page all_jobs w with
    | (Return (Break, _, all_jobs'), w') => (Return all_jobs', w')
    | (Return (Continue, page', all_jobs'), w') =>
      loop fuel keyword location max_pages page' all_jobs' w'
    | (Raise e, w') => (Raise e, w')
    | (OutOfFuel, w') => (OutOfFuel, w')
    end.
Proof.
  intros Hle. cbn [pagination_loop].
  destruct (Z.leb_spec page max_pages); [|lia].
  unfold bind. destruct (pass keyword location page all_jobs w)
    as [[[[[|] page'] jobs']|e|] w']; reflexivity.
Qed.

(** The loop ends and returns; the pages it visits are consecutive, from
    [page] on, and at most [max_pages - page + 1] in number; it can only
    add to the errors; it counts at most one API call per page visited. *)
Lemma loop_shape keyword location max_pages fuel :
  forall page all_jobs w,
    (Z.to_nat (max_pages - page + 1) < fuel)%nat ->
    exists all_jobs' w' n,
      loop fuel keyword location max_pages page all_jobs w = (Return all_jobs', w')
      /\ 0 <= n <= Z.max 0 (max_pages - page + 1)
      /\ pages_of (log w') = pages_of (log w) ++ seqZ page n
      /\ errors (metrics w) `prefix_of` errors (metrics w')
      /\ total_api_calls (metrics w) <= total_api_calls (metrics w')
         <= total_api_calls (metrics w) + n.
Proof.
  induction fuel as [|fuel IH]; intros page all_jobs w Hfuel; [lia|].
  destruct (Z_le_gt_dec page max_pages) as [Hle|Hgt].
  - rewrite loop_unfold by exact Hle.
    destruct (page_pass_shape keyword location page all_jobs w)
      as (ctl & jobs' & w1 & Hpass & Hpages & Herr & Hcalls).
    rewrite Hpass. destruct ctl.
    + exists jobs', w1, 1. split; [reflexivity|].
      split; [lia|]. split; [exact Hpages|].
      split; [exact Herr|exact Hcalls].
    + destruct (IH (page + 1) jobs' w1) as (r & w' & n & Hrun & Hn & Hp & He & Hc);
        [lia|].
      exists r, w', (n + 1). split; [exact Hrun|].
      split; [lia|]. split.
      { rewrite Hp, Hpages, <- app_assoc. f_equal.
        rewrite (seqZ_cons page (n + 1)) by lia. cbn [app]. f_equal. f_equal; lia. }
      split; [etransitivity; eassumption|lia].
  - exists all_jobs, w, 0. cbn [pagination_loop].
    destruct (Z.leb_spec page max_pages); [lia|].
    split; [reflexivity|]. split; [lia|].
    split; [rewrite app_nil_r; reflexivity|]. split; [reflexivity|lia].
Qed.

(** Inversion of the monad's operations on a returned value. *)
Lemma bind_returns {A B} (m : @Exec Remote A) (k : A -> @Exec Remote B) w b w' :
  bind m k w = (Return b, w') ->
  exists a w1, m w = (Return a, w1) /\ k a w1 = (Return b, w').
Proof.
  unfold bind. destruct (m w) as [[a|e|] w1]; intros H; try discriminate.
  exists a, w1. split; [reflexivity|exact H].
Qed.

Lemma try_except_returns {A} (body : @Exec Remote A) handler w a w' :
  try_except body handler w = (Return a, w') ->
  (forall e w1 w2, handler e w1 <> (Return a, w2)) ->
  body w = (Return a, w').
Proof.
  unfold try_except. destruct (body w) as [[a'|e|] w1]; intros H Hh;
    try exact H. exfalso. exact (Hh _ _ _ H).
Qed.

Lemma quiet_metrics {A} (m : @Exec Remote A) w r w' :
  quiet m -> m w = (r, w') -> metrics w' = metrics w.
Proof. intros Hq Hrun. destruct (Hq w) as (_ & H & _). rewrite Hrun in H. exact H. Qed.

(** A summary that [run] returns carries the error list and the counters
    as the pagination loop left them; the loop started in the world that
    [create_tables] and [get_statistics] made of the one [run] found, its
    start time recorded. *)
Lemma run_returns keyword location max_pages w summary wf :
  run api_delay session_get _parse_location _parse_remuneration _parse_date
      first_entry psycopg2_connect keyword location max_pages w
  = (Return summary, wf) ->
  exists u w3 initial_stats wa wb all_jobs,
    create_tables psycopg2_connect
      (set_metrics (set_start_time (clock (outside w)) (metrics w)) w)
    = (Return u, w3)
    /\ get_statistics psycopg2_connect w3 = (Return initial_stats, wa)
    /\ loop (S (Z.to_nat max_pages)) keyword location max_pages 1 [] wa
       = (Return all_jobs, wb)
    /\ summary_errors summary = errors (metrics wb)
    /\ api_calls_made summary = total_api_calls (metrics wb)
    /\ jobs_extracted summary = total_jobs_extracted (metrics wb).
Proof.
  unfold run. intros H.
  apply bind_returns in H as (start & w1 & Hs & H).
  unfold time_time, get in Hs. injection Hs as <- <-.
  apply bind_returns in H as (? & w2 & Hm & H).
  unfold update_metrics at 1, modify in Hm. injection Hm as _ <-.
  apply try_except_returns in H.
  2:{ intros e wx wy. unfold bind, time_time, get, update_metrics, modify, raise.
      discriminate. }
  apply bind_returns in H as (u & w3 & Hct & H).
  apply bind_returns in H as (initial_stats & wa & Hinit & H).
  apply bind_returns in H as (all_jobs & wb & Hloop & H).
  apply bind_returns in H as (db_stats & w6 & Hdb & H).
  apply bind_returns in H as (final_stats & w7 & Hfinal & H).
  apply bind_returns in H as (finish & w8 & Hfinish & H).
  apply bind_returns in H as (? & w9 & Hend & H).
  apply bind_returns in H as (m & w10 & Hm & H).
  exists u, w3, initial_stats, wa, wb, all_jobs.
  split; [exact Hct|]. split; [exact Hinit|]. split; [exact Hloop|].
  injection H as <- <-. cbn [summary_errors api_calls_made jobs_extracted].
  injection Hm as <- <-. injection Hend as _ <-. injection Hfinish as <- <-.
  cbn [metrics set_metrics set_end_time errors total_api_calls
       total_jobs_extracted].
  rewrite (quiet_metrics _ _ _ _ (quiet_get_statistics psycopg2_connect) Hfinal).
  assert (Hkeep : errors (metrics w6) = errors (metrics wb)
                  /\ total_api_calls (metrics w6) = total_api_calls (metrics wb)
                  /\ total_jobs_extracted (metrics w6)
                     = total_jobs_extracted (metrics wb)).
  { destruct all_jobs as [|j rest].
    - injection Hdb as <- <-. repeat split.
    - apply bind_returns in Hdb as (r & wu & Hup & Hdb).
      rewrite <- (quiet_metrics _ _ _ _ (quiet_upsert_jobs psycopg2_connect _) Hup).
      destruct r as [stats|]; [|discriminate].
      apply bind_returns in Hdb as (? & wl & Hl & Hdb).
      injection Hdb as <- <-. injection Hl as _ <-. repeat split. }
  destruct Hkeep as (-> & -> & ->). repeat split.
Qed.

(** Along a run of the loop, the loop's result is the same from every
    state gone through, and the fuel stays sufficient. *)
Lemma passes_on_loop keyword location max_pages s s' :
  passes_on (pass keyword location) max_pages s s' ->
  let '(fuel, page, all_jobs, w) := s in
  let '(fuel', page', all_jobs', w') := s' in
  loop fuel keyword location max_pages page all_jobs w
  = loop fuel' keyword location max_pages page' all_jobs' w'
  /\ ((Z.to_nat (max_pages - page + 1) < fuel)%nat ->
      (Z.to_nat (max_pages - page' + 1) < fuel')%nat).
Proof.
  induction 1 as [[[[fuel page] all_jobs] w]
                 |fuel page all_jobs w page' all_jobs' w' [[[f2 p2] j2] w2]
                       Hle Hpass _ IH].
  - split; [reflexivity|tauto].
  - destruct IH as [IHrun IHfuel]. split.
    + rewrite loop_unfold by exact Hle. rewrite Hpass. exact IHrun.
    + intros Hfuel. apply IHfuel.
      destruct (page_pass_shape keyword location page all_jobs w)
        as (ctl & jobs'' & w'' & Hshape & _).
      rewrite Hshape in Hpass. injection Hpass as -> <- _ _. lia.
Qed.

(** C5.  When the page is fetched (the decoded body is a dictionary), the
    pass ends the loop exactly when the page has no item, or fewer items
    than the page size requested (500), or a reported count on the page
    that is at least the reported total; otherwise the loop goes on with
    [page + 1].  A page of 500 items reporting 500 of 1000 goes on; a page
    of 100 items stops, whatever the total. *)
Theorem pagination_stops_exactly keyword location max_pages fuel page all_jobs
    w w1 osr :
  search keyword location 500 page (started page w)
  = (Return (Some (Dict osr)), w1) ->
  page <= max_pages ->
  let sr := match osr with Some sr => sr | None => empty_search_result end in
  exists ctl jobs' w',
    pass keyword location page all_jobs w
    = (Return (ctl, match ctl with Break => page | Continue => page + 1 end,
               jobs'), w')
    /\ (ctl = Break
        <-> get_items sr = []
            \/ Z.of_nat (length (get_items sr)) < 500
            \/ get_count (SearchResultCount sr)
               >= get_count (SearchResultCountAll sr))
    /\ loop (S fuel) keyword location max_pages page all_jobs w
       = match ctl with
         | Break => (Return jobs', w')
         | Continue => loop fuel keyword location max_pages (page + 1) jobs' w'
         end
    /\ (length (get_items sr) = 500%nat ->
        SearchResultCount sr = Some 500 ->
        SearchResultCountAll sr = Some 1000 ->
        ctl = Continue)
    /\ (length (get_items sr) = 100%nat -> ctl = Break).
Proof.
  intros Hfetch Hle sr.
  pose proof (page_try_fetched keyword location page all_jobs _ _ _ Hfetch) as Htry.
  cbv zeta in Htry. fold sr in Htry.
  set (jobs := filter _ _) in Htry.
  destruct (get_items sr) as [|item items] eqn:Hitems.
  - exists Break. eexists. eexists.
    split; [apply page_pass_returned; exact Htry|].
    split; [split; [intros _; left; reflexivity|reflexivity]|].
    split; [rewrite loop_unfold by exact Hle;
            rewrite (page_pass_returned _ _ _ _ _ _ _ Htry); reflexivity|].
    split; [discriminate|discriminate].
  - set (few := Z.of_nat (length (item :: items)) <? 500) in *.
    set (last := get_count (SearchResultCount sr)
                 >=? get_count (SearchResultCountAll sr)) in *.
    assert (Hcond : few || last = true
                    <-> item :: items = []
                        \/ Z.of_nat (length (item :: items)) < 500
                        \/ get_count (SearchResultCount sr)
                           >= get_count (SearchResultCountAll sr)).
    { subst few last. rewrite orb_true_iff, Z.ltb_lt, Z.geb_le.
      split; [intros [?|?]; [right; left; assumption|right; right; lia]|].
      intros [?|[?|?]]; [discriminate|left; assumption|right; lia]. }
    destruct (few || last) eqn:Hstop.
    + exists Break. eexists. eexists.
      split; [apply page_pass_returned; exact Htry|].
      split; [split; [intros _; apply Hcond; reflexivity|reflexivity]|].
      split; [rewrite loop_unfold by exact Hle;
              rewrite (page_pass_returned _ _ _ _ _ _ _ Htry); reflexivity|].
      split; [|reflexivity].
      intros Hlen Hc Ha. exfalso. subst few last.
      rewrite Hlen, Hc, Ha in Hstop. discriminate Hstop.
    + exists Continue. eexists. eexists.
      split; [apply page_pass_returned; exact Htry|].
      split; [split; [discriminate|]|].
      { intros H. apply Hcond in H. discriminate H. }
      split; [rewrite loop_unfold by exact Hle;
              rewrite (page_pass_returned _ _ _ _ _ _ _ Htry); reflexivity|].
      split; [reflexivity|].
      intros Hlen. exfalso. subst few last.
      rewrite Hlen in Hstop. discriminate Hstop.
Qed.

(** C6.  When the [try] block of a pass raises [e] (the fetch failed, or
    the processing of what was fetched did), the message
    ["Error processing page <page>: <str(e)>"] is appended to the error
    list.  If [str(e)] holds, somewhere and in whatever letter case, the
    text ["rate limit"], the pass ends the loop at once, on this page;
    otherwise the loop goes on with the next page, the batch being as it
    was.  When [run] returns a summary, its pagination loop started in the
    world that [create_tables] and [get_statistics] made of the one [run]
    found; the message of every pass of that loop that failed is in the
    summary's error list, and the summary carries the API-call and
    extraction counters as the loop left them. *)
Theorem page_failure_policy keyword location max_pages fuel page all_jobs
    w e w1 :
  try_block keyword location page all_jobs (started page w) = (Raise e, w1) ->
  page <= max_pages ->
  let w2 := set_metrics (append_error (page_error_msg page e) (metrics w1)) w1 in
  errors (metrics w2)
  = errors (metrics w)
    ++ [("Error processing page " ++ pretty page ++ ": " ++ str e)%string]
  /\ (rate_limited e ->
      pass keyword location page all_jobs w = (Return (Break, page, all_jobs), w2)
      /\ loop (S fuel) keyword location max_pages page all_jobs w
         = (Return all_jobs, w2))
  /\ (~ rate_limited e ->
      pass keyword location page all_jobs w
      = (Return (Continue, page + 1, all_jobs), w2)
      /\ loop (S fuel) keyword location max_pages page all_jobs w
         = loop fuel keyword location max_pages (page + 1) all_jobs w2)
  /\ (forall w0 summary wf,
        run api_delay session_get _parse_location _parse_remuneration
            _parse_date first_entry psycopg2_connect keyword location
            max_pages w0
        = (Return summary, wf) ->
        exists u w3 initial_stats wa wb all_jobs',
          create_tables psycopg2_connect
            (set_metrics (set_start_time (clock (outside w0)) (metrics w0)) w0)
          = (Return u, w3)
          /\ get_statistics psycopg2_connect w3 = (Return initial_stats, wa)
          /\ loop (S (Z.to_nat max_pages)) keyword location max_pages 1 [] wa
             = (Return all_jobs', wb)
          /\ api_calls_made summary = total_api_calls (metrics wb)
          /\ jobs_extracted summary = total_jobs_extracted (metrics wb)
          /\ forall fuel' page' jobs' w' e' w1',
               passes_on (pass keyword location) max_pages
                         (S (Z.to_nat max_pages), 1, [], wa)
                         (S fuel', page', jobs', w') ->
               page' <= max_pages ->
               try_block keyword location page' jobs' (started page' w')
               = (Raise e', w1') ->
               ("Error processing page " ++ pretty page' ++ ": " ++ str e')%string
               ∈ summary_errors summary).
Proof.
  assert (Hstep : forall fuel page all_jobs w e w1,
    try_block keyword location page all_jobs (started page w) = (Raise e, w1) ->
    page <= max_pages ->
    let w2 := set_metrics (append_error (page_error_msg page e) (metrics w1)) w1 in
    errors (metrics w2) = errors (metrics w) ++ [page_error_msg page e]
    /\ pass keyword location page all_jobs w
       = (Return (if is_rate_limit e then (Break, page, all_jobs)
                  else (Continue, page + 1, all_jobs)), w2)
    /\ loop (S fuel) keyword location max_pages page all_jobs w
       = (if is_rate_limit e then (Return all_jobs, w2)
          else loop fuel keyword location max_pages (page + 1) all_jobs w2)).
  { clear. intros fuel page all_jobs w e w1 Htry Hle w2.
    pose proof (page_pass_raised _ _ _ _ _ _ _ Htry) as Hpass. fold w2 in Hpass.
    split; [|split; [exact Hpass|]].
    - destruct (page_try_shape keyword location page all_jobs (started page w))
        as (res & w1' & Htry' & _ & Herr & _).
      rewrite Htry in Htry'. injection Htry' as <- <-.
      subst w2. cbn. rewrite Herr. reflexivity.
    - rewrite loop_unfold by exact Hle. rewrite Hpass.
      destruct (is_rate_limit e); reflexivity. }
  intros Htry Hle w2.
  destruct (Hstep fuel page all_jobs w e w1 Htry Hle) as (Herr & Hpass & Hloop).
  split; [exact Herr|]. split; [|split].
  { intros Hrate. apply (contains_lower_spec "rate limit") in Hrate.
    fold (is_rate_limit e) in Hrate. rewrite Hrate in Hpass, Hloop.
    split; [exact Hpass|exact Hloop]. }
  { intros Hrate. destruct (is_rate_limit e) eqn:Htest.
    - exfalso. apply Hrate. apply (contains_lower_spec "rate limit"). exact Htest.
    - split; [exact Hpass|exact Hloop]. }
  intros w0 summary wf Hrun.
  destruct (run_returns _ _ _ _ _ _ Hrun)
    as (u & w3 & initial_stats & wa & wb & all_jobs' & Hct & Hinit & Hwhole
        & Herrs & Hcalls & Hextracted).
  exists u, w3, initial_stats, wa, wb, all_jobs'.
  split; [exact Hct|]. split; [exact Hinit|].
  split; [exact Hwhole|]. split; [exact Hcalls|].
  split; [exact Hextracted|].
  intros fuel' page' jobs' w' e' w1' Hreach Hle' Htry'.
  apply passes_on_loop in Hreach. destruct Hreach as [Hsame Hfuel].
  specialize (Hfuel ltac:(lia)).
  destruct (Hstep fuel' page' jobs' w' e' w1' Htry' Hle') as (Herr' & _ & Hloop').
  fold (page_error_msg page' e').
  rewrite Herrs. rewrite Hsame, Hloop' in Hwhole.
  destruct (is_rate_limit e').
  - injection Hwhole as _ <-. rewrite Herr'. set_solver.
  - destruct (loop_shape keyword location max_pages fuel' (page' + 1) jobs'
                (set_metrics (append_error (page_error_msg page' e') (metrics w1'))
                             w1'))
      as (jobs'' & wf' & n & Hrest & _ & _ & Hpre & _); [lia|].
    rewrite Hrest in Hwhole. injection Hwhole as _ <-.
    destruct Hpre as (more & ->). rewrite Herr'. set_solver.
Qed.

(** C8.  Whatever the outside world answers, the pagination loop of a run
    ends and returns; the pages it visits are [1, 2, ..., n] for some
    [n <= max_pages] (none when [max_pages < 1]); it counts at most [n]
    API calls; and every pass either ends the loop or moves on to the next
    page. *)
Theorem pagination_bounded keyword location max_pages w :
  (exists all_jobs w' n,
      loop (S (Z.to_nat max_pages)) keyword location max_pages 1 [] w
      = (Return all_jobs, w')
      /\ 0 <= n <= Z.max 0 max_pages
      /\ pages_of (log w') = pages_of (log w) ++ seqZ 1 n
      /\ total_api_calls (metrics w') <= total_api_calls (metrics w) + n)
  /\ (forall page all_jobs w0,
        exists ctl jobs' w1,
          pass keyword location page all_jobs w0
          = (Return (ctl, match ctl with Break => page | Continue => page + 1 end,
                     jobs'), w1)
          /\ pages_of (log w1) = pages_of (log w0) ++ [page]).
Proof.
  split.
  - destruct (loop_shape keyword location max_pages (S (Z.to_nat max_pages)) 1 [] w)
      as (all_jobs & w' & n & Hrun & Hn & Hp & _ & Hc); [lia|].
    exists all_jobs, w', n. split; [exact Hrun|]. split; [lia|].
    split; [exact Hp|lia].
  - intros page all_jobs w0.
    destruct (page_pass_shape keyword location page all_jobs w0)
      as (ctl & jobs' & w1 & Hpass & Hpages & _).
    exists ctl, jobs', w1. split; assumption.
Qed.

End PaginationProperties.

Lemma pagination_stops_exactly_witness :
  exists jobs' w',
    page_pass (3 # 2) (api_server 3) fixture_location fixture_remuneration
      fixture_date fixture_entry "data engineering" None 1 []
      (fresh_world (CircuitBreaker_init 5 60) 0 0%nat)
    = (Return (Break, 1, jobs'), w').
Proof.
  edestruct (pagination_stops_exactly (3 # 2) (api_server 3) fixture_location
               fixture_remuneration fixture_date fixture_entry
               "data engineering" None 20 1%nat 1 []
               (fresh_world (CircuitBreaker_init 5 60) 0 0%nat))
    as (ctl & jobs' & w' & Hpass & Hstop & _).
  - vm_compute. reflexivity.
  - lia.
  - assert (Hctl : ctl = Break).
    { apply Hstop. right. left. vm_compute. reflexivity. }
    subst ctl. exists jobs', w'. exact Hpass.
Defined.

Lemma page_failure_policy_witness :
  (exists w2,
      page_pass (3 # 2) throttling_server fixture_location fixture_remuneration
        fixture_date fixture_entry "data engineering" None 1 []
        (fresh_world (CircuitBreaker_init 5 60) 0 0%nat)
      = (Return (Break, 1, []), w2)
      /\ errors (metrics w2)
         = ["Error processing page 1: 429 Client Error: Rate Limit exceeded"])
  /\ (exists w2,
        page_pass (3 # 2) list_server fixture_location fixture_remuneration
          fixture_date fixture_entry "data engineering" None 1 []
          (fresh_world (CircuitBreaker_init 5 60) 0 0%nat)
        = (Return (Continue, 1 + 1, []), w2)
        /\ errors (metrics w2)
           = ["Error processing page 1: 'list' object has no attribute 'get'"]).
Proof.
  split.
  - edestruct (page_failure_policy (3 # 2) throttling_server fixture_location
                 fixture_remuneration fixture_date fixture_entry connect_ok
                 "data engineering" None 20 20%nat 1 []
                 (fresh_world (CircuitBreaker_init 5 60) 0 0%nat))
      as (Herr & Hbreak & _).
    + vm_compute. reflexivity.
    + lia.
    + destruct Hbreak as [Hpass _].
      { exists "429 Client Error: ", "Rate Limit", " exceeded".
        split; reflexivity. }
      eexists. split; [exact Hpass|]. rewrite Herr. reflexivity.
  - edestruct (page_failure_policy (3 # 2) list_server fixture_location
                 fixture_remuneration fixture_date fixture_entry connect_ok
                 "data engineering" None 20 20%nat 1 []
                 (fresh_world (CircuitBreaker_init 5 60) 0 0%nat))
      as (Herr & _ & Hcontinue & _).
    + vm_compute. reflexivity.
    + lia.
    + destruct Hcontinue as [Hpass _].
      { intros Hrate. apply (contains_lower_spec "rate limit") in Hrate.
        vm_compute in Hrate. discriminate Hrate. }
      eexists. split; [exact Hpass|]. rewrite Herr. reflexivity.
Defined.

(** A page whose body is no dictionary fails in processing: the error is
    recorded and the loop moves on to page 2. *)
Example processing_failure_continues :
  exists w2,
    page_pass (3 # 2) list_server fixture_location fixture_remuneration
      fixture_date fixture_entry "data engineering" None 1 []
      (fresh_world (CircuitBreaker_init 5 60) 0 0%nat)
    = (Return (Continue, 2, []), w2)
    /\ errors (metrics w2)
       = ["Error processing page 1: 'list' object has no attribute 'get'"].
Proof. eexists. split; vm_compute; reflexivity. Qed.

(** The scenario of the integration tests, in small: 3 listings, one page;
    an empty store takes them all as inserts. *)
Example run_small_scenario :
  fst (run (3 # 2) (api_server 3) fixture_location fixture_remuneration
         fixture_date fixture_entry connect_ok "data engineering" None 20
         (fresh_world (CircuitBreaker_init 5 60) 0 0%nat))
  = Return (mkSummary (3 # 2) 1 3 3 0 3 []).
Proof. vm_compute. reflexivity. Qed.

(** [test_circuit_breaker_closed_state] *)
Example breaker_closed_state :
  let w := fresh_world (CircuitBreaker_init 3 60) 0 0%nat in
  let '(r, w') := CircuitBreaker_call (invoke success_func) w in
  r = Return "success" /\ state (circuit_breaker w') = CLOSED.
Proof. vm_compute. split; reflexivity. Qed.

(** [test_circuit_breaker_open_after_failures]: the third call is turned
    away, and [failing_func] has been called twice, not three times. *)
Example breaker_open_after_failures :
  let w := fresh_world (CircuitBreaker_init 2 60) 0 0%nat in
  let '(r1, w1) := CircuitBreaker_call (invoke failing_func) w in
  let '(r2, w2) := CircuitBreaker_call (invoke failing_func) w1 in
  let '(r3, w3) := CircuitBreaker_call (invoke failing_func) w2 in
  state (circuit_breaker w1) = CLOSED
  /\ state (circuit_breaker w2) = OPEN
  /\ r3 = Raise (Exception "Circuit breaker is OPEN")
  /\ remote (outside w3) = 2%nat.
Proof. vm_compute. repeat split; reflexivity. Qed.

(** [test_retry_max_attempts_exceeded] *)
Example retry_max_attempts_exceeded :
  let w := fresh_world (CircuitBreaker_init 5 60) 0 0%nat in
  let '(r, w') := retry 2 (1 # 100) 2 (invoke failing_func) w in
  r = Raise (Exception "API Error")
  /\ remote (outside w') = 2%nat
  /\ log w' = [EvCall (Some (Exception "API Error")); EvSleep (1 # 100);
               EvCall (Some (Exception "API Error"))].
Proof. vm_compute. repeat split; reflexivity. Qed.

(** Validation as in [test_unit]: a key that is no URL and an empty title
    are refused. *)
Example validate_refuses :
  validate (mkJobPosting "Data Engineer" "not-a-url" "" "" None None "" "" "" "" 0)
  = false
  /\ validate (mkJobPosting "" "https://example.com/job/123" "" "" None None
                            "" "" "" "" 0) = false
  /\ validate (mkJobPosting "   " "https://example.com/job/123" "" "" None None
                            "" "" "" "" 0) = false.
Proof. repeat split; reflexivity. Qed.

(** * Further properties *)

(** ** The retry wrapper, at its edges *)

Section RetryEdges.
Context {Remote A : Type}.
Implicit Types (w : @World Remote) (func : @Exec Remote A).

Lemma retry_loop_not_None N b func fuel :
  forall attempts d w,
    attempts < N ->
    fst (retry_loop fuel N b func attempts d w) <> Return None.
Proof.
  induction fuel as [|fuel IH]; intros attempts d w Hlt; [discriminate|].
  cbn [retry_loop]. destruct (Z.ltb_spec attempts N); [|lia].
  unfold try_except, bind at 1.
  destruct (func w) as [[v|e|] w1]; cbn; try discriminate.
  destruct (Z.geb_spec (attempts + 1) N); [discriminate|].
  unfold bind. destruct (time_sleep d w1) as [[[]|e'|] w2]; try discriminate.
  apply IH. lia.
Qed.

(** A value the wrapper returns from inside its loop is one the function
    returned, in the world the wrapper ends in. *)
Lemma retry_loop_returns_from N b func fuel :
  forall attempts d w v w',
    retry_loop fuel N b func attempts d w = (Return (Some v), w') ->
    exists w1, func w1 = (Return v, w').
Proof.
  induction fuel as [|fuel IH]; intros attempts d w v w' Hrun; [discriminate|].
  cbn [retry_loop] in Hrun. destruct (attempts <? N); [|discriminate].
  unfold try_except, bind at 1 in Hrun.
  destruct (func w) as [[v1|e|] w1] eqn:Hone; cbn in Hrun; try discriminate.
  - injection Hrun as <- <-. eauto.
  - destruct (attempts + 1 >=? N); [discriminate|].
    unfold bind in Hrun.
    destruct (time_sleep d w1) as [[[]|e'|] w2]; try discriminate.
    exact (IH _ _ _ _ _ Hrun).
Qed.

End RetryEdges.

(** X1.  The wrapper leaves its loop without a [return] and without a
    [raise] (the [None] of the embedding: the [return None] that follows
    the loop) exactly when [max_attempts <= 0]; it then has not invoked
    the function at all, and the world is as it was.  With
    [max_attempts >= 1], whatever the wrapper returns is a value the
    function itself returned ([Some v] in the embedding; in Python [v] may
    itself be [None], as it is for [create_tables]), and the world is the
    one in which the function returned it. *)
Theorem retry_falls_through_iff {Remote A : Type} (N : Z) (d b : Q)
    (func : @Exec Remote A) (w : @World Remote) :
  (fst (retry N d b func w) = Return None <-> N <= 0)
  /\ (N <= 0 -> retry N d b func w = (Return None, w))
  /\ (1 <= N ->
      forall r w',
        retry N d b func w = (Return r, w') ->
        exists v w1, r = Some v /\ func w1 = (Return v, w')).
Proof.
  assert (Hnone : N <= 0 -> retry N d b func w = (Return None, w)).
  { intros HN. unfold retry. cbn [retry_loop].
    destruct (Z.ltb_spec 0 N); [lia|reflexivity]. }
  split; [|split; [exact Hnone|]].
  - split.
    + intros H. destruct (Z_le_gt_dec N 0) as [|Hpos]; [assumption|].
      exfalso. revert H. apply retry_loop_not_None. lia.
    + intros HN. rewrite (Hnone HN). reflexivity.
  - intros HN r w' Hrun. destruct r as [v|].
    + unfold retry in Hrun. apply retry_loop_returns_from in Hrun.
      destruct Hrun as (w1 & Hone). eauto.
    + exfalso.
      apply (retry_loop_not_None N b func (S (Z.to_nat N)) 0 d w); [lia|].
      unfold retry in Hrun. rewrite Hrun. reflexivity.
Qed.

Lemma retry_falls_through_iff_witness :
  exists v w1,
    Some "success" = Some v
    /\ invoke success_func w1
       = (Return v,
          snd (retry 3 1 2 (invoke success_func)
                 (fresh_world (CircuitBreaker_init 5 60) 0 0%nat))).
Proof.
  apply (proj2 (proj2 (retry_falls_through_iff 3 1 2 (invoke success_func)
                         (fresh_world (CircuitBreaker_init 5 60) 0 0%nat)))).
  - lia.
  - reflexivity.
Defined.

(** ** The circuit breaker between calls *)

(** X2.  A breaker built with a positive threshold starts well-formed, and
    every call of an outside operation leaves a well-formed breaker
    well-formed, with its two settings unchanged.  The call ends in one of
    three ways: the operation was invoked and returned, and its value is
    returned; it was invoked and raised, and its exception is raised; or
    the call was turned away with the circuit-open exception, the world
    being left as it was.  So the breaker is never found Half-Open by a
    call, and never Open without the time of a failure. *)
Theorem breaker_stays_well_formed {Remote A : Type} (op : @Op Remote A) :
  (forall threshold timeout,
      1 <= threshold -> breaker_ok (CircuitBreaker_init threshold timeout))
  /\ (forall (w : @World Remote) r w',
        breaker_ok (circuit_breaker w) ->
        CircuitBreaker_call (invoke op) w = (r, w') ->
        breaker_ok (circuit_breaker w')
        /\ failure_threshold (circuit_breaker w')
           = failure_threshold (circuit_breaker w)
        /\ recovery_timeout (circuit_breaker w')
           = recovery_timeout (circuit_breaker w)
        /\ ((exists v, r = Return v /\ op (outside w) = (inr v, outside w'))
            \/ (exists e, r = Raise e /\ op (outside w) = (inl e, outside w'))
            \/ (r = Raise (Exception "Circuit breaker is OPEN") /\ w' = w))).
Proof.
  split.
  { intros threshold timeout Hth. split; [exact Hth|]. simpl. lia. }
  intros w r w' [Hth Hok] Hcall.
  destruct w as [o l [th rt fc lf st] rc m t n]. cbn in Hth, Hok.
  destruct (op o) as [[e|v] o'] eqn:Hop.
  - (* the operation, if invoked, raises *)
    destruct st; [| |contradiction].
    + rewrite (call_failure op _ e o') in Hcall; [|discriminate|exact Hop].
      injection Hcall as <- <-. cbn.
      destruct (Z.geb_spec (fc + 1) th); cbn;
        (split; [split; [exact Hth|]|]); cbn; try lia.
      * split; [lia|discriminate].
      * split; [reflexivity|]. split; [reflexivity|]. right. left. eauto.
      * split; [reflexivity|]. split; [reflexivity|]. right. left. eauto.
    + destruct Hok as [Hfc Hlf]. destruct lf as [last|]; [|congruence].
      destruct (Qlt_le_dec rt (clock o - last)) as [Hexp|Hin].
      * rewrite (call_open_expired _ _ last) in Hcall;
          [|reflexivity|reflexivity|exact Hexp].
        rewrite (call_failure op _ e o') in Hcall; [|discriminate|exact Hop].
        injection Hcall as <- <-. cbn.
        destruct (Z.geb_spec (fc + 1) th); [|lia]. cbn.
        split; [split; [exact Hth|cbn; split; [lia|discriminate]]|].
        split; [reflexivity|]. split; [reflexivity|]. right. left. eauto.
      * rewrite (call_open_rejected _ _ last) in Hcall;
          [|reflexivity|reflexivity|exact Hin].
        injection Hcall as <- <-. cbn.
        split; [split; [exact Hth|cbn; split; [lia|discriminate]]|].
        split; [reflexivity|]. split; [reflexivity|]. right. right. split; reflexivity.
  - (* the operation, if invoked, returns *)
    destruct st; [| |contradiction].
    + rewrite (call_closed_success op _ v o') in Hcall; [|reflexivity|exact Hop].
      injection Hcall as <- <-. cbn.
      split; [split; [exact Hth|exact Hok]|].
      split; [reflexivity|]. split; [reflexivity|]. left. eauto.
    + destruct Hok as [Hfc Hlf]. destruct lf as [last|]; [|congruence].
      destruct (Qlt_le_dec rt (clock o - last)) as [Hexp|Hin].
      * rewrite (call_open_expired _ _ last) in Hcall;
          [|reflexivity|reflexivity|exact Hexp].
        rewrite (call_half_open_success op _ v o') in Hcall;
          [|reflexivity|exact Hop].
        injection Hcall as <- <-. cbn.
        split; [split; [exact Hth|cbn; lia]|].
        split; [reflexivity|]. split; [reflexivity|]. left. eauto.
      * rewrite (call_open_rejected _ _ last) in Hcall;
          [|reflexivity|reflexivity|exact Hin].
        injection Hcall as <- <-. cbn.
        split; [split; [exact Hth|cbn; split; [lia|discriminate]]|].
        split; [reflexivity|]. split; [reflexivity|]. right. right. split; reflexivity.
Qed.

Lemma breaker_stays_well_formed_witness :
  exists r w',
    CircuitBreaker_call (invoke failing_func)
      (fresh_world (CircuitBreaker_init 1 60) 0 0%nat) = (r, w')
    /\ breaker_ok (circuit_breaker w').
Proof.
  destruct (CircuitBreaker_call (invoke failing_func)
              (fresh_world (CircuitBreaker_init 1 60) 0 0%nat))
    as [r w'] eqn:Hcall.
  exists r, w'. split; [reflexivity|].
  refine (proj1 (proj2 (breaker_stays_well_formed failing_func) _ r w' _ Hcall)).
  apply (proj1 (breaker_stays_well_formed failing_func)). lia.
Defined.

(** X3.  A trial call that fails re-opens the breaker and restarts the
    cooldown: when the breaker is Open with at least
    [failure_threshold - 1] failures counted, the recovery timeout has
    expired and the operation raises, the exception is raised, the counter
    goes up by one, the breaker is Open, and the time recorded is that of
    this failure; calls made within [recovery_timeout] of it are turned
    away. *)
Theorem failed_trial_reopens {Remote A : Type} (op : @Op Remote A)
    (w : @World Remote) last e o' :
  state (circuit_breaker w) = OPEN ->
  last_failure_time (circuit_breaker w) = Some last ->
  failure_threshold (circuit_breaker w) <= failure_count (circuit_breaker w) + 1 ->
  (recovery_timeout (circuit_breaker w) < clock (outside w) - last)%Q ->
  op (outside w) = (inl e, o') ->
  exists w',
    CircuitBreaker_call (invoke op) w = (Raise e, w')
    /\ state (circuit_breaker w') = OPEN
    /\ failure_count (circuit_breaker w') = failure_count (circuit_breaker w) + 1
    /\ last_failure_time (circuit_breaker w') = Some (clock o')
    /\ log w' = log w ++ [EvCall (Some e)]
    /\ forall o B (func : Exec B),
         (clock o - clock o' <= recovery_timeout (circuit_breaker w))%Q ->
         CircuitBreaker_call func (set_outside o w')
         = (Raise (Exception "Circuit breaker is OPEN"), set_outside o w').
Proof.
  intros Hst Hlast Hfc Hexp Hop.
  destruct w as [o l [th rt fc lf st] rc m t n]. cbn in *. subst st lf.
  rewrite (call_open_expired _ _ last); [|reflexivity|reflexivity|exact Hexp].
  rewrite (call_failure op _ e o'); [|discriminate|exact Hop]. cbn.
  destruct (Z.geb_spec (fc + 1) th); [|lia].
  eexists. split; [reflexivity|]. cbn.
  split; [reflexivity|]. split; [reflexivity|]. split; [reflexivity|].
  split; [reflexivity|].
  intros o2 B func Hin.
  apply (call_open_rejected func _ (clock o')); [reflexivity|reflexivity|exact Hin].
Qed.

Lemma failed_trial_reopens_witness :
  exists w',
    CircuitBreaker_call (invoke failing_func)
      (fresh_world (mkCircuitBreaker 2 60 2 (Some 0%Q) OPEN) 100 2%nat)
    = (Raise (Exception "API Error"), w')
    /\ state (circuit_breaker w') = OPEN
    /\ last_failure_time (circuit_breaker w') = Some 100%Q.
Proof.
  destruct (failed_trial_reopens failing_func
              (fresh_world (mkCircuitBreaker 2 60 2 (Some 0%Q) OPEN) 100 2%nat)
              0%Q (Exception "API Error") (mkOutside 100 3%nat)
              eq_refl eq_refl)
    as (w' & Hcall & Hst & _ & Hlast & _).
  - cbn. lia.
  - reflexivity.
  - reflexivity.
  - exists w'. split; [exact Hcall|]. split; [exact Hst|exact Hlast].
Defined.

(** ** Relations that code respects *)

Section Respects.
Context {Remote : Type} (R : relation (@World Remote)) `{!PreOrder R}.
Implicit Types (w : @World Remote).

Lemma respects_ret {A} (a : A) : respects R (@ret Remote A a).
Proof. intros w. reflexivity. Qed.

Lemma respects_raise {A} e : respects R (@raise Remote A e).
Proof. intros w. reflexivity. Qed.

Lemma respects_out_of_fuel {A} : respects R (@out_of_fuel Remote A).
Proof. intros w. reflexivity. Qed.

Lemma respects_get {A} (f : @World Remote -> A) : respects R (get f).
Proof. intros w. reflexivity. Qed.

Lemma respects_modify (f : @World Remote -> @World Remote) :
  (forall w, R w (f w)) -> respects R (modify f).
Proof. intros H w. apply H. Qed.

Lemma respects_bind {A B} (m : @Exec Remote A) (k : A -> @Exec Remote B) :
  respects R m -> (forall a, respects R (k a)) -> respects R (bind m k).
Proof.
  intros Hm Hk w. unfold bind. specialize (Hm w).
  destruct (m w) as [[a|e|] w1]; cbn in *; try exact Hm.
  etransitivity; [exact Hm|apply Hk].
Qed.

Lemma respects_try_except {A} (body : @Exec Remote A) handler :
  respects R body -> (forall e, respects R (handler e)) ->
  respects R (try_except body handler).
Proof.
  intros Hb Hh w. unfold try_except. specialize (Hb w).
  destruct (body w) as [[a|e|] w1]; cbn in *; try exact Hb.
  etransitivity; [exact Hb|apply Hh].
Qed.

Lemma respects_retry_loop {A} N b (func : @Exec Remote A) :
  respects R func ->
  (forall d, respects R (time_sleep d)) ->
  forall fuel attempts d, respects R (retry_loop fuel N b func attempts d).
Proof.
  intros Hf Hs. induction fuel as [|fuel IH]; intros attempts d;
    [apply respects_out_of_fuel|].
  cbn [retry_loop]. destruct (attempts <? N); [|apply respects_ret].
  apply respects_try_except.
  - apply respects_bind; [exact Hf|intros a; apply respects_ret].
  - intros e. destruct (attempts + 1 >=? N); [apply respects_raise|].
    apply respects_bind; [apply Hs|intros _; apply IH].
Qed.

Lemma respects_CircuitBreaker_call {A} (func : @Exec Remote A) :
  respects R func ->
  (forall f, respects R (update_breaker f)) ->
  respects R (CircuitBreaker_call func).
Proof.
  intros Hf Hu. unfold CircuitBreaker_call.
  apply respects_bind.
  - apply respects_bind; [apply respects_get|]. intros self.
    destruct (state self); try apply respects_ret.
    apply respects_bind; [apply respects_get|]. intros now.
    destruct (last_failure_time self); [|apply respects_raise].
    destruct (Qgt_bool _ _); [apply Hu|apply respects_raise].
  - intros _. apply respects_try_except.
    + apply respects_bind; [exact Hf|]. intros result.
      apply respects_bind; [apply respects_get|]. intros self.
      apply respects_bind; [|intros _; apply respects_ret].
      destruct (state self); try apply respects_ret.
      apply respects_bind; [apply Hu|intros _; apply Hu].
    + intros e.
      apply respects_bind; [apply Hu|]. intros _.
      apply respects_bind; [apply respects_get|]. intros now.
      apply respects_bind; [apply Hu|]. intros _.
      apply respects_bind; [apply respects_get|]. intros self.
      apply respects_bind; [|intros _; apply respects_raise].
      destruct (_ >=? _); [apply Hu|apply respects_ret].
Qed.

End Respects.

#[global] Instance same_preorder {Remote T : Type} (part : @World Remote -> T) :
  PreOrder (same part).
Proof.
  split; [intros w; reflexivity|].
  intros w1 w2 w3 H12 H23. unfold same in *. congruence.
Qed.

Section SameParts.
Context {Remote T : Type} (part : @World Remote -> T).

(** Code working on the outside and the log only leaves an inner part
    alone. *)
Lemma same_time_sleep d : inner_part part -> respects (same part) (time_sleep d).
Proof.
  intros Hp w. unfold time_sleep.
  destruct (Qle_bool 0 d); [apply Hp|reflexivity].
Qed.

Lemma same_invoke {A} (op : @Op Remote A) :
  inner_part part -> respects (same part) (invoke op).
Proof.
  intros Hp w. unfold invoke. destruct (op (outside w)) as [[e|a] o]; apply Hp.
Qed.

End SameParts.

(** ** The client: retry around the breaker around the request *)

Section RetrySteps.
Context {Remote A : Type}.
Implicit Types (w : @World Remote) (func : @Exec Remote A).


Lemma retry_loop_raise_last fuel N b func attempts d w e w1 :
  attempts < N -> N <= attempts + 1 -> func w = (Raise e, w1) ->
  retry_loop (S fuel) N b func attempts d w = (Raise e, w1).
Proof.
  intros Hlt Hge Hrun. cbn [retry_loop]. destruct (Z.ltb_spec attempts N); [|lia].
  unfold try_except, bind. rewrite Hrun.
  destruct (Z.geb_spec (attempts + 1) N); [reflexivity|lia].
Qed.

Lemma retry_loop_raise_again fuel N b func attempts d w e w1 :
  attempts + 1 < N -> (0 <= d)%Q -> func w = (Raise e, w1) ->
  retry_loop (S fuel) N b func attempts d w
  = retry_loop fuel N b func (attempts + 1) (d * b)%Q (after_sleep d w1).
Proof.
  intros Hlt Hd Hrun. cbn [retry_loop]. destruct (Z.ltb_spec attempts N); [|lia].
  unfold try_except, bind at 1. rewrite Hrun.
  destruct (Z.geb_spec (attempts + 1) N); [lia|].
  unfold bind. rewrite (time_sleep_nonneg _ _ Hd). reflexivity.
Qed.

(** One pass of the wrapper's loop, with a delay that [time.sleep]
    accepts; and with any delay. *)
Lemma retry_loop_unfold fuel N b func attempts d w :
  (0 <= d)%Q ->
  retry_loop (S fuel) N b func attempts d w
  = if attempts <? N then
      match func w with
      | (Return v, w1) => (Return (Some v), w1)
      | (Raise e, w1) =>
        if attempts + 1 >=? N then (Raise e, w1)
        else retry_loop fuel N b func (attempts + 1) (d * b)%Q (after_sleep d w1)
      | (OutOfFuel, w1) => (OutOfFuel, w1)
      end
    else (Return None, w).
Proof.
  intros Hd. cbn [retry_loop]. destruct (attempts <? N); [|reflexivity].
  unfold try_except, bind at 1. destruct (func w) as [[v|e|] w1]; try reflexivity.
  destruct (attempts + 1 >=? N); [reflexivity|].
  unfold bind. rewrite (time_sleep_nonneg _ _ Hd). reflexivity.
Qed.

Lemma retry_loop_unfold_any fuel N b func attempts d w :
  retry_loop (S fuel) N b func attempts d w
  = if attempts <? N then
      match func w with
      | (Return v, w1) => (Return (Some v), w1)
      | (Raise e, w1) =>
        if attempts + 1 >=? N then (Raise e, w1)
        else if Qle_bool 0 d
             then retry_loop fuel N b func (attempts + 1) (d * b)%Q
                             (after_sleep d w1)
             else (Raise (Exception "sleep length must be non-negative"), w1)
      | (OutOfFuel, w1) => (OutOfFuel, w1)
      end
    else (Return None, w).
Proof.
  cbn [retry_loop]. destruct (attempts <? N); [|reflexivity].
  unfold try_except, bind at 1. destruct (func w) as [[v|e|] w1]; try reflexivity.
  destruct (attempts + 1 >=? N); [reflexivity|].
  unfold bind, time_sleep. destruct (Qle_bool 0 d); reflexivity.
Qed.

End RetrySteps.

Section ClientProperties.
Context {Remote Raw : Type} (api_delay : Q).
Context (session_get : Params -> @Op Remote (HttpResponse Raw)).
Implicit Types (w : @World Remote).

Local Abbreviation attempt := (search_jobs_undecorated api_delay session_get).
Local Abbreviation search := (search_jobs api_delay session_get).

Lemma attempt_unfold keyword location results_per_page page :
  attempt keyword location results_per_page page
  = try_except
      (CircuitBreaker_call
         (make_request api_delay session_get
            (request_params keyword location results_per_page page)))
      (fun e => raise e).
Proof. reflexivity. Qed.

(** One attempt while the breaker is Closed, the request failing. *)
Lemma attempt_fails keyword location results_per_page page w e o1 :
  state (circuit_breaker w) = CLOSED ->
  request_fails session_get
    (request_params keyword location results_per_page page) (outside w) e o1 ->
  exists w1,
    attempt keyword location results_per_page page w = (Raise e, w1)
    /\ outside w1 = o1
    /\ circuit_breaker w1 = failed_once (clock o1) (circuit_breaker w)
    /\ request_count w1 = request_count w + 1
    /\ calls_of (log w1) = calls_of (log w) + 1
    /\ metrics w1 = metrics w.
Proof.
  intros Hst Hfail. rewrite attempt_unfold.
  generalize dependent (request_params keyword location results_per_page page).
  intros params Hfail.
  destruct w as [o l [th rt fc lf st] rc m t n].
  cbn in Hst, Hfail. subst st.
  unfold CircuitBreaker_call, make_request.
  unfold calls_of, calls_in.
  unfold try_except, bind, get, invoke, modify, update_breaker, time_time,
    raise, ret.
  destruct Hfail as [Hget|(response & Hget & Hstatus)].
  - cbn. rewrite Hget. cbn. unfold failed_once. cbn.
    destruct (fc + 1 >=? th); eexists; (split; [reflexivity|]); cbn;
      rewrite omap_app, length_app; cbn; repeat split; lia.
  - cbn. rewrite Hget. cbn. rewrite Hstatus. cbn. unfold failed_once. cbn.
    destruct (fc + 1 >=? th); eexists; (split; [reflexivity|]); cbn;
      rewrite omap_app, length_app; cbn; repeat split; lia.
Qed.

(** One attempt while the breaker is Open and cooling down. *)
Lemma attempt_rejected keyword location results_per_page page w last :
  state (circuit_breaker w) = OPEN ->
  last_failure_time (circuit_breaker w) = Some last ->
  (clock (outside w) - last <= recovery_timeout (circuit_breaker w))%Q ->
  attempt keyword location results_per_page page w
  = (Raise (Exception "Circuit breaker is OPEN"), w).
Proof.
  intros Hst Hlast Hin. rewrite attempt_unfold. unfold try_except.
  rewrite (call_open_rejected _ _ last Hst Hlast Hin). reflexivity.
Qed.


Lemma after_sleep_fields d w :
  circuit_breaker (after_sleep d w) = circuit_breaker w
  /\ request_count (after_sleep d w) = request_count w
  /\ calls_of (log (after_sleep d w)) = calls_of (log w)
  /\ clock (outside (after_sleep d w)) = (clock (outside w) + d)%Q
  /\ metrics (after_sleep d w) = metrics w.
Proof.
  repeat split. unfold calls_of, calls_in. cbn.
  rewrite omap_app, length_app. cbn. lia.
Qed.


(** X5.  While the breaker is Open and stays within its recovery timeout
    for the six seconds the retries take, [search_jobs] sends no request:
    each of its three attempts is turned away, it waits 2 and then 4
    seconds between them, and it raises the circuit-open exception; apart
    from the time that passed and the two waits logged, the world is as it
    was. *)
Theorem search_jobs_while_open keyword location results_per_page page w last :
  state (circuit_breaker w) = OPEN ->
  last_failure_time (circuit_breaker w) = Some last ->
  (clock (outside w) + 2 + 2 * 2 - last
   <= recovery_timeout (circuit_breaker w))%Q ->
  search keyword location results_per_page page w
  = (Raise (Exception "Circuit breaker is OPEN"),
     after_sleep (2 * 2) (after_sleep 2 w))
  /\ calls_of (log (after_sleep (2 * 2) (after_sleep 2 w))) = calls_of (log w)
  /\ request_count (after_sleep (2 * 2) (after_sleep 2 w)) = request_count w.
Proof.
  intros Hst Hlast Hin. split.
  - unfold search_jobs, retry. change (Z.to_nat 3) with 3%nat.
    erewrite retry_loop_raise_again; [|lia|lra|].
    2:{ apply (attempt_rejected _ _ _ _ _ last); [exact Hst|exact Hlast|lra]. }
    erewrite retry_loop_raise_again; [|lia|lra|].
    2:{ apply (attempt_rejected _ _ _ _ _ last); [exact Hst|exact Hlast|].
        cbn. lra. }
    erewrite retry_loop_raise_last; [reflexivity|lia|lia|].
    apply (attempt_rejected _ _ _ _ _ last); [exact Hst|exact Hlast|].
    cbn. lra.
  - split; [|reflexivity].
    rewrite (proj1 (proj2 (proj2 (after_sleep_fields _ _)))).
    apply after_sleep_fields.
Qed.

(** X6.  With the client's settings (3 attempts, threshold 5, recovery
    timeout 60), an API whose requests all fail is contacted three times
    by a first [search_jobs], which raises the third failure and leaves
    the breaker Closed with 3 failures counted; a second [search_jobs],
    whenever it is made, contacts it twice more, which opens the breaker,
    has its third attempt turned away, and raises the circuit-open
    exception in place of the API's. *)
Theorem failing_api_trips_breaker keyword location results_per_page page w :
  circuit_breaker w = CircuitBreaker_init 5 60 ->
  (forall params o, exists e o1, request_fails session_get params o e o1) ->
  exists e w1,
    search keyword location results_per_page page w = (Raise e, w1)
    /\ request_count w1 = request_count w + 3
    /\ calls_of (log w1) = calls_of (log w) + 3
    /\ state (circuit_breaker w1) = CLOSED
    /\ failure_count (circuit_breaker w1) = 3
    /\ forall keyword' location' results_per_page' page' o,
         exists w2,
           search keyword' location' results_per_page' page' (set_outside o w1)
           = (Raise (Exception "Circuit breaker is OPEN"), w2)
           /\ request_count w2 = request_count w + 5
           /\ calls_of (log w2) = calls_of (log w) + 5
           /\ state (circuit_breaker w2) = OPEN
           /\ failure_count (circuit_breaker w2) = 5.
Proof.
  intros Hcb Hfail.
  (* first call, attempts 1 to 3 *)
  destruct (Hfail (request_params keyword location results_per_page page)
                  (outside w)) as (e1 & o1 & Hf1).
  destruct (attempt_fails _ _ _ _ w e1 o1 ltac:(rewrite Hcb; reflexivity) Hf1)
    as (wa & Hrun1 & Hout1 & Hcb1 & Hrc1 & Hcalls1 & _).
  rewrite Hcb in Hcb1. cbn in Hcb1.
  destruct (Hfail (request_params keyword location results_per_page page)
                  (outside (after_sleep 2 wa))) as (e2 & o2 & Hf2).
  destruct (attempt_fails _ _ _ _ (after_sleep 2 wa) e2 o2
              ltac:(cbn; rewrite Hcb1; reflexivity) Hf2)
    as (wb & Hrun2 & Hout2 & Hcb2 & Hrc2 & Hcalls2 & _).
  cbn in Hcb2, Hrc2. rewrite Hcb1 in Hcb2. cbn in Hcb2.
  rewrite (proj1 (proj2 (proj2 (after_sleep_fields _ _)))) in Hcalls2.
  destruct (Hfail (request_params keyword location results_per_page page)
                  (outside (after_sleep (2 * 2) wb))) as (e3 & o3 & Hf3).
  destruct (attempt_fails _ _ _ _ (after_sleep (2 * 2) wb) e3 o3
              ltac:(cbn; rewrite Hcb2; reflexivity) Hf3)
    as (wc & Hrun3 & Hout3 & Hcb3 & Hrc3 & Hcalls3 & _).
  cbn in Hcb3, Hrc3. rewrite Hcb2 in Hcb3. cbn in Hcb3.
  rewrite (proj1 (proj2 (proj2 (after_sleep_fields _ _)))) in Hcalls3.
  exists e3, wc. split.
  { unfold search_jobs, retry. change (Z.to_nat 3) with 3%nat.
    erewrite retry_loop_raise_again; [|lia|lra|exact Hrun1].
    erewrite retry_loop_raise_again; [|lia|lra|exact Hrun2].
    erewrite retry_loop_raise_last; [reflexivity|lia|lia|exact Hrun3]. }
  split; [lia|]. split; [lia|]. rewrite Hcb3.
  split; [reflexivity|]. split; [reflexivity|].
  (* second call, attempts 4 and 5, then the rejection *)
  intros keyword' location' results_per_page' page' o.
  set (params' := request_params keyword' location' results_per_page' page').
  destruct (Hfail params' (outside (set_outside o wc))) as (e4 & o4 & Hf4).
  destruct (attempt_fails _ _ _ _ (set_outside o wc) e4 o4
              ltac:(cbn; rewrite Hcb3; reflexivity) Hf4)
    as (wd & Hrun4 & Hout4 & Hcb4 & Hrc4 & Hcalls4 & _).
  cbn in Hcb4, Hrc4, Hcalls4. rewrite Hcb3 in Hcb4. cbn in Hcb4.
  destruct (Hfail params' (outside (after_sleep 2 wd))) as (e5 & o5 & Hf5).
  destruct (attempt_fails _ _ _ _ (after_sleep 2 wd) e5 o5
              ltac:(cbn; rewrite Hcb4; reflexivity) Hf5)
    as (we & Hrun5 & Hout5 & Hcb5 & Hrc5 & Hcalls5 & _).
  cbn in Hcb5, Hrc5. rewrite Hcb4 in Hcb5. cbn in Hcb5.
  rewrite (proj1 (proj2 (proj2 (after_sleep_fields _ _)))) in Hcalls5.
  exists (after_sleep (2 * 2) we). split.
  { unfold search_jobs, retry. change (Z.to_nat 3) with 3%nat.
    erewrite retry_loop_raise_again; [|lia|lra|exact Hrun4].
    erewrite retry_loop_raise_again; [|lia|lra|exact Hrun5].
    erewrite retry_loop_raise_last; [reflexivity|lia|lia|].
    apply (attempt_rejected _ _ _ _ _ (clock o5)).
    - cbn. rewrite Hcb5. reflexivity.
    - cbn. rewrite Hcb5. reflexivity.
    - cbn. rewrite Hcb5, Hout5. cbn. lra. }
  split; [cbn; lia|].
  split; [rewrite (proj1 (proj2 (proj2 (after_sleep_fields _ _)))); lia|].
  cbn. rewrite Hcb5. split; reflexivity.
Qed.

(** One attempt sends at most one request, and counts it. *)
Lemma attempt_accounting keyword location results_per_page page w :
  let w' := snd (attempt keyword location results_per_page page w) in
  request_count w' - request_count w = calls_of (log w') - calls_of (log w)
  /\ 0 <= request_count w' - request_count w <= 1.
Proof.
  rewrite attempt_unfold.
  generalize (request_params keyword location results_per_page page).
  intros params. destruct w as [o l [th rt fc lf st] rc m t n].
  unfold CircuitBreaker_call, make_request.
  unfold try_except, bind, get, invoke, modify, update_breaker, time_time,
    time_sleep, raise, ret.
  unfold calls_of, calls_in. cbn.
  destruct st; cbn;
    try (destruct lf as [last|]; cbn; [|lia];
         destruct (Qgt_bool (clock o - last) rt); cbn; [|lia]);
    (destruct (session_get params o) as [[e|response] o1]; cbn;
     [|destruct (raise_for_status response); cbn;
       [|destruct (Qle_bool 0 api_delay); cbn;
         [destruct (json response); cbn|]]]);
    try (destruct (fc + 1 >=? th); cbn);
    rewrite ?omap_app, ?length_app; cbn; lia.
Qed.

Lemma retry_accounting keyword location results_per_page page N b fuel :
  forall attempts d w,
    let w' := snd (retry_loop fuel N b
                     (attempt keyword location results_per_page page)
                     attempts d w) in
    request_count w' - request_count w = calls_of (log w') - calls_of (log w)
    /\ 0 <= request_count w' - request_count w <= Z.max 0 (N - attempts).
Proof.
  induction fuel as [|fuel IH]; intros attempts d w; [cbn -[Z.max]; lia|].
  rewrite retry_loop_unfold_any.
  destruct (Z.ltb_spec attempts N); [|cbn -[Z.max]; lia].
  pose proof (attempt_accounting keyword location results_per_page page w) as Hone.
  cbv zeta in Hone.
  destruct (attempt keyword location results_per_page page w) as [[v|e|] w1];
    cbn [snd] in Hone |- *; [lia| |lia].
  destruct (Z.geb_spec (attempts + 1) N); [cbn [snd]; lia|].
  destruct (Qle_bool 0 d); [|cbn [snd]; lia].
  specialize (IH (attempts + 1) (d * b)%Q (after_sleep d w1)). cbv zeta in IH.
  destruct (after_sleep_fields d w1) as (_ & Hrc & Hcalls & _).
  rewrite Hrc, Hcalls in IH. cbv zeta. lia.
Qed.

Lemma search_accounting keyword location results_per_page page w :
  let w' := snd (search keyword location results_per_page page w) in
  request_count w' - request_count w = calls_of (log w') - calls_of (log w)
  /\ 0 <= request_count w' - request_count w <= 3.
Proof. apply (retry_accounting keyword location results_per_page page 3). Qed.

(** X7.  However it ends, [search_jobs] has sent at most three requests,
    and the request counter has gone up by exactly the number of requests
    sent. *)
Theorem search_jobs_counts_requests keyword location results_per_page page w :
  let w' := snd (search keyword location results_per_page page w) in
  request_count w' - request_count w = calls_of (log w') - calls_of (log w)
  /\ 0 <= calls_of (log w') - calls_of (log w) <= 3.
Proof.
  pose proof (search_accounting keyword location results_per_page page w) as H.
  cbv zeta in *. lia.
Qed.

End ClientProperties.


Lemma search_jobs_while_open_witness :
  fst (search_jobs (3 # 2) (api_server 3) "data engineering" None 500 1
         (fresh_world (mkCircuitBreaker 5 60 5 (Some 0%Q) OPEN) 10 0%nat))
  = Raise (Exception "Circuit breaker is OPEN").
Proof.
  rewrite (proj1 (search_jobs_while_open (3 # 2) (api_server 3)
                    "data engineering" None 500 1
                    (fresh_world (mkCircuitBreaker 5 60 5 (Some 0%Q) OPEN) 10 0%nat)
                    0%Q eq_refl eq_refl ltac:(vm_compute; discriminate))).
  reflexivity.
Defined.

Lemma failing_api_trips_breaker_witness :
  exists e w1,
    search_jobs (3 # 2) throttling_server "data engineering" None 500 1
      (fresh_world (CircuitBreaker_init 5 60) 0 0%nat)
    = (Raise e, w1)
    /\ failure_count (circuit_breaker w1) = 3.
Proof.
  destruct (failing_api_trips_breaker (3 # 2) throttling_server
              "data engineering" None 500 1
              (fresh_world (CircuitBreaker_init 5 60) 0 0%nat) eq_refl)
    as (e & w1 & Hrun & _ & _ & _ & Hfc & _).
  - intros params o. eexists. eexists. left. reflexivity.
  - exists e, w1. split; [exact Hrun|exact Hfc].
Defined.

(** ** What the pagination loop leaves alone, and what it sends *)

Section LoopRespects.
Context {Remote Raw : Type} (api_delay : Q).
Context (session_get : Params -> @Op Remote (HttpResponse Raw)).
Context (_parse_location _parse_remuneration : option Raw -> string).
Context (_parse_date : option Raw -> option string).
Context (first_entry : string -> option Raw -> exn + string).
Context (R : relation (@World Remote)) `{!PreOrder R}.
Context (R_metrics : forall w m, R w (set_metrics m w)).
Implicit Types (w : @World Remote).

Local Abbreviation search := (search_jobs api_delay session_get).
Local Abbreviation rest :=
  (@after_fetch Remote Raw _parse_location _parse_remuneration _parse_date
                first_entry).
Local Abbreviation try_block :=
  (page_try api_delay session_get _parse_location _parse_remuneration
            _parse_date first_entry).
Local Abbreviation pass :=
  (page_pass api_delay session_get _parse_location _parse_remuneration
             _parse_date first_entry).
Local Abbreviation loop :=
  (pagination_loop api_delay session_get _parse_location _parse_remuneration
                   _parse_date first_entry).

Lemma page_try_unfold keyword location page all_jobs :
  try_block keyword location page all_jobs
  = bind (search keyword location 500 page) (rest page all_jobs).
Proof. reflexivity. Qed.

Lemma respects_update_metrics f : respects R (@update_metrics Remote f).
Proof. apply respects_modify. intros w. apply R_metrics. Qed.

Lemma respects_get_SearchResult (api_response : ApiResponse Raw) :
  respects R (@get_SearchResult Remote Raw api_response).
Proof.
  destruct api_response as [[sr|]|ty]; cbn;
    [apply respects_ret|apply respects_ret|apply respects_raise]; assumption.
Qed.

Lemma respects_extract_items items : forall jobs,
  respects R (@extract_items Remote Raw _parse_location _parse_remuneration
                _parse_date first_entry items jobs).
Proof.
  induction items as [|item items IH]; intros jobs; cbn [extract_items].
  - apply respects_ret; assumption.
  - apply respects_bind; [assumption|apply respects_get; assumption|].
    intros now. destruct (make_job _ _ _ _ now item) as [job|]; [|apply IH].
    destruct (validate job); apply IH.
Qed.

Lemma respects_extract_job_data api_response :
  respects R (@extract_job_data Remote Raw _parse_location _parse_remuneration
                _parse_date first_entry api_response).
Proof.
  unfold extract_job_data.
  apply respects_try_except; [assumption| |intros e; apply respects_raise; assumption].
  apply respects_bind; [assumption|apply respects_get_SearchResult|].
  intros sr. apply respects_extract_items.
Qed.

Lemma respects_after_fetch page all_jobs r : respects R (rest page all_jobs r).
Proof.
  unfold after_fetch.
  apply respects_bind; [assumption|apply respects_update_metrics|]. intros _.
  apply respects_bind; [assumption|apply respects_get_SearchResult|].
  intros search_result. destruct (get_items search_result) as [|item items];
    [apply respects_ret; assumption|].
  apply respects_bind; [assumption|apply respects_extract_job_data|]. intros jobs.
  apply respects_bind; [assumption|apply respects_update_metrics|]. intros _.
  destruct (_ || _); apply respects_ret; assumption.
Qed.

Lemma respects_page_except page all_jobs e :
  respects R (@page_except Remote page all_jobs e).
Proof.
  unfold page_except.
  apply respects_bind; [assumption|apply respects_update_metrics|]. intros _.
  destruct (negb _); apply respects_ret; assumption.
Qed.

Context (R_search : forall keyword location results_per_page page,
            respects R (search keyword location results_per_page page)).
Context (R_page : forall w page, R w (set_log (log w ++ [EvPage page]) w)).

Lemma respects_page_pass keyword location page all_jobs :
  respects R (pass keyword location page all_jobs).
Proof.
  unfold page_pass.
  apply respects_bind; [assumption|apply respects_modify; intros w; apply R_page|].
  intros _. apply respects_try_except; [assumption| |apply respects_page_except].
  rewrite page_try_unfold.
  apply respects_bind; [assumption|apply R_search|apply respects_after_fetch].
Qed.

Lemma respects_pagination_loop keyword location max_pages fuel :
  forall page all_jobs,
    respects R (loop fuel keyword location max_pages page all_jobs).
Proof.
  induction fuel as [|fuel IH]; intros page all_jobs;
    [apply respects_out_of_fuel; assumption|].
  cbn [pagination_loop]. destruct (page <=? max_pages);
    [|apply respects_ret; assumption].
  apply respects_bind; [assumption|apply respects_page_pass|].
  intros [[[|] page'] all_jobs']; [apply respects_ret; assumption|apply IH].
Qed.

End LoopRespects.

Section Frames.
Context {Remote Raw : Type} (api_delay : Q).
Context (session_get : Params -> @Op Remote (HttpResponse Raw)).
Context (_parse_location _parse_remuneration : option Raw -> string).
Context (_parse_date : option Raw -> option string).
Context (first_entry : string -> option Raw -> exn + string).
Context (psycopg2_connect : @Op Remote (@Connection Remote)).
Implicit Types (w : @World Remote).

Local Abbreviation search := (search_jobs api_delay session_get).
Local Abbreviation pass :=
  (page_pass api_delay session_get _parse_location _parse_remuneration
             _parse_date first_entry).
Local Abbreviation loop :=
  (pagination_loop api_delay session_get _parse_location _parse_remuneration
                   _parse_date first_entry).

Lemma store_inner : inner_part (@store Remote).
Proof. intros w o l. reflexivity. Qed.

Lemma client_inner : inner_part (@client Remote).
Proof. intros w o l. reflexivity. Qed.

Lemma search_keeps_store keyword location results_per_page page :
  respects (same store) (search keyword location results_per_page page).
Proof.
  unfold search_jobs, retry.
  apply respects_retry_loop; [apply _| |intros d; apply same_time_sleep, store_inner].
  rewrite attempt_unfold.
  apply respects_try_except; [apply _| |intros e; apply respects_raise; apply _].
  apply respects_CircuitBreaker_call; [apply _| |intros f w; reflexivity].
  unfold make_request.
  apply respects_bind; [apply _|intros w; reflexivity|]. intros _.
  apply respects_bind; [apply _|apply same_invoke, store_inner|]. intros response.
  apply respects_bind; [apply _| |].
  { destruct (raise_for_status response);
      [apply respects_raise|apply respects_ret]; apply _. }
  intros _. apply respects_bind; [apply _|apply same_time_sleep, store_inner|].
  intros _. destruct (json response); [apply respects_raise|apply respects_ret];
    apply _.
Qed.

(** X8.  Fetching never writes to the database: however they end,
    [search_jobs], one pass of the pagination loop and the whole loop
    leave the table and its id sequence exactly as they were. *)
Theorem pagination_leaves_store keyword location max_pages fuel page all_jobs w :
  store (snd (search keyword location 500 page w)) = store w
  /\ store (snd (pass keyword location page all_jobs w)) = store w
  /\ store (snd (loop fuel keyword location max_pages page all_jobs w)) = store w.
Proof.
  split; [apply search_keeps_store|]. split.
  - apply (respects_page_pass api_delay session_get _parse_location
             _parse_remuneration _parse_date first_entry (same store));
      [intros w' m; reflexivity|intros; apply search_keeps_store
      |intros w' p; reflexivity].
  - apply (respects_pagination_loop api_delay session_get _parse_location
             _parse_remuneration _parse_date first_entry (same store));
      [intros w' m; reflexivity|intros; apply search_keeps_store
      |intros w' p; reflexivity].
Qed.

Lemma get_connection_keeps_client {A}
    (body : @Connection Remote -> @Exec Remote A) :
  (forall conn, respects (same client) (body conn)) ->
  respects (same client) (get_connection psycopg2_connect body).
Proof.
  intros Hb. unfold get_connection.
  apply respects_bind; [apply _|apply same_invoke, client_inner|].
  intros conn. apply respects_bind; [apply _|apply respects_get; apply _|].
  intros table. apply respects_try_except; [apply _|apply Hb|]. intros e.
  apply respects_bind; [apply _| |intros _; apply respects_raise; apply _].
  intros w. reflexivity.
Qed.

(** X9.  The database manager never touches the API client: however they
    end, [create_tables], [get_statistics] and [upsert_jobs] leave the
    circuit breaker and the request counter as they were, and the run's
    metrics too. *)
Theorem database_leaves_client jobs w :
  (client (snd (create_tables psycopg2_connect w)) = client w
   /\ metrics (snd (create_tables psycopg2_connect w)) = metrics w)
  /\ (client (snd (get_statistics psycopg2_connect w)) = client w
      /\ metrics (snd (get_statistics psycopg2_connect w)) = metrics w)
  /\ (client (snd (upsert_jobs psycopg2_connect jobs w)) = client w
      /\ metrics (snd (upsert_jobs psycopg2_connect jobs w)) = metrics w).
Proof.
  split; [|split]; (split; [|eapply quiet_metrics;
       [|apply surjective_pairing]]).
  - unfold create_tables, retry.
    apply respects_retry_loop;
      [apply _| |intros d; apply same_time_sleep, client_inner].
    apply respects_try_except; [apply _| |intros e; apply respects_raise; apply _].
    apply get_connection_keeps_client. intros conn.
    apply respects_bind; [apply _|apply same_invoke, client_inner|].
    intros _. apply same_invoke, client_inner.
  - apply quiet_create_tables.
  - unfold get_statistics.
    apply respects_try_except; [apply _| |intros e; apply respects_ret; apply _].
    apply get_connection_keeps_client. intros conn.
    apply respects_bind; [apply _|apply same_invoke, client_inner|]. intros _.
    apply respects_bind; [apply _|apply respects_get; apply _|].
    intros table. apply respects_ret; apply _.
  - apply quiet_get_statistics.
  - unfold upsert_jobs, retry.
    apply respects_retry_loop;
      [apply _| |intros d; apply same_time_sleep, client_inner].
    unfold upsert_jobs_undecorated. destruct jobs as [|j jobs'];
      [apply respects_ret; apply _|].
    apply respects_try_except; [apply _| |intros e; apply respects_raise; apply _].
    apply get_connection_keeps_client. intros conn.
    apply respects_bind; [apply _| |].
    2:{ intros results.
        apply respects_bind; [apply _|apply same_invoke, client_inner|].
        intros _. apply respects_ret; apply _. }
    unfold execute_values.
    apply respects_bind; [apply _|apply same_invoke, client_inner|]. intros _.
    apply respects_bind; [apply _|apply respects_get; apply _|]. intros now.
    apply respects_bind; [apply _|apply respects_get; apply _|]. intros table.
    apply respects_bind; [apply _|apply respects_get; apply _|]. intros serial.
    destruct (upsert_statement _ _ _ _ _) as [e|[[results table'] serial']];
      [apply respects_raise; apply _|].
    apply respects_bind; [apply _| |intros _; apply respects_ret; apply _].
    intros w'. reflexivity.
  - apply quiet_upsert_jobs.
Qed.

End Frames.

Section Traffic.
Context {Remote Raw : Type} (api_delay : Q).
Context (session_get : Params -> @Op Remote (HttpResponse Raw)).
Context (_parse_location _parse_remuneration : option Raw -> string).
Context (_parse_date : option Raw -> option string).
Context (first_entry : string -> option Raw -> exn + string).
Implicit Types (w : @World Remote).

Local Abbreviation search := (search_jobs api_delay session_get).
Local Abbreviation rest :=
  (@after_fetch Remote Raw _parse_location _parse_remuneration _parse_date
                first_entry).
Local Abbreviation pass :=
  (page_pass api_delay session_get _parse_location _parse_remuneration
             _parse_date first_entry).
Local Abbreviation loop :=
  (pagination_loop api_delay session_get _parse_location _parse_remuneration
                   _parse_date first_entry).

Lemma traffic_started w page :
  traffic (set_log (log w ++ [EvPage page]) w) = traffic w.
Proof.
  unfold traffic, calls_of, calls_in. cbn.
  rewrite omap_app, length_app. cbn. f_equal. lia.
Qed.

(** One pass sends at most three requests, and counts them. *)
Lemma pass_traffic keyword location page all_jobs w :
  let w' := snd (pass keyword location page all_jobs w) in
  request_count w' - request_count w = calls_of (log w') - calls_of (log w)
  /\ 0 <= calls_of (log w') - calls_of (log w) <= 3.
Proof.
  pose proof (traffic_started w page) as Hstart.
  set (w0 := set_log (log w ++ [EvPage page]) w) in *.
  pose proof (search_accounting api_delay session_get keyword location 500 page w0)
    as Hsearch. cbv zeta in Hsearch.
  assert (Hrest : forall r, respects (same traffic) (rest page all_jobs r)).
  { intros r. apply respects_after_fetch; [apply _|]. intros w' m. reflexivity. }
  assert (Hexc : forall e, respects (same traffic)
                             (@page_except Remote page all_jobs e)).
  { intros e. apply respects_page_except; [apply _|]. intros w' m. reflexivity. }
  assert (Hsame : traffic (snd (pass keyword location page all_jobs w))
                  = traffic (snd (search keyword location 500 page w0))).
  { unfold page_pass, bind at 1, modify. fold w0.
    unfold try_except. rewrite page_try_unfold. unfold bind at 1.
    destruct (search keyword location 500 page w0) as [[r|e|] w1]; cbn [snd].
    - pose proof (Hrest r w1) as H1. unfold same in H1.
      destruct (rest page all_jobs r w1) as [[x|e|] w2]; cbn [snd] in *;
        try exact H1.
      rewrite <- H1. apply Hexc.
    - apply Hexc.
    - reflexivity. }
  cbv zeta. unfold traffic in Hsame, Hstart.
  assert (Hc : calls_of (log (snd (pass keyword location page all_jobs w)))
               = calls_of (log (snd (search keyword location 500 page w0))))
    by congruence.
  assert (Hr : request_count (snd (pass keyword location page all_jobs w))
               = request_count (snd (search keyword location 500 page w0)))
    by congruence.
  assert (Hc0 : calls_of (log w0) = calls_of (log w)) by congruence.
  assert (Hr0 : request_count w0 = request_count w) by reflexivity.
  lia.
Qed.

(** The loop, with the pages it visits and the requests it sends. *)
Lemma loop_traffic keyword location max_pages fuel :
  forall page all_jobs w,
    (Z.to_nat (max_pages - page + 1) < fuel)%nat ->
    exists all_jobs' w' n,
      loop fuel keyword location max_pages page all_jobs w = (Return all_jobs', w')
      /\ 0 <= n <= Z.max 0 (max_pages - page + 1)
      /\ pages_of (log w') = pages_of (log w) ++ seqZ page n
      /\ request_count w' - request_count w
         = calls_of (log w') - calls_of (log w)
      /\ 0 <= calls_of (log w') - calls_of (log w) <= 3 * n.
Proof.
  induction fuel as [|fuel IH]; intros page all_jobs w Hfuel; [lia|].
  destruct (Z_le_gt_dec page max_pages) as [Hle|Hgt].
  - rewrite loop_unfold by exact Hle.
    pose proof (pass_traffic keyword location page all_jobs w) as Htraffic.
    cbv zeta in Htraffic.
    destruct (page_pass_shape api_delay session_get _parse_location
                _parse_remuneration _parse_date first_entry
                keyword location page all_jobs w)
      as (ctl & jobs' & w1 & Hpass & Hpages & _).
    rewrite Hpass in Htraffic |- *. cbn [snd] in Htraffic. destruct ctl.
    + exists jobs', w1, 1. split; [reflexivity|]. split; [lia|].
      split; [exact Hpages|]. lia.
    + destruct (IH (page + 1) jobs' w1) as (r & w' & n & Hrun & Hn & Hp & Hrc & Hc);
        [lia|].
      exists r, w', (n + 1). split; [exact Hrun|]. split; [lia|]. split.
      { rewrite Hp, Hpages, <- app_assoc. f_equal.
        rewrite (seqZ_cons page (n + 1)) by lia. cbn [app]. f_equal. f_equal; lia. }
      lia.
  - exists all_jobs, w, 0. cbn [pagination_loop].
    destruct (Z.leb_spec page max_pages); [lia|].
    split; [reflexivity|]. split; [lia|].
    split; [rewrite app_nil_r; reflexivity|]. lia.
Qed.

(** X10.  The pagination loop of a run, which visits pages [1 .. n] with
    [n <= max_pages], sends at most [3 * n] requests to the API, whatever
    the API answers; the request counter goes up by the number sent. *)
Theorem pagination_request_budget keyword location max_pages w :
  exists all_jobs w' n,
    loop (S (Z.to_nat max_pages)) keyword location max_pages 1 [] w
    = (Return all_jobs, w')
    /\ 0 <= n <= Z.max 0 max_pages
    /\ pages_of (log w') = pages_of (log w) ++ seqZ 1 n
    /\ request_count w' - request_count w = calls_of (log w') - calls_of (log w)
    /\ 0 <= calls_of (log w') - calls_of (log w) <= 3 * n
    /\ calls_of (log w') - calls_of (log w) <= 3 * Z.max 0 max_pages.
Proof.
  destruct (loop_traffic keyword location max_pages (S (Z.to_nat max_pages)) 1 [] w)
    as (all_jobs & w' & n & Hrun & Hn & Hp & Hrc & Hc); [lia|].
  exists all_jobs, w', n. split; [exact Hrun|]. split; [lia|].
  split; [exact Hp|]. split; [exact Hrc|]. split; lia.
Qed.

End Traffic.

(** X11.  The pagination loop stops on a failure exactly when its message
    holds, somewhere, a piece of text that lower-cases to ["rate limit"]:
    the test is one of containment, and blind to letter case. *)
Theorem is_rate_limit_spec (e : exn) :
  is_rate_limit e = true
  <-> exists pre mid post,
        str e = (pre ++ mid ++ post)%string /\ lower mid = "rate limit".
Proof.
  unfold is_rate_limit. rewrite contains_spec. split.
  - intros (a & b & H).
    apply lower_split in H. destruct H as (pre & rest & Hs & <- & Hrest).
    apply lower_split in Hrest. destruct Hrest as (mid & post & -> & Hmid & <-).
    exists pre, mid, post. split; assumption.
  - intros (pre & mid & post & -> & Hmid).
    exists (lower pre), (lower post). rewrite !lower_app, Hmid. reflexivity.
Qed.

(** ** Extraction, item by item *)

Section ExtractMore.
Context {Remote Raw : Type}.
Context (_parse_location _parse_remuneration : option Raw -> string).
Context (_parse_date : option Raw -> option string).
Context (first_entry : string -> option Raw -> exn + string).
Implicit Types (w : @World Remote).

Local Abbreviation make :=
  (make_job _parse_location _parse_remuneration _parse_date first_entry).
Local Abbreviation extract :=
  (@extract_job_data Remote Raw _parse_location _parse_remuneration _parse_date
                     first_entry).

(** The postings kept from a list of items, at time [now]. *)
Local Abbreviation kept now items :=
  (filter (fun job => validate job = true) (omap (make now) items)).

Lemma extract_dict osr w :
  extract (Dict osr) w
  = (Return (kept (clock (outside w))
               (get_items match osr with
                          | Some sr => sr
                          | None => empty_search_result
                          end)), w).
Proof. destruct osr as [sr|]; [apply extract_job_data_spec|reflexivity]. Qed.

Lemma make_job_trimmed now item job :
  make now item = Some job ->
  strip (position_title job) = position_title job
  /\ strip (position_uri job) = position_uri job
  /\ extracted_at job = now.
Proof.
  unfold make_job. destruct (first_entry "Name" _); [discriminate|].
  destruct (first_entry "Code" _); [discriminate|].
  intros H. injection H as <-. cbn [position_title position_uri extracted_at].
  rewrite !strip_idempotent. repeat split.
Qed.

(** X12.  From a page that is a dictionary, [extract_job_data] returns
    without changing anything, with at most one posting per item; a
    posting is returned exactly when some item yields it and it validates;
    every posting returned has a title and a key free of leading and
    trailing whitespace, a key starting with [http], and the time of the
    extraction as its stamp. *)
Theorem extract_job_data_sound osr w :
  let items := get_items match osr with
                         | Some sr => sr
                         | None => empty_search_result
                         end in
  exists jobs,
    extract (Dict osr) w = (Return jobs, w)
    /\ (length jobs <= length items)%nat
    /\ (forall job,
          job ∈ jobs
          <-> exists item,
                item ∈ items
                /\ make (clock (outside w)) item = Some job
                /\ validate job = true)
    /\ (forall job,
          job ∈ jobs ->
          strip (position_title job) = position_title job
          /\ strip (position_uri job) = position_uri job
          /\ position_title job <> ""
          /\ startswith (position_uri job) "http" = true
          /\ extracted_at job = clock (outside w)).
Proof.
  intros items. eexists. split; [apply extract_dict|]. fold items.
  assert (Hiff : forall job,
    job ∈ kept (clock (outside w)) items
    <-> exists item, item ∈ items /\ make (clock (outside w)) item = Some job
                     /\ validate job = true).
  { intros job. rewrite list_elem_of_filter, list_elem_of_omap. split.
    - intros (Hv & item & Hin & Hmake). eauto.
    - intros (item & Hin & Hmake & Hv). eauto. }
  split; [|split; [exact Hiff|]].
  - etransitivity; [apply length_filter|]. clear.
    induction items as [|item items' IH]; cbn; [lia|].
    destruct (make _ item); cbn; lia.
  - intros job Hin. apply Hiff in Hin. destruct Hin as (item & _ & Hmake & Hv).
    destruct (make_job_trimmed _ _ _ Hmake) as (Ht & Hu & Hat).
    apply validate_spec in Hv. destruct Hv as (Hb & _ & Hp).
    repeat split; try assumption.
    intros Hempty. rewrite Hempty in Hb. discriminate.
Qed.

(** X13.  Extraction works item by item.  A page that is no dictionary
    makes it raise, the world unchanged; a dictionary without results
    gives no posting.  The postings of two lists of items put end to end
    are those of the first followed by those of the second; and an item on
    which a field look-up raises, or whose posting does not validate, adds
    nothing and takes nothing away from the others. *)
Theorem extraction_is_item_local count count_all w :
  let page items := Dict (Some (mkSearchResult (Some items) count count_all)) in
  (forall ty,
      extract (NotDict ty) w
      = (Raise (Exception ("'" ++ ty ++ "' object has no attribute 'get'")%string),
         w))
  /\ extract (Dict None) w = (Return [], w)
  /\ extract (Dict (Some (mkSearchResult None count count_all))) w = (Return [], w)
  /\ (forall items1 items2 jobs1 jobs2,
        extract (page items1) w = (Return jobs1, w) ->
        extract (page items2) w = (Return jobs2, w) ->
        extract (page (items1 ++ items2)) w = (Return (jobs1 ++ jobs2), w))
  /\ (forall items1 item items2,
        (make (clock (outside w)) item = None
         \/ exists job, make (clock (outside w)) item = Some job
                        /\ validate job = false) ->
        extract (page (items1 ++ item :: items2)) w
        = extract (page (items1 ++ items2)) w).
Proof.
  intros page. split; [reflexivity|]. split; [reflexivity|].
  split; [reflexivity|]. split.
  - intros items1 items2 jobs1 jobs2 H1 H2. unfold page in *.
    rewrite extract_dict in *. cbn [get_items SearchResultItems] in *.
    injection H1 as <-. injection H2 as <-.
    rewrite omap_app, filter_app. reflexivity.
  - intros items1 item items2 Hbad. unfold page.
    rewrite !extract_dict. cbn [get_items SearchResultItems].
    rewrite !omap_app, !filter_app. cbn [omap list_omap].
    destruct Hbad as [->|(job & -> & Hv)]; [reflexivity|].
    rewrite filter_cons_False by congruence. reflexivity.
Qed.

End ExtractMore.

Lemma extraction_is_item_local_witness :
  extract_job_data fixture_location fixture_remuneration fixture_date strict_entry
    (Dict (Some (mkSearchResult
                   (Some ([Some (listing 1)] ++ Some broken_item :: [Some (listing 2)]))
                   (Some 3) (Some 3))))
    (fresh_world (CircuitBreaker_init 5 60) 0 0%nat)
  = extract_job_data fixture_location fixture_remuneration fixture_date strict_entry
      (Dict (Some (mkSearchResult (Some ([Some (listing 1)] ++ [Some (listing 2)]))
                     (Some 3) (Some 3))))
      (fresh_world (CircuitBreaker_init 5 60) 0 0%nat).
Proof.
  apply (proj2 (proj2 (proj2 (proj2
           (extraction_is_item_local fixture_location fixture_remuneration
              fixture_date strict_entry (Some 3) (Some 3)
              (fresh_world (CircuitBreaker_init 5 60) 0 0%nat)))))).
  left. reflexivity.
Defined.

(** ** Deduplication and the upsert, in general *)

Lemma dedup_loop_distinct jobs : forall seen,
  NoDup (keys jobs) ->
  (forall k, k ∈ keys jobs -> k ∉ seen) ->
  dedup_loop jobs seen [] = jobs.
Proof.
  unfold keys. induction jobs as [|job jobs IH]; intros seen Hnd Hseen;
    [reflexivity|].
  rewrite fmap_cons in Hnd. apply NoDup_cons in Hnd. destruct Hnd as [Hjob Hnd].
  rewrite dedup_loop_cons.
  destruct (decide (position_uri job ∈ seen)) as [Hin|_].
  - exfalso. apply (Hseen (position_uri job)); [set_solver|exact Hin].
  - f_equal. apply IH; [exact Hnd|]. intros k Hk.
    specialize (Hseen k). set_solver.
Qed.

(** X14.  Deduplicating twice is deduplicating once; a batch whose keys
    are pairwise distinct is left as it is; the result is never longer
    than the batch, and is empty only for the empty batch (so testing the
    batch for emptiness before deduplicating, as [upsert_jobs] does, is
    testing the deduplicated batch). *)
Theorem deduplicate_idempotent (jobs : list JobPosting) :
  deduplicate (deduplicate jobs) = deduplicate jobs
  /\ (NoDup (keys jobs) -> deduplicate jobs = jobs)
  /\ (length (deduplicate jobs) <= length jobs)%nat
  /\ (deduplicate jobs = [] <-> jobs = []).
Proof.
  assert (Hid : forall l, NoDup (keys l) -> deduplicate l = l).
  { intros l Hnd. apply dedup_loop_distinct; [exact Hnd|]. intros k _. set_solver. }
  split; [apply Hid, deduplicate_NoDup|]. split; [apply Hid|]. split.
  - apply sublist_length, dedup_loop_sublist.
  - split; [|intros ->; reflexivity].
    intros Hempty. destruct jobs as [|job jobs']; [reflexivity|]. exfalso.
    assert (Hk : position_uri job ∈ keys (deduplicate (job :: jobs'))).
    { apply dedup_keys_iff. unfold keys. set_solver. }
    rewrite Hempty in Hk. set_solver.
Qed.

Lemma deduplicate_idempotent_witness :
  deduplicate [first_copy] = [first_copy].
Proof.
  apply (proj1 (proj2 (deduplicate_idempotent [first_copy]))).
  apply NoDup_singleton.
Defined.

Section UpsertMore.
Context {Remote : Type} (psycopg2_connect : @Op Remote (@Connection Remote)).
Implicit Types (w : @World Remote) (jobs : list JobPosting)
  (table : gmap string Row).

Local Abbreviation undecorated := (upsert_jobs_undecorated psycopg2_connect).

(** A decorated upsert that raises has made all its attempts in vain:
    each failed at the database, and left the rows as they were. *)
Lemma upsert_retry_raises jobs N b e w' fuel :
  jobs <> [] ->
  (0 <= b)%Q ->
  forall attempts d w,
    (0 <= d)%Q ->
    attempts < N ->
    retry_loop fuel N b (undecorated jobs) attempts d w = (Raise e, w') ->
    job_postings w' = job_postings w
    /\ calls_of (log w) + (N - attempts) <= calls_of (log w')
       <= calls_of (log w) + 3 * (N - attempts)
    /\ database_raises psycopg2_connect e.
Proof.
  intros Hne Hb.
  induction fuel as [|fuel IH]; intros attempts d w Hd Hlt Hrun; [discriminate|].
  rewrite retry_loop_unfold in Hrun by exact Hd.
  destruct (Z.ltb_spec attempts N); [|lia].
  destruct (undecorated_outcome psycopg2_connect jobs w Hne)
    as [(conn & o1 & o2 & o3 & w1 & _ & _ & _ & Hone & _)
       |(e1 & w1 & Hone & Htable & Hcalls & Hdb)];
    rewrite Hone in Hrun; [discriminate|].
  destruct (Z.geb_spec (attempts + 1) N).
  - injection Hrun as <- <-. split; [exact Htable|]. split; [lia|exact Hdb].
  - apply IH in Hrun; [|apply Qmult_le_0_compat; assumption|lia].
    destruct Hrun as (Ht & Hc & Hdb').
    destruct (after_sleep_fields d w1) as (_ & _ & Hcs & _).
    split; [rewrite Ht; exact Htable|]. split; [|exact Hdb'].
    rewrite Hcs in Hc. lia.
Qed.

(** A decorated upsert that returns has had one attempt return, on the
    rows as they were at the start. *)
Lemma upsert_retry_returns jobs N b stats w' fuel :
  jobs <> [] ->
  forall attempts d w,
    retry_loop fuel N b (undecorated jobs) attempts d w = (Return (Some stats), w') ->
    exists w1,
      job_postings w1 = job_postings w
      /\ undecorated jobs w1 = (Return stats, w').
Proof.
  intros Hne.
  induction fuel as [|fuel IH]; intros attempts d w Hrun; [discriminate|].
  rewrite retry_loop_unfold_any in Hrun. destruct (attempts <? N); [|discriminate].
  destruct (undecorated_outcome psycopg2_connect jobs w Hne)
    as [(conn & o1 & o2 & o3 & w1 & _ & _ & _ & Hone & _)
       |(e1 & w1 & Hone & Htable & Hcalls & Hdb)];
    rewrite Hone in Hrun.
  - injection Hrun as <- <-. exists w. split; [reflexivity|exact Hone].
  - destruct (attempts + 1 >=? N); [discriminate|].
    destruct (Qle_bool 0 d); [|discriminate].
    apply IH in Hrun. destruct Hrun as (w2 & Ht & Hret).
    exists w2. split; [|exact Hret]. rewrite Ht. exact Htable.
Qed.

Lemma upsert_jobs_nil w :
  upsert_jobs psycopg2_connect [] w = (Return (Some (mkStats 0 0 0)), w).
Proof. reflexivity. Qed.

(** An [upsert_jobs] that raises. *)
Lemma upsert_jobs_raises jobs w e w' :
  upsert_jobs psycopg2_connect jobs w = (Raise e, w') ->
  jobs <> []
  /\ job_postings w' = job_postings w
  /\ calls_of (log w) + 3 <= calls_of (log w') <= calls_of (log w) + 9
  /\ database_raises psycopg2_connect e.
Proof.
  intros Hrun.
  assert (Hne : jobs <> []).
  { intros ->. rewrite upsert_jobs_nil in Hrun. discriminate. }
  split; [exact Hne|]. unfold upsert_jobs, retry in Hrun.
  apply upsert_retry_raises in Hrun; [|exact Hne|lra|lra|lia].
  destruct Hrun as (Ht & Hc & Hdb). split; [exact Ht|]. split; [lia|exact Hdb].
Qed.

(** X15.  A persistence failure writes no row.  When [upsert_jobs] raises,
    the batch was not empty and each of the three attempts has failed at
    the database, in its connection, its statement or its commit (between
    3 and 9 operations of the database were invoked); the exception is the
    database's; and the rows of the table are those found before the
    call: what an attempt had written before its commit failed is rolled
    back. *)
Theorem upsert_failure_writes_nothing jobs w e w' :
  upsert_jobs psycopg2_connect jobs w = (Raise e, w') ->
  jobs <> []
  /\ job_postings w' = job_postings w
  /\ calls_of (log w) + 3 <= calls_of (log w') <= calls_of (log w) + 9
  /\ database_raises psycopg2_connect e.
Proof.
  intros Hrun. destruct (upsert_jobs_raises _ _ _ _ Hrun) as (Hne & Ht & Hc & Hdb).
  split; [exact Hne|]. split; [exact Ht|]. split; [exact Hc|exact Hdb].
Qed.

Lemma count_inserted_cons b results :
  count_inserted (b :: results) = (if b then 1 else 0) + count_inserted results.
Proof.
  unfold count_inserted. destruct b.
  - rewrite filter_cons_True by reflexivity. cbn [length]. lia.
  - rewrite filter_cons_False by discriminate. lia.
Qed.

(** Over pairwise distinct keys, the rows reported as inserted are as many
    as the keys the table did not hold. *)
Lemma inserted_is_new_keys table jobs :
  NoDup (keys jobs) ->
  count_inserted
    (map (fun job => bool_decide (table !! position_uri job = None)) jobs)
  = Z.of_nat (size (key_set jobs ∖ dom table)).
Proof.
  unfold key_set, keys. induction jobs as [|job jobs IH]; intros Hnd.
  - cbn. replace (∅ ∖ dom table) with (∅ : gset string) by set_solver.
    rewrite size_empty. reflexivity.
  - rewrite fmap_cons in Hnd. apply NoDup_cons in Hnd. destruct Hnd as [Hjob Hnd].
    cbn [map]. rewrite count_inserted_cons, (IH Hnd). rewrite fmap_cons.
    cbn [list_to_set foldr].
    destruct (table !! position_uri job) as [old|] eqn:Hold.
    + rewrite bool_decide_eq_false_2 by discriminate.
      assert (Hin : position_uri job ∈ dom table)
        by (apply elem_of_dom; eauto).
      replace (({[position_uri job]} ∪ list_to_set (position_uri <$> jobs))
               ∖ dom table)
        with ((list_to_set (position_uri <$> jobs) : gset string) ∖ dom table)
        by set_solver.
      lia.
    + rewrite bool_decide_eq_true_2 by reflexivity.
      assert (Hout : position_uri job ∉ dom table)
        by (apply not_elem_of_dom; exact Hold).
      replace (({[position_uri job]} ∪ list_to_set (position_uri <$> jobs))
               ∖ dom table)
        with ({[position_uri job]}
              ∪ ((list_to_set (position_uri <$> jobs) : gset string) ∖ dom table))
        by set_solver.
      assert (Hdisj : ({[position_uri job]} : gset string)
                      ## list_to_set (position_uri <$> jobs) ∖ dom table).
      { apply disjoint_singleton_l. rewrite elem_of_difference.
        rewrite elem_of_list_to_set. tauto. }
      pose proof (size_union (C := gset string) _ _ Hdisj) as Hsize.
      rewrite size_singleton in Hsize. lia.
Qed.

Lemma key_set_deduplicate jobs : key_set (deduplicate jobs) = key_set jobs.
Proof.
  unfold key_set. apply set_eq. intros k.
  rewrite !elem_of_list_to_set. apply dedup_keys_iff.
Qed.

(** What a returning [upsert_jobs] has done to the table, in terms of the
    table it found.  [now] is the time at which the statement was
    executed: the clock as the execution of the statement left it. *)
Lemma upsert_returns_table jobs w stats w' :
  upsert_jobs psycopg2_connect jobs w = (Return (Some stats), w') ->
  (jobs = [] /\ stats = mkStats 0 0 0 /\ job_postings w' = job_postings w)
  \/ (jobs <> []
      /\ stats = stats_of (job_postings w) jobs
      /\ (forall k, k ∉ keys (deduplicate jobs) ->
            job_postings w' !! k = job_postings w !! k)
      /\ exists (conn : @Connection Remote) o1 o2,
           cur_execute conn (UpsertSQL (deduplicate jobs)) o1 = (inr tt, o2)
           /\ forall i job, deduplicate jobs !! i = Some job ->
                exists serial,
                  job_postings w' !! position_uri job
                  = Some match job_postings w !! position_uri job with
                         | Some old => do_update (clock o2) job old
                         | None => do_insert (clock o2) serial job
                         end).
Proof.
  intros Hrun.
  destruct (decide (jobs = [])) as [->|Hne].
  { left. rewrite upsert_jobs_nil in Hrun. injection Hrun as <- <-.
    repeat split. }
  right. split; [exact Hne|]. unfold upsert_jobs, retry in Hrun.
  apply (upsert_retry_returns _ _ _ _ _ _ Hne) in Hrun.
  destruct Hrun as (w1 & Htable & Hone).
  destruct (undecorated_outcome psycopg2_connect jobs w1 Hne)
    as [(conn & o1 & o2 & o3 & w2 & _ & Hexec & _ & Hret & _ & Hother & Hrows)
       |(e1 & w2 & Hraise & _)].
  2:{ rewrite Hraise in Hone. discriminate. }
  rewrite Hret in Hone. injection Hone as <- <-. rewrite Htable in *.
  split; [reflexivity|]. split; [exact Hother|].
  exists conn, o1, o2. split; [exact Hexec|].
  intros i job Hi. eexists. apply (Hrows i job Hi).
Qed.

(** The counts a returning [upsert_jobs] reports, against the batch and
    the table. *)
Lemma upsert_counts jobs w stats w' :
  upsert_jobs psycopg2_connect jobs w = (Return (Some stats), w') ->
  total stats = inserted stats + updated stats
  /\ total stats = Z.of_nat (size (key_set jobs))
  /\ total stats <= Z.of_nat (length jobs)
  /\ inserted stats = Z.of_nat (size (key_set jobs ∖ dom (job_postings w)))
  /\ Z.of_nat (size (job_postings w'))
     = Z.of_nat (size (job_postings w)) + inserted stats.
Proof.
  intros Hrun.
  destruct (upsert_returns_table _ _ _ _ Hrun)
    as [(-> & -> & Htable)
       |(Hne & -> & Hother & conn & o1 & o2 & _ & Hrows)].
  { rewrite Htable. cbn.
    replace (key_set [] ∖ dom (job_postings w)) with (∅ : gset string)
      by (unfold key_set; set_solver).
    unfold key_set. cbn. rewrite size_empty. repeat split; lia. }
  unfold stats_of. cbn [total inserted updated]. rewrite length_map.
  rewrite (inserted_is_new_keys _ _ (deduplicate_NoDup jobs)).
  rewrite key_set_deduplicate, dedup_length.
  assert (Hdom : dom (job_postings w') = dom (job_postings w) ∪ key_set jobs).
  { apply set_eq. intros k. rewrite elem_of_union, !elem_of_dom.
    rewrite <- key_set_deduplicate. unfold key_set.
    rewrite elem_of_list_to_set.
    destruct (decide (k ∈ keys (deduplicate jobs))) as [Hk|Hk].
    - split; [tauto|]. intros _. apply list_elem_of_fmap in Hk.
      destruct Hk as (job & -> & Hin).
      apply list_elem_of_lookup in Hin. destruct Hin as (i & Hi).
      destruct (Hrows i job Hi) as (serial & ->). eauto.
    - rewrite (Hother k Hk). tauto. }
  split; [lia|]. split; [reflexivity|]. split.
  { rewrite <- dedup_length. apply inj_le.
    apply sublist_length, dedup_loop_sublist. }
  split; [reflexivity|].
  rewrite <- !(size_dom (D := gset string)), Hdom, size_union_alt. lia.
Qed.



(** C7, as the code has it.  Whatever the store holds, after an upsert
    that returns the row of every key of the batch carries the first
    record of the batch with that key. *)
Theorem upsert_stores_first_seen jobs w stats w' :
  upsert_jobs psycopg2_connect jobs w = (Return (Some stats), w') ->
  forall k, k ∈ keys jobs ->
    exists row,
      job_postings w' !! k = Some row
      /\ first_with_key k jobs = Some (row_job row).
Proof.
  intros Hrun k Hk.
  destruct (upsert_returns_table _ _ _ _ Hrun)
    as [(-> & _)|(_ & _ & _ & conn & o1 & o2 & _ & Hrows)].
  { apply elem_of_nil in Hk. contradiction. }
  apply dedup_keys_iff in Hk. apply list_elem_of_fmap in Hk.
  destruct Hk as (job & -> & Hin).
  pose proof (dedup_loop_first _ _ _ Hin) as Hfirst.
  apply list_elem_of_lookup in Hin. destruct Hin as (i & Hi).
  destruct (Hrows i job Hi) as (serial & ->). rewrite Hfirst.
  destruct (job_postings w !! position_uri job); eexists; split; reflexivity.
Qed.

(** X16.  When [upsert_jobs] returns its statistics, whatever the table
    held: [total = inserted + updated] is the number of unique keys of the
    batch, at most the size of the batch; [inserted] is the number of
    those keys the table did not hold, and the table has grown by exactly
    that many rows; rows under other keys are untouched; and a row that
    was there under a key of the batch keeps its [id] and [created_at]
    while it takes the columns of the first record with that key. *)
Theorem upsert_partitions jobs w stats w' :
  upsert_jobs psycopg2_connect jobs w = (Return (Some stats), w') ->
  total stats = inserted stats + updated stats
  /\ total stats = Z.of_nat (size (key_set jobs))
  /\ total stats <= Z.of_nat (length jobs)
  /\ inserted stats = Z.of_nat (size (key_set jobs ∖ dom (job_postings w)))
  /\ Z.of_nat (size (job_postings w'))
     = Z.of_nat (size (job_postings w)) + inserted stats
  /\ (forall k, k ∉ keys jobs -> job_postings w' !! k = job_postings w !! k)
  /\ (forall k old,
        k ∈ keys jobs ->
        job_postings w !! k = Some old ->
        exists new,
          job_postings w' !! k = Some new
          /\ row_id new = row_id old
          /\ created_at new = created_at old
          /\ first_with_key k jobs = Some (row_job new)).
Proof.
  intros Hrun.
  destruct (upsert_counts _ _ _ _ Hrun) as (H1 & H2 & H3 & H4 & H5).
  do 5 (split; [assumption|]).
  destruct (upsert_returns_table _ _ _ _ Hrun)
    as [(-> & _ & Htable)|(Hne & _ & Hother & conn & o1 & o2 & _ & Hrows)].
  { rewrite Htable. split; [reflexivity|].
    intros k old Hk. apply elem_of_nil in Hk. contradiction. }
  split.
  { intros k Hk. apply Hother. rewrite dedup_keys_iff. exact Hk. }
  intros k old Hk Hold. apply dedup_keys_iff in Hk.
  apply list_elem_of_fmap in Hk. destruct Hk as (job & -> & Hin).
  pose proof (dedup_loop_first _ _ _ Hin) as Hfirst.
  apply list_elem_of_lookup in Hin. destruct Hin as (i & Hi).
  destruct (Hrows i job Hi) as (serial & Hrow).
  rewrite Hrow, Hold. eexists. split; [reflexivity|].
  cbn. repeat split. exact Hfirst.
Qed.

End UpsertMore.

Lemma upsert_failure_writes_nothing_witness :
  exists e w',
    upsert_jobs connect_uncommitted [first_copy]
      (fresh_world (CircuitBreaker_init 5 60) 0 0%nat) = (Raise e, w')
    /\ job_postings w' = ∅.
Proof.
  eexists. eexists.
  assert (Hrun : upsert_jobs connect_uncommitted [first_copy]
                   (fresh_world (CircuitBreaker_init 5 60) 0 0%nat)
                 = (Raise (Exception "server closed the connection unexpectedly"),
                    snd (upsert_jobs connect_uncommitted [first_copy]
                           (fresh_world (CircuitBreaker_init 5 60) 0 0%nat))))
    by (vm_compute; reflexivity).
  split; [exact Hrun|].
  exact (proj1 (proj2 (upsert_failure_writes_nothing connect_uncommitted
                         _ _ _ _ Hrun))).
Defined.


Lemma upsert_stores_first_seen_witness :
  exists stats w1 row,
    upsert_jobs connect_ok [first_copy; second_copy]
      (fresh_world (CircuitBreaker_init 5 60) 0 0%nat)
    = (Return (Some stats), w1)
    /\ job_postings w1 !! "https://example.com/job/123" = Some row
    /\ Some first_copy = Some (row_job row).
Proof.
  set (w := fresh_world (CircuitBreaker_init 5 60) 0 0%nat).
  assert (Hrun : upsert_jobs connect_ok [first_copy; second_copy] w
                 = (Return (Some (mkStats 1 0 1)),
                    snd (upsert_jobs connect_ok [first_copy; second_copy] w)))
    by (vm_compute; reflexivity).
  destruct (upsert_stores_first_seen connect_ok _ _ _ _ Hrun
              "https://example.com/job/123")
    as (row & Hrow & Hfirst).
  - apply list_elem_of_here.
  - eexists. eexists. exists row.
    split; [exact Hrun|]. split; [exact Hrow|exact Hfirst].
Defined.

(** C7 as stated fails.  Were the record that reaches the store, for a
    key carried by more than one record of the batch, the last of them,
    then for the batch of [first_copy] and [second_copy], which have one
    key and differ in the title, the row stored would carry the second:
    it carries the first. *)
Lemma last_seen_refuted :
  ~ (forall (jobs : list JobPosting) (w w' : @World nat) stats k,
       upsert_jobs connect_ok jobs w = (Return (Some stats), w') ->
       (1 < occurrences k jobs)%nat ->
       exists row,
         job_postings w' !! k = Some row
         /\ last_with_key k jobs = Some (row_job row)).
Proof.
  intros Hclaim.
  set (w := fresh_world (CircuitBreaker_init 5 60) 0 0%nat).
  assert (Hrun : upsert_jobs connect_ok [first_copy; second_copy] w
                 = (Return (Some (mkStats 1 0 1)),
                    snd (upsert_jobs connect_ok [first_copy; second_copy] w)))
    by (vm_compute; reflexivity).
  destruct (Hclaim _ _ _ _ "https://example.com/job/123" Hrun)
    as (row & Hrow & Hlast).
  { vm_compute. lia. }
  vm_compute in Hrow. injection Hrow as <-.
  vm_compute in Hlast. discriminate Hlast.
Qed.

Lemma upsert_partitions_witness :
  exists stats w',
    upsert_jobs connect_ok [first_copy; second_copy]
      (fresh_world (CircuitBreaker_init 5 60) 0 0%nat) = (Return (Some stats), w')
    /\ total stats = inserted stats + updated stats.
Proof.
  eexists. eexists.
  assert (Hrun : upsert_jobs connect_ok [first_copy; second_copy]
                   (fresh_world (CircuitBreaker_init 5 60) 0 0%nat)
                 = (Return (Some (mkStats 1 0 1)),
                    snd (upsert_jobs connect_ok [first_copy; second_copy]
                           (fresh_world (CircuitBreaker_init 5 60) 0 0%nat))))
    by (vm_compute; reflexivity).
  split; [exact Hrun|].
  exact (proj1 (upsert_partitions connect_ok _ _ _ _ Hrun)).
Defined.

(** ** The run as a whole *)

Section MonadInversion.
Context {Remote : Type}.
Implicit Types (w : @World Remote).

Lemma bind_raises {A B} (m : @Exec Remote A) (k : A -> @Exec Remote B) w e w' :
  bind m k w = (Raise e, w') ->
  m w = (Raise e, w')
  \/ exists a w1, m w = (Return a, w1) /\ k a w1 = (Raise e, w').
Proof.
  unfold bind. destruct (m w) as [[a|e1|] w1]; intros H;
    [right; eauto|left; injection H as -> ->; reflexivity|discriminate].
Qed.

Lemma try_except_raises {A} (body : @Exec Remote A) handler w e w' :
  try_except body handler w = (Raise e, w') ->
  exists e1 w1, body w = (Raise e1, w1) /\ handler e1 w1 = (Raise e, w').
Proof.
  unfold try_except. destruct (body w) as [[a|e1|] w1]; intros H;
    try discriminate. eauto.
Qed.

Lemma ends_ret {A} (a : A) : ends (@ret Remote A a).
Proof. intros w. discriminate. Qed.

Lemma ends_raise {A} e : ends (@raise Remote A e).
Proof. intros w. discriminate. Qed.

Lemma ends_get {A} (f : @World Remote -> A) : ends (get f).
Proof. intros w. discriminate. Qed.

Lemma ends_modify (f : @World Remote -> @World Remote) : ends (modify f).
Proof. intros w. discriminate. Qed.

Lemma ends_quiet {A} (m : @Exec Remote A) : quiet m -> ends m.
Proof. intros Hq w. apply (Hq w). Qed.

Lemma ends_bind {A B} (m : @Exec Remote A) (k : A -> @Exec Remote B) :
  ends m -> (forall a, ends (k a)) -> ends (bind m k).
Proof.
  intros Hm Hk w. unfold bind. specialize (Hm w).
  destruct (m w) as [[a|e|] w1]; cbn in *; try discriminate; [apply Hk|].
  exfalso. apply Hm. reflexivity.
Qed.

Lemma ends_try_except {A} (body : @Exec Remote A) handler :
  ends body -> (forall e, ends (handler e)) -> ends (try_except body handler).
Proof.
  intros Hb Hh w. unfold try_except. specialize (Hb w).
  destruct (body w) as [[a|e|] w1]; cbn in *; try discriminate; [apply Hh|].
  exfalso. apply Hb. reflexivity.
Qed.

(** An exception the retry wrapper lets out is one the wrapped function
    raised. *)
Lemma retry_loop_raises_from {A} N b (func : @Exec Remote A) fuel :
  (0 <= b)%Q ->
  forall attempts d w e w',
    (0 <= d)%Q ->
    retry_loop fuel N b func attempts d w = (Raise e, w') ->
    exists w1 w2, func w1 = (Raise e, w2).
Proof.
  intros Hb.
  induction fuel as [|fuel IH]; intros attempts d w e w' Hd Hrun; [discriminate|].
  rewrite retry_loop_unfold in Hrun by exact Hd.
  destruct (attempts <? N); [|discriminate].
  destruct (func w) as [[v|e1|] w1] eqn:Hone; try discriminate.
  destruct (attempts + 1 >=? N).
  - injection Hrun as <- <-. eauto.
  - eapply IH; [|exact Hrun]. apply Qmult_le_0_compat; assumption.
Qed.

End MonadInversion.

Section RunStages.
Context {Remote Raw : Type} (api_delay : Q).
Context (session_get : Params -> @Op Remote (HttpResponse Raw)).
Context (_parse_location _parse_remuneration : option Raw -> string).
Context (_parse_date : option Raw -> option string).
Context (first_entry : string -> option Raw -> exn + string).
Context (psycopg2_connect : @Op Remote (@Connection Remote)).
Implicit Types (w : @World Remote) (all_jobs : list JobPosting).

Local Abbreviation search := (search_jobs api_delay session_get).
Local Abbreviation try_block :=
  (page_try api_delay session_get _parse_location _parse_remuneration
            _parse_date first_entry).
Local Abbreviation pass :=
  (page_pass api_delay session_get _parse_location _parse_remuneration
             _parse_date first_entry).
Local Abbreviation loop :=
  (pagination_loop api_delay session_get _parse_location _parse_remuneration
                   _parse_date first_entry).
Local Abbreviation run_service :=
  (run api_delay session_get _parse_location _parse_remuneration _parse_date
       first_entry psycopg2_connect).
Local Abbreviation started page w := (set_log (log w ++ [EvPage page]) w).
Local Abbreviation valid := (fun job : JobPosting => validate job = true).

(** The [try] block of a pass keeps the batch and the count of postings
    extracted in step: what it adds to the one, it adds to the other; and
    it leaves the stamps of the run alone. *)
Lemma page_try_tally keyword location page all_jobs w :
  let '(res, w1) := try_block keyword location page all_jobs w in
  run_stamps (metrics w1) = run_stamps (metrics w)
  /\ match res with
     | Return (_, _, all_jobs') =>
       exists jobs,
         all_jobs' = all_jobs ++ jobs
         /\ Forall valid jobs
         /\ total_jobs_extracted (metrics w1)
            = total_jobs_extracted (metrics w) + Z.of_nat (length jobs)
     | _ => total_jobs_extracted (metrics w1) = total_jobs_extracted (metrics w)
     end.
Proof.
  destruct (quiet_search_jobs api_delay session_get keyword location 500 page w)
    as (_ & Hmet & _).
  destruct (search keyword location 500 page w) as [[r|e|] w1] eqn:Hsearch;
    cbn [fst snd] in *.
  - destruct r as [[osr|ty]|].
    + rewrite (page_try_fetched _ _ _ _ _ _ _ _ _ _ _ _ _ Hsearch).
      destruct (get_items _) as [|item items] eqn:Hitems.
      * cbn. rewrite Hmet. split; [reflexivity|].
        exists []. rewrite app_nil_r. split; [reflexivity|].
        split; [constructor|]. cbn. lia.
      * set (jobs := filter _ _).
        assert (Hvalid : Forall valid jobs).
        { apply Forall_forall. intros job Hin.
          apply list_elem_of_filter in Hin. apply Hin. }
        destruct (_ || _); cbn; rewrite Hmet; (split; [reflexivity|]);
          exists jobs; (split; [reflexivity|]); (split; [exact Hvalid|]);
          reflexivity.
    + unfold page_try, bind at 1. rewrite Hsearch. cbn. rewrite Hmet.
      split; reflexivity.
    + unfold page_try, bind at 1. rewrite Hsearch. cbn. rewrite Hmet.
      split; reflexivity.
  - unfold page_try, bind at 1. rewrite Hsearch. rewrite Hmet. split; reflexivity.
  - unfold page_try, bind at 1. rewrite Hsearch. rewrite Hmet. split; reflexivity.
Qed.

Lemma page_pass_tally keyword location page all_jobs w ctl page' all_jobs' w' :
  pass keyword location page all_jobs w = (Return (ctl, page', all_jobs'), w') ->
  run_stamps (metrics w') = run_stamps (metrics w)
  /\ exists jobs,
       all_jobs' = all_jobs ++ jobs
       /\ Forall valid jobs
       /\ total_jobs_extracted (metrics w')
          = total_jobs_extracted (metrics w) + Z.of_nat (length jobs).
Proof.
  intros Hpass.
  pose proof (page_try_tally keyword location page all_jobs (started page w))
    as Htry.
  destruct (try_block keyword location page all_jobs (started page w))
    as [[[[c p] j]|e|] w1] eqn:Hrun.
  - rewrite (page_pass_returned _ _ _ _ _ _ _ _ _ _ _ _ _ Hrun) in Hpass.
    injection Hpass as <- <- <- <-. exact Htry.
  - rewrite (page_pass_raised _ _ _ _ _ _ _ _ _ _ _ _ _ Hrun) in Hpass.
    destruct Htry as [Hstamps Hcount]. cbn in Hstamps, Hcount.
    assert (Hjobs : all_jobs' = all_jobs /\ w' = set_metrics
              (append_error (page_error_msg page e) (metrics w1)) w1).
    { destruct (is_rate_limit e); injection Hpass as <- <- <- <-;
        split; reflexivity. }
    destruct Hjobs as [-> ->]. split; [exact Hstamps|].
    exists []. rewrite app_nil_r. split; [reflexivity|]. split; [constructor|].
    cbn. lia.
  - exfalso. revert Hpass. unfold page_pass, bind, modify, try_except.
    rewrite Hrun. discriminate.
Qed.

Lemma loop_tally keyword location max_pages fuel :
  forall page all_jobs w all_jobs' w',
    loop fuel keyword location max_pages page all_jobs w = (Return all_jobs', w') ->
    run_stamps (metrics w') = run_stamps (metrics w)
    /\ exists jobs,
         all_jobs' = all_jobs ++ jobs
         /\ Forall valid jobs
         /\ total_jobs_extracted (metrics w')
            = total_jobs_extracted (metrics w) + Z.of_nat (length jobs).
Proof.
  induction fuel as [|fuel IH]; intros page all_jobs w all_jobs' w' Hrun;
    [discriminate|].
  destruct (Z_le_gt_dec page max_pages) as [Hle|Hgt].
  - rewrite loop_unfold in Hrun by exact Hle.
    destruct (pass keyword location page all_jobs w)
      as [[[[[|] p] j]|e|] w1] eqn:Hpass; try discriminate.
    + injection Hrun as <- <-. exact (page_pass_tally _ _ _ _ _ _ _ _ _ Hpass).
    + destruct (page_pass_tally _ _ _ _ _ _ _ _ _ Hpass)
        as (Hs1 & jobs1 & -> & Hv1 & Ht1).
      destruct (IH _ _ _ _ _ Hrun) as (Hs2 & jobs2 & -> & Hv2 & Ht2).
      split; [congruence|]. exists (jobs1 ++ jobs2). rewrite app_assoc.
      split; [reflexivity|]. split; [apply Forall_app; tauto|].
      rewrite length_app. lia.
  - cbn [pagination_loop] in Hrun. destruct (Z.leb_spec page max_pages); [lia|].
    injection Hrun as <- <-. split; [reflexivity|].
    exists []. rewrite app_nil_r. split; [reflexivity|]. split; [constructor|].
    cbn. lia.
Qed.

Lemma loop_ends keyword location max_pages :
  ends (loop (S (Z.to_nat max_pages)) keyword location max_pages 1 []).
Proof.
  intros w.
  destruct (loop_shape api_delay session_get _parse_location _parse_remuneration
              _parse_date first_entry keyword location max_pages
              (S (Z.to_nat max_pages)) 1 [] w)
    as (j & w' & n & Hrun & _); [lia|].
  rewrite Hrun. discriminate.
Qed.

Lemma loop_keeps_store keyword location max_pages fuel page all_jobs :
  respects (same store) (loop fuel keyword location max_pages page all_jobs).
Proof.
  apply (respects_pagination_loop api_delay session_get _parse_location
           _parse_remuneration _parse_date first_entry (same store));
    [intros w' m; reflexivity|intros; apply search_keeps_store
    |intros w' p; reflexivity].
Qed.

Lemma table_inner : inner_part (@job_postings Remote).
Proof. intros w o l. reflexivity. Qed.

(** A transaction whose body writes no row leaves the rows alone. *)
Lemma get_connection_keeps_table {A}
    (body : @Connection Remote -> @Exec Remote A) :
  (forall conn, respects (same job_postings) (body conn)) ->
  respects (same job_postings) (get_connection psycopg2_connect body).
Proof.
  intros Hb w. unfold same.
  destruct (psycopg2_connect (outside w)) as [[e|conn] o1] eqn:Hconn.
  - rewrite (get_connection_refused _ _ _ _ _ Hconn). reflexivity.
  - rewrite (get_connection_connected _ _ _ _ _ Hconn).
    unfold try_except. pose proof (Hb conn (called None o1 w)) as Hbody.
    unfold same in Hbody.
    destruct (body conn (called None o1 w)) as [[a|e|] w1]; cbn [snd] in *;
      try exact Hbody.
    reflexivity.
Qed.

Lemma create_tables_keeps_table :
  respects (same job_postings) (create_tables psycopg2_connect).
Proof.
  unfold create_tables, retry.
  apply respects_retry_loop;
    [apply _| |intros d; apply same_time_sleep, table_inner].
  apply respects_try_except; [apply _| |intros e; apply respects_raise; apply _].
  apply get_connection_keeps_table. intros conn.
  apply respects_bind; [apply _|apply same_invoke, table_inner|].
  intros _. apply same_invoke, table_inner.
Qed.

(** An exception out of [create_tables] is the database's. *)
Lemma create_tables_raises w e w' :
  create_tables psycopg2_connect w = (Raise e, w') ->
  database_raises psycopg2_connect e.
Proof.
  unfold create_tables, retry. intros H.
  apply retry_loop_raises_from in H; [|lra|lra]. destruct H as (w1 & w2 & H).
  apply try_except_raises in H. destruct H as (e1 & w3 & H & Hh).
  injection Hh as <- _.
  destruct (psycopg2_connect (outside w1)) as [[e2|conn] o1] eqn:Hconn.
  - rewrite (get_connection_refused _ _ _ _ _ Hconn) in H.
    injection H as <- _. left. eauto.
  - rewrite (get_connection_connected _ _ _ _ _ Hconn) in H.
    apply try_except_raises in H. destruct H as (e2 & w4 & H & Hh).
    unfold bind, modify, raise in Hh. injection Hh as <- _.
    right. exists (outside w1), conn, o1. split; [exact Hconn|].
    apply bind_raises in H. destruct H as [H|([] & w5 & _ & H)].
    + left. unfold invoke in H.
      destruct (cur_execute conn SchemaSQL (outside (called None o1 w1)))
        as [[e3|[]] o2] eqn:Hexec; [|discriminate].
      injection H as <- _. eauto.
    + right. unfold invoke in H.
      destruct (conn_commit conn (outside w5)) as [[e3|[]] o3] eqn:Hcommit;
        [|discriminate].
      injection H as <- _. eauto.
Qed.

(** [get_statistics] always returns: the size of the table, or nothing
    when the connection or the query fails; it changes neither the rows
    nor the metrics. *)
Lemma get_statistics_spec w :
  exists r w1,
    get_statistics psycopg2_connect w = (Return r, w1)
    /\ job_postings w1 = job_postings w
    /\ metrics w1 = metrics w
    /\ (r = None \/ r = Some (Z.of_nat (size (job_postings w))))
    /\ (always_accepts psycopg2_connect ->
        r = Some (Z.of_nat (size (job_postings w)))).
Proof.
  unfold get_statistics.
  destruct (psycopg2_connect (outside w)) as [[e|conn] o1] eqn:Hconn.
  { eexists. eexists. split.
    - rewrite (try_except_of_raise _ _ _ _ _
                 (get_connection_refused _ _ _ _ _ Hconn)). reflexivity.
    - split; [reflexivity|]. split; [reflexivity|]. split; [left; reflexivity|].
      intros Hdb. destruct (Hdb (outside w)) as (conn & o' & Hok & _).
      congruence. }
  destruct (cur_execute conn StatisticsSQL o1) as [[e|[]] o2] eqn:Hexec.
  { eexists. eexists. split.
    - erewrite try_except_of_raise; [reflexivity|].
      rewrite (get_connection_connected _ _ _ _ _ Hconn).
      erewrite try_except_of_raise; [reflexivity|].
      apply bind_of_raise, invoke_raises. exact Hexec.
    - split; [reflexivity|]. split; [reflexivity|]. split; [left; reflexivity|].
      intros Hdb. destruct (Hdb (outside w)) as (conn' & o' & Hok & Hacc & _).
      rewrite Hconn in Hok. injection Hok as <- <-.
      destruct (Hacc StatisticsSQL o1) as (o3 & Hgood). congruence. }
  eexists. eexists. split.
  - apply try_except_of_return.
    rewrite (get_connection_connected _ _ _ _ _ Hconn).
    apply try_except_of_return.
    erewrite bind_of_return; [|apply invoke_returns; exact Hexec].
    reflexivity.
  - split; [reflexivity|]. split; [reflexivity|]. split; [right; reflexivity|].
    intros _. reflexivity.
Qed.

Lemma run_ends keyword location max_pages :
  ends (run_service keyword location max_pages).
Proof.
  unfold run, time_time, update_metrics.
  apply ends_bind; [apply ends_get|]. intros start.
  apply ends_bind; [apply ends_modify|]. intros _.
  apply ends_try_except.
  - apply ends_bind; [apply ends_quiet, quiet_create_tables|]. intros _.
    apply ends_bind; [apply ends_quiet, quiet_get_statistics|]. intros initial.
    apply ends_bind; [apply loop_ends|]. intros all_jobs.
    apply ends_bind.
    { destruct all_jobs; [apply ends_ret|].
      apply ends_bind; [apply ends_quiet, quiet_upsert_jobs|].
      intros [stats|]; [|apply ends_raise].
      apply ends_bind; [apply ends_modify|intros _; apply ends_ret]. }
    intros db_stats.
    apply ends_bind; [apply ends_quiet, quiet_get_statistics|]. intros final.
    apply ends_bind; [apply ends_get|]. intros finish.
    apply ends_bind; [apply ends_modify|]. intros _.
    apply ends_bind; [apply ends_get|]. intros m. apply ends_ret.
  - intros e.
    apply ends_bind; [apply ends_get|]. intros finish.
    apply ends_bind; [apply ends_modify|]. intros _.
    apply ends_bind; [apply ends_modify|]. intros _. apply ends_raise.
Qed.

(** The stages of a run that returns. *)
Lemma run_returns_stages keyword location max_pages w summary w' :
  run_service keyword location max_pages w = (Return summary, w') ->
  exists wb all_jobs wc db_stats wd final_stats w8,
    job_postings wb = job_postings w
    /\ metrics wb = set_start_time (clock (outside w)) (metrics w)
    /\ loop (S (Z.to_nat max_pages)) keyword location max_pages 1 [] wb
       = (Return all_jobs, wc)
    /\ match all_jobs with
       | [] => db_stats = mkStats 0 0 0 /\ wd = wc
       | _ =>
         exists wu,
           upsert_jobs psycopg2_connect all_jobs wc = (Return (Some db_stats), wu)
           /\ wd = set_metrics (set_loaded (total db_stats) (metrics wu)) wu
       end
    /\ get_statistics psycopg2_connect wd = (Return final_stats, w8)
    /\ w' = set_metrics (set_end_time (clock (outside w8)) (metrics w8)) w8
    /\ summary
       = mkSummary (clock (outside w8) - clock (outside w))%Q
                   (total_api_calls (metrics w8))
                   (total_jobs_extracted (metrics w8))
                   (inserted db_stats) (updated db_stats)
                   (get_count final_stats) (errors (metrics w8)).
Proof.
  unfold run. intros H.
  apply bind_returns in H as (start & w1 & Hs & H).
  unfold time_time, get in Hs. injection Hs as <- <-.
  apply bind_returns in H as (? & w2 & Hm & H).
  unfold update_metrics at 1, modify in Hm. injection Hm as _ <-.
  apply try_except_returns in H.
  2:{ intros e wx wy. unfold bind, time_time, get, update_metrics, modify, raise.
      discriminate. }
  apply bind_returns in H as (? & w3 & Hct & H).
  apply bind_returns in H as (initial_stats & wb & Hinit & H).
  apply bind_returns in H as (all_jobs & wc & Hloop & H).
  apply bind_returns in H as (db_stats & wd & Hdb & H).
  apply bind_returns in H as (final_stats & w8 & Hfinal & H).
  apply bind_returns in H as (finish & w9 & Hfinish & H).
  unfold time_time, get in Hfinish. injection Hfinish as <- <-.
  apply bind_returns in H as (? & w10 & Hend & H).
  unfold update_metrics at 1, modify in Hend. injection Hend as _ <-.
  apply bind_returns in H as (m & w11 & Hget & H).
  unfold get in Hget. injection Hget as <- <-.
  injection H as <- <-.
  exists wb, all_jobs, wc, db_stats, wd, final_stats, w8.
  pose proof (create_tables_keeps_table
                (set_metrics (set_start_time (clock (outside w)) (metrics w)) w))
    as Hst1.
  pose proof (quiet_metrics _ _ _ _ (quiet_create_tables psycopg2_connect) Hct)
    as Hmet1.
  rewrite Hct in Hst1. unfold same in Hst1. cbn in Hst1, Hmet1.
  destruct (get_statistics_spec w3) as (r & wb' & Hg & Hst2 & Hmet2 & _).
  rewrite Hinit in Hg. injection Hg as <- <-.
  split; [rewrite Hst2; exact Hst1|]. split; [rewrite Hmet2; exact Hmet1|].
  split; [exact Hloop|]. split.
  { destruct all_jobs as [|job rest].
    - injection Hdb as <- <-. split; reflexivity.
    - apply bind_returns in Hdb as (r & wu & Hup & Hdb).
      destruct r as [stats|]; [|discriminate].
      apply bind_returns in Hdb as (? & wl & Hl & Hdb).
      injection Hdb as <- <-. unfold update_metrics, modify in Hl.
      injection Hl as _ <-. exists wu. split; [exact Hup|reflexivity]. }
  split; [exact Hfinal|]. split; reflexivity.
Qed.

(** The stages of a run that raises: the failure is one of the database,
    and it leaves the rows as they were. *)
Lemma run_raises_stages keyword location max_pages w e w' :
  run_service keyword location max_pages w = (Raise e, w') ->
  exists w1,
    w' = run_failed e w1
    /\ job_postings w1 = job_postings w
    /\ start_time (metrics w1) = Some (clock (outside w))
    /\ errors (metrics w) `prefix_of` errors (metrics w1)
    /\ database_raises psycopg2_connect e.
Proof.
  unfold run. intros H.
  apply bind_raises in H as [H|(start & w0 & Hs & H)]; [discriminate|].
  unfold time_time, get in Hs. injection Hs as <- <-.
  apply bind_raises in H as [H|(? & w0 & Hm & H)]; [discriminate|].
  unfold update_metrics at 1, modify in Hm. injection Hm as _ <-.
  apply try_except_raises in H as (e1 & w1 & Hbody & Hh).
  unfold bind, time_time, get, update_metrics, modify, raise in Hh.
  injection Hh as <- <-.
  exists w1. split; [reflexivity|].
  set (w0 := set_metrics (set_start_time (clock (outside w)) (metrics w)) w)
    in Hbody.
  pose proof (create_tables_keeps_table w0) as Hst1.
  apply bind_raises in Hbody as [Hct|(? & wa & Hct & Hbody)].
  { pose proof (quiet_metrics _ _ _ _ (quiet_create_tables psycopg2_connect) Hct)
      as Hmet.
    rewrite Hct in Hst1. unfold same in Hst1. cbn in Hst1, Hmet.
    split; [exact Hst1|]. rewrite Hmet. split; [reflexivity|].
    split; [reflexivity|]. exact (create_tables_raises _ _ _ Hct). }
  pose proof (quiet_metrics _ _ _ _ (quiet_create_tables psycopg2_connect) Hct)
    as Hmet1.
  rewrite Hct in Hst1. unfold same in Hst1. cbn in Hst1, Hmet1.
  destruct (get_statistics_spec wa) as (r & wb & Hg & Hst2 & Hmet2 & _).
  apply bind_raises in Hbody as [Hx|(r' & wb' & Hg' & Hbody)];
    [rewrite Hg in Hx; discriminate|].
  rewrite Hg in Hg'. injection Hg' as <- <-.
  destruct (loop_shape api_delay session_get _parse_location _parse_remuneration
              _parse_date first_entry keyword location max_pages
              (S (Z.to_nat max_pages)) 1 [] wb)
    as (all_jobs & wc & n & Hloop & _ & _ & Herr & _); [lia|].
  pose proof (loop_keeps_store keyword location max_pages
                (S (Z.to_nat max_pages)) 1 [] wb) as Hst3.
  destruct (loop_tally _ _ _ _ _ _ _ _ _ Hloop) as (Hstamps & _).
  rewrite Hloop in Hst3. unfold same, store in Hst3. cbn [snd] in Hst3.
  injection Hst3 as Hst3 _.
  apply bind_raises in Hbody as [Hx|(all_jobs' & wc' & Hloop' & Hbody)];
    [rewrite Hloop in Hx; discriminate|].
  rewrite Hloop in Hloop'. injection Hloop' as <- <-.
  assert (Hstart : start_time (metrics wc) = Some (clock (outside w))).
  { unfold run_stamps in Hstamps. injection Hstamps as -> _ _.
    rewrite Hmet2, Hmet1. reflexivity. }
  assert (Herrs : errors (metrics w) `prefix_of` errors (metrics wc)).
  { rewrite Hmet2, Hmet1 in Herr. exact Herr. }
  assert (Htable : job_postings wc = job_postings w)
    by (rewrite Hst3, Hst2; exact Hst1).
  apply bind_raises in Hbody as [Hdb|(db_stats & wd & Hdb & Hbody)].
  - destruct all_jobs as [|job rest]; [discriminate|].
    apply bind_raises in Hdb as [Hup|(r2 & wu & Hup & Hdb)].
    + destruct (upsert_jobs_raises _ _ _ _ _ Hup) as (_ & Hst4 & _ & Hconn).
      pose proof (quiet_metrics _ _ _ _ (quiet_upsert_jobs psycopg2_connect _) Hup)
        as Hmet4.
      split; [rewrite Hst4; exact Htable|]. rewrite Hmet4.
      split; [exact Hstart|]. split; [exact Herrs|exact Hconn].
    + exfalso. destruct r2 as [stats|].
      * revert Hdb. unfold bind, update_metrics, modify, ret. discriminate.
      * unfold upsert_jobs, retry in Hup.
        apply (retry_loop_not_None 3 2
                 (upsert_jobs_undecorated psycopg2_connect (job :: rest))
                 (S (Z.to_nat 3)) 0 1%Q wc); [lia|].
        rewrite Hup. reflexivity.
  - exfalso.
    destruct (get_statistics_spec wd) as (r3 & w8 & Hg3 & _).
    apply bind_raises in Hbody as [Hx|(r3' & w8' & Hg3' & Hbody)];
      [rewrite Hg3 in Hx; discriminate|].
    revert Hbody. unfold bind, time_time, get, update_metrics, modify, ret.
    discriminate.
Qed.

(** X17.  A run that fails has changed no row: when [run] raises, the
    rows of the table are those found before the run (an upsert whose
    commit failed is rolled back); the exception is the database's, raised
    by a connection attempt, a statement or a commit (no failure of the
    API ever escapes a run); the failure is recorded as the last of the
    errors, after those already there; and the metrics carry the start
    time of this run and, as end time, the time of the failure. *)
Theorem failed_run_leaves_database keyword location max_pages w e w' :
  run_service keyword location max_pages w = (Raise e, w') ->
  job_postings w' = job_postings w
  /\ database_raises psycopg2_connect e
  /\ (exists errs,
        errors (metrics w') = errs ++ [("ETL process failed: " ++ str e)%string]
        /\ errors (metrics w) `prefix_of` errs)
  /\ start_time (metrics w') = Some (clock (outside w))
  /\ end_time (metrics w') = Some (clock (outside w')).
Proof.
  intros Hrun. apply run_raises_stages in Hrun.
  destruct Hrun as (w1 & -> & Htable & Hstart & Herr & Hconn).
  split; [exact Htable|]. split; [exact Hconn|]. split.
  - exists (errors (metrics w1)). split; [reflexivity|exact Herr].
  - split; [exact Hstart|reflexivity].
Qed.

(** A database that accepts everything raises nothing. *)
Lemma accepting_database_never_raises e :
  always_accepts psycopg2_connect -> ~ database_raises psycopg2_connect e.
Proof.
  intros Hdb [(o & o' & Hconn)|(o & conn & o' & Hconn & Hop)].
  - destruct (Hdb o) as (conn & o'' & Hok & _). congruence.
  - destruct (Hdb o) as (conn' & o'' & Hok & Hexec & Hcommit).
    rewrite Hconn in Hok. injection Hok as <- <-.
    destruct Hop as [(st & o1 & o2 & Hraise)|(o1 & o2 & Hraise)].
    + destruct (Hexec st o1) as (o3 & Hgood). congruence.
    + destruct (Hcommit o1) as (o3 & Hgood). congruence.
Qed.

(** X18.  A run always ends, by returning a summary or by raising; and
    with a database that accepts every connection and, over it, every
    statement and every commit, it returns a summary, whatever the API
    answers or fails to answer, in which [total_jobs_in_db] is the number
    of rows of the table after the run. *)
Theorem run_survives_api_failures keyword location max_pages w :
  ((exists summary w', run_service keyword location max_pages w = (Return summary, w'))
   \/ (exists e w', run_service keyword location max_pages w = (Raise e, w')))
  /\ (always_accepts psycopg2_connect ->
      exists summary w',
        run_service keyword location max_pages w = (Return summary, w')
        /\ total_jobs_in_db summary = Z.of_nat (size (job_postings w'))).
Proof.
  pose proof (run_ends keyword location max_pages w) as Hends.
  destruct (run_service keyword location max_pages w) as [[summary|e|] w'] eqn:Hrun;
    cbn [fst] in Hends; [| |contradiction].
  - split; [left; eauto|]. intros Hdb. exists summary, w'.
    split; [reflexivity|].
    apply run_returns_stages in Hrun.
    destruct Hrun as (wb & all_jobs & wc & db_stats & wd & final_stats & w8
                      & _ & _ & _ & _ & Hfinal & -> & ->).
    destruct (get_statistics_spec wd) as (r & w8' & Hg & Hst & _ & _ & Hsize).
    rewrite Hfinal in Hg. injection Hg as <- <-.
    rewrite (Hsize Hdb). cbn. rewrite Hst. reflexivity.
  - split; [right; eauto|]. intros Hdb. exfalso.
    apply run_raises_stages in Hrun.
    destruct Hrun as (w1 & _ & _ & _ & _ & Hraise).
    exact (accepting_database_never_raises e Hdb Hraise).
Qed.

(** X19.  The summary a run returns, against the world before and after.
    The postings [all_jobs] extracted by this run all validate;
    [jobs_extracted] is the count before the run plus their number, and
    [api_calls_made] the count before the run plus at most one per page:
    both are running totals of the service, as the error list is, which
    starts with the errors already there.  [jobs_inserted + jobs_updated]
    is the number of unique keys among the postings, [jobs_inserted] the
    number of those keys the table did not hold, and the table has grown
    by that many rows.  [total_jobs_in_db] is the size of the table, or 0
    when the final statistics could not be read.  [duration_seconds] is
    the time elapsed.  The metrics end up with the start and end time of
    this run; [total_jobs_loaded] is overwritten when postings were
    extracted and keeps its earlier value when none was. *)
Theorem run_summary_accounts keyword location max_pages w summary w' :
  run_service keyword location max_pages w = (Return summary, w') ->
  exists all_jobs,
    Forall valid all_jobs
    /\ jobs_extracted summary
       = total_jobs_extracted (metrics w) + Z.of_nat (length all_jobs)
    /\ total_api_calls (metrics w) <= api_calls_made summary
       <= total_api_calls (metrics w) + Z.max 0 max_pages
    /\ errors (metrics w) `prefix_of` summary_errors summary
    /\ jobs_inserted summary + jobs_updated summary
       = Z.of_nat (size (key_set all_jobs))
    /\ jobs_inserted summary
       = Z.of_nat (size (key_set all_jobs ∖ dom (job_postings w)))
    /\ Z.of_nat (size (job_postings w'))
       = Z.of_nat (size (job_postings w)) + jobs_inserted summary
    /\ (total_jobs_in_db summary = Z.of_nat (size (job_postings w'))
        \/ total_jobs_in_db summary = 0)
    /\ duration_seconds summary = (clock (outside w') - clock (outside w))%Q
    /\ metrics w'
       = mkMetrics (Some (clock (outside w))) (Some (clock (outside w')))
           (api_calls_made summary) (jobs_extracted summary)
           (match all_jobs with
            | [] => total_jobs_loaded (metrics w)
            | _ => jobs_inserted summary + jobs_updated summary
            end)
           (summary_errors summary).
Proof.
  intros Hrun. apply run_returns_stages in Hrun.
  destruct Hrun as (wb & all_jobs & wc & db_stats & wd & final_stats & w8
                    & Hstore & Hmet & Hloop & Hdb & Hfinal & -> & ->).
  exists all_jobs.
  destruct (loop_shape api_delay session_get _parse_location _parse_remuneration
              _parse_date first_entry keyword location max_pages
              (S (Z.to_nat max_pages)) 1 [] wb)
    as (all_jobs' & wc' & n & Hloop' & Hn & _ & Herr & Hcalls); [lia|].
  rewrite Hloop in Hloop'. injection Hloop' as <- <-.
  destruct (loop_tally _ _ _ _ _ _ _ _ _ Hloop)
    as (Hstamps & jobs & Hjobs & Hvalid & Htally).
  cbn [app] in Hjobs. subst jobs.
  pose proof (loop_keeps_store keyword location max_pages
                (S (Z.to_nat max_pages)) 1 [] wb) as Hst.
  rewrite Hloop in Hst. unfold same in Hst. cbn [snd] in Hst.
  rewrite Hmet in Herr, Hcalls, Htally, Hstamps.
  cbn [set_start_time errors total_api_calls total_jobs_extracted run_stamps
       start_time end_time total_jobs_loaded] in Herr, Hcalls, Htally, Hstamps.
  destruct (get_statistics_spec wd) as (r & w8' & Hg & Hst8 & Hmet8 & Hr & _).
  rewrite Hfinal in Hg. injection Hg as <- <-.
  assert (Htable : job_postings wc = job_postings w)
    by (unfold store in *; congruence).
  assert (Hd : metrics wd
               = mkMetrics (start_time (metrics wc)) (end_time (metrics wc))
                   (total_api_calls (metrics wc))
                   (total_jobs_extracted (metrics wc))
                   (match all_jobs with
                    | [] => total_jobs_loaded (metrics wc)
                    | _ => inserted db_stats + updated db_stats
                    end)
                   (errors (metrics wc))
               /\ inserted db_stats + updated db_stats
                  = Z.of_nat (size (key_set all_jobs))
               /\ inserted db_stats
                  = Z.of_nat (size (key_set all_jobs ∖ dom (job_postings w)))
               /\ Z.of_nat (size (job_postings wd))
                  = Z.of_nat (size (job_postings w)) + inserted db_stats).
  { destruct all_jobs as [|job rest].
    - destruct Hdb as [-> ->]. rewrite Htable. cbn.
      replace (key_set [] ∖ dom (job_postings w)) with (∅ : gset string)
        by (unfold key_set; set_solver).
      unfold key_set. cbn. rewrite size_empty.
      split; [destruct (metrics wc); reflexivity|]. repeat split; lia.
    - destruct Hdb as (wu & Hup & ->).
      destruct (upsert_counts _ _ _ _ _ Hup) as (Ht & Hk & _ & Hi & Hs).
      pose proof (quiet_metrics _ _ _ _ (quiet_upsert_jobs psycopg2_connect _) Hup)
        as Hmu.
      rewrite Htable in Hi, Hs. cbn [metrics set_metrics job_postings].
      rewrite Hmu. split; [unfold set_loaded; rewrite Ht; reflexivity|].
      split; [lia|]. split; [exact Hi|exact Hs]. }
  destruct Hd as (Hmd & Hsum & Hins & Hsize).
  assert (Htable8 : job_postings w8 = job_postings wd)
    by (unfold store in Hst8; congruence).
  cbn [jobs_extracted api_calls_made summary_errors jobs_inserted jobs_updated
       total_jobs_in_db duration_seconds metrics set_metrics job_postings
       outside].
  rewrite Hmet8, Hmd, Htable8.
  cbn [total_api_calls total_jobs_extracted errors set_end_time start_time
       end_time total_jobs_loaded].
  unfold run_stamps in Hstamps. injection Hstamps as Hs1 _ Hs3.
  split; [exact Hvalid|]. split; [lia|]. split; [lia|]. split; [exact Herr|].
  split; [exact Hsum|]. split; [exact Hins|]. split; [exact Hsize|]. split.
  { destruct Hr as [->| ->]; [right|left]; reflexivity. }
  split; [reflexivity|].
  rewrite Hs1. destruct all_jobs; [rewrite Hs3|]; reflexivity.
Qed.

End RunStages.

Lemma failed_run_leaves_database_witness :
  exists e w',
    run (3 # 2) (api_server 3) fixture_location fixture_remuneration
      fixture_date fixture_entry connect_strict "data engineering" None 20
      (fresh_world (CircuitBreaker_init 5 60) 0 0%nat) = (Raise e, w')
    /\ job_postings w' = ∅.
Proof.
  eexists. eexists.
  assert (Hrun : run (3 # 2) (api_server 3) fixture_location fixture_remuneration
                   fixture_date fixture_entry connect_strict "data engineering"
                   None 20 (fresh_world (CircuitBreaker_init 5 60) 0 0%nat)
                 = (Raise (Exception
                      "A string literal cannot contain NUL (0x00) characters."),
                    snd (run (3 # 2) (api_server 3) fixture_location
                           fixture_remuneration fixture_date fixture_entry
                           connect_strict "data engineering" None 20
                           (fresh_world (CircuitBreaker_init 5 60) 0 0%nat))))
    by (vm_compute; reflexivity).
  split; [exact Hrun|].
  exact (proj1 (failed_run_leaves_database _ _ _ _ _ _ _ _ _ _ _ _ _ Hrun)).
Defined.

Lemma run_survives_api_failures_witness :
  exists summary w',
    run (3 # 2) throttling_server fixture_location fixture_remuneration
      fixture_date fixture_entry connect_ok "data engineering" None 20
      (fresh_world (CircuitBreaker_init 5 60) 0 0%nat) = (Return summary, w')
    /\ total_jobs_in_db summary = Z.of_nat (size (job_postings w')).
Proof.
  apply (proj2 (run_survives_api_failures (3 # 2) throttling_server
                  fixture_location fixture_remuneration fixture_date
                  fixture_entry connect_ok "data engineering" None 20
                  (fresh_world (CircuitBreaker_init 5 60) 0 0%nat))).
  intros o. exists healthy_connection, o. split; [reflexivity|].
  split; intros; eexists; reflexivity.
Defined.

Lemma run_summary_accounts_witness :
  exists summary w',
    run (3 # 2) (api_server 3) fixture_location fixture_remuneration
      fixture_date fixture_entry connect_ok "data engineering" None 20
      (fresh_world (CircuitBreaker_init 5 60) 0 0%nat) = (Return summary, w')
    /\ Z.of_nat (size (job_postings w')) = 0 + jobs_inserted summary.
Proof.
  eexists. eexists.
  assert (Hrun : run (3 # 2) (api_server 3) fixture_location fixture_remuneration
                   fixture_date fixture_entry connect_ok "data engineering"
                   None 20 (fresh_world (CircuitBreaker_init 5 60) 0 0%nat)
                 = (Return (mkSummary (3 # 2) 1 3 3 0 3 []),
                    snd (run (3 # 2) (api_server 3) fixture_location
                           fixture_remuneration fixture_date fixture_entry
                           connect_ok "data engineering" None 20
                           (fresh_world (CircuitBreaker_init 5 60) 0 0%nat))))
    by (vm_compute; reflexivity).
  split; [exact Hrun|].
  destruct (run_summary_accounts _ _ _ _ _ _ _ _ _ _ _ _ _ Hrun)
    as (all_jobs & _ & _ & _ & _ & _ & _ & Hsize & _).
  exact Hsize.
Defined.

(** ** The location parser *)

Section ParseLocation.
Import Json.
Implicit Types (v : value) (parts : list value) (d : list (string * value)).

Lemma strings_of_inr parts : forall i l,
  strings_of i parts = inr l -> parts = map Str l.
Proof.
  induction parts as [|v rest IH]; intros i l H; cbn in H.
  - injection H as <-. reflexivity.
  - destruct v; try discriminate.
    destruct (strings_of (S i) rest) as [e|l'] eqn:Hrest; [discriminate|].
    injection H as <-. cbn. f_equal. exact (IH _ _ Hrest).
Qed.

Lemma strings_of_raises parts : forall i,
  (exists e, strings_of i parts = inl e)
  <-> Exists (fun v => is_str v = false) parts.
Proof.
  induction parts as [|v rest IH]; intros i.
  - split; [intros (e & H); discriminate|intros H; inversion H].
  - rewrite Exists_cons, <- (IH (S i)). cbn [strings_of].
    destruct v; cbn [is_str];
      try (split; [intros _; left; reflexivity|intros _; eexists; reflexivity]).
    destruct (strings_of (S i) rest) as [e|l].
    + split; [intros _; right; eauto|intros _; eauto].
    + split; [intros (e & H); discriminate|].
      intros [H|(e & H)]; discriminate.
Qed.

Lemma Exists_filter_truth (P : value -> Prop) parts :
  Exists P (List.filter truth parts)
  <-> Exists (fun v => truth v = true /\ P v) parts.
Proof.
  induction parts as [|v rest IH]; cbn [List.filter].
  - split; intros H; inversion H.
  - destruct (truth v) eqn:Hv; rewrite ?Exists_cons, IH; [tauto|].
    split; [tauto|]. intros [[H _]|H]; [congruence|exact H].
Qed.

Lemma concat_nonempty sep s l : s <> "" -> String.concat sep (s :: l) <> "".
Proof.
  intros Hs. destruct s as [|c s']; [contradiction|].
  destruct l; cbn; discriminate.
Qed.

(** What [_parse_location] does with a location entry that is a
    dictionary. *)
Lemma parse_location_entry d rest :
  _parse_location (Array (Object d :: rest))
  = match List.filter truth (location_fields d) with
    | [] => inr "Location not specified"
    | _ => str_join ", " (List.filter truth (location_fields d))
    end.
Proof. reflexivity. Qed.

Lemma parse_location_other v :
  (forall d rest, v <> Array (Object d :: rest)) ->
  _parse_location v = inr "Location not specified".
Proof.
  intros Hv. destruct v as [| | | | |[|[] rest]|]; try reflexivity.
  exfalso. exact (Hv _ _ eq_refl).
Qed.

(** X20.  [_parse_location] on any decoded value.  It never returns the
    empty text.  It raises, with the [TypeError] of [join], exactly when
    the value is a non-empty list whose first entry is a dictionary in
    which one of the three fields read is truthy and no string; this
    exception is not caught in the parser.  An entry whose city and state
    are absent or falsy and that has no country code gives ["US"], the
    default of the country, and not the fall-back text.  When the three
    fields are strings, the result is the non-empty ones of city, state
    and country, in this order, separated by [", "], and the fall-back
    text when all are empty. *)
Theorem parse_location_spec :
  (forall v s, _parse_location v = inr s -> s <> "")
  /\ (forall v,
        (exists e, _parse_location v = inl e)
        <-> exists d rest,
              v = Array (Object d :: rest)
              /\ Exists (fun f => truth f = true /\ is_str f = false)
                        (location_fields d))
  /\ (forall d rest,
        truth (dict_get d "CityName" (Str "")) = false ->
        truth (dict_get d "StateCode" (Str "")) = false ->
        List.find (fun kv => String.eqb (fst kv) "CountryCode") d = None ->
        _parse_location (Array (Object d :: rest)) = inr "US")
  /\ (forall d rest city state country,
        location_fields d = [Str city; Str state; Str country] ->
        _parse_location (Array (Object d :: rest))
        = inr match List.filter truthy [city; state; country] with
              | [] => "Location not specified"
              | texts => String.concat ", " texts
              end).
Proof.
  split; [|split; [|split]].
  - intros v s H.
    assert (Hcases : (exists d rest, v = Array (Object d :: rest))
                     \/ forall d rest, v <> Array (Object d :: rest)).
    { destruct v as [| | | | |[|[] rest]|]; try (right; discriminate).
      left. eauto. }
    destruct Hcases as [(d & rest & ->)|Hother].
    2:{ rewrite (parse_location_other _ Hother) in H. injection H as <-.
        discriminate. }
    rewrite parse_location_entry in H.
    destruct (List.filter truth (location_fields d)) as [|p parts] eqn:Hf.
    { injection H as <-. discriminate. }
    unfold str_join in H.
    destruct (strings_of 0 (p :: parts)) as [e|l] eqn:Hs; [discriminate|].
    injection H as <-. apply strings_of_inr in Hs.
    destruct l as [|s0 l']; [discriminate|]. injection Hs as -> _.
    apply concat_nonempty.
    assert (Hin : In (Str s0) (List.filter truth (location_fields d)))
      by (rewrite Hf; left; reflexivity).
    apply filter_In in Hin. destruct Hin as [_ Ht]. cbn in Ht.
    intros ->. discriminate.
  - intros v. split.
    + intros (e & H).
      assert (Hcases : (exists d rest, v = Array (Object d :: rest))
                       \/ forall d rest, v <> Array (Object d :: rest)).
      { destruct v as [| | | | |[|[] rest]|]; try (right; discriminate).
        left. eauto. }
      destruct Hcases as [(d & rest & ->)|Hother].
      2:{ rewrite (parse_location_other _ Hother) in H. discriminate. }
      exists d, rest. split; [reflexivity|].
      rewrite parse_location_entry in H.
      apply Exists_filter_truth.
      destruct (List.filter truth (location_fields d)) as [|p parts];
        [discriminate|].
      apply (strings_of_raises _ 0%nat). unfold str_join in H.
      destruct (strings_of 0 (p :: parts)) as [e'|l]; [eauto|discriminate].
    + intros (d & rest & -> & Hex). rewrite parse_location_entry.
      apply Exists_filter_truth in Hex.
      apply (strings_of_raises _ 0%nat) in Hex. destruct Hex as (e & He).
      destruct (List.filter truth (location_fields d)) as [|p parts];
        [discriminate|].
      exists e. unfold str_join. rewrite He. reflexivity.
  - intros d rest Hcity Hstate Hcountry. rewrite parse_location_entry.
    assert (Hus : dict_get d "CountryCode" (Str "US") = Str "US")
      by (unfold dict_get; rewrite Hcountry; reflexivity).
    unfold location_fields. cbn [List.filter]. rewrite Hcity, Hstate, Hus.
    reflexivity.
  - intros d rest city state country Hfields. rewrite parse_location_entry, Hfields.
    destruct city, state, country; reflexivity.
Qed.

End ParseLocation.

Lemma parse_location_spec_witness :
  Json._parse_location (Json.Array [Json.Object []]) = inr "US".
Proof.
  apply (proj1 (proj2 (proj2 parse_location_spec))); reflexivity.
Defined.
